(** * FastBurp: the interception / replay / correlation core

    A shallow embedding of [src/entrypoints/background.ts] and of the two
    collaborators it awaits ([background/proxy-handler.ts],
    [background/regex-handler.ts]).

    - [Js]: the few [String.prototype] operations the code relies on.
    - [RawRequest]: [parseRawRequest] and the raw request text assembly.
    - [Async]: a free monad for [async] handlers; every [await] is a
      suspension point, the code between two [await]s runs atomically.
    - [Background]: the ledger, the pending-action set, the correlation
      maps and the [chrome.debugger.onEvent] / [runtime.onMessage]
      listeners.
    - [Expected], [Examples]: the vocabulary of the statements and
      concrete states and events.
    - [Logic]: a weakest-precondition logic over suspension points.
    - [EventLoop], [Invariants]: the interleaving of the handlers of
      [Background] with the tasks they leave suspended, and what it
      keeps true.
    - [Charset]: [getCharset].
    - [WebRequest]: the [webRequest.onBeforeSendHeaders] listener.
    - [Lifecycle]: [attachDebugger], [detachDebugger], [toggleAllTabs],
      [initialize] and the [storage.onChanged] listener, over the
      variables of [Background] and the map of attached tabs.
    - [ProxyHandler]: [setChromeProxy], [clearProxySettings],
      [testProxyConnection] and the proxy change listener of
      [proxy-handler.ts], which [Background] sees as calls.
    - [RegexHandler]: [loadSettings] and [saveMatches] of
      [regex-handler.ts].
    - [Schedules]: a schedule that answers the calls in the order in
      which they are issued, and the resumption of a suspended task.
    - [ParserShapes], [Shapes], [Tabs], [ProxyShapes], [RegexShapes],
      [Samples]: more vocabulary and concrete inputs.
    - [AsyncFacts], [JsFacts], [RawRequestFacts], [RouterFacts],
      [ReplayFacts], [LogicFacts], [InvariantFacts], [EventLoopFacts],
      [ParserFacts], [HeaderFacts], [CharsetFacts], [HandlerFacts],
      [WebRequestFacts], [LifecycleFacts], [ProxyFacts], [RegexFacts]:
      the properties.

    Not modelled: the [webRequest.onHeadersReceived] listener, the tab,
    detach and suspend listeners, the rule engine of
    [regex-handler.ts], the reply to the connection test command and
    the popup. [EventLoop] interleaves the handlers of [Background]
    only: the listeners of [WebRequest] and [Lifecycle] also write to
    the ledger, and the statements about them are about single runs. *)

From Stdlib Require Import Ascii String.
From stdpp Require Import gmap strings list pretty.

Open Scope string_scope.
Open Scope list_scope.

(** ** JavaScript string primitives *)
Module Js.

Definition CR : ascii := Ascii.ascii_of_nat 13.
Definition LF : ascii := Ascii.ascii_of_nat 10.
Definition SP : ascii := " "%char.

Definition crlf : string := String CR (String LF "").
Definition lf : string := String LF "".

(** A JS value used in a boolean position: [undefined] and the empty
    string are falsy. *)
Definition truthy (o : option string) : bool :=
  match o with
  | Some (String _ _) => true
  | _ => false
  end.

(** [a || b] on optional strings. *)
Definition or_else (a b : option string) : option string :=
  if truthy a then a else b.

(** [s.replace(/\r/g, '')]. *)
Fixpoint remove_cr (s : string) : string :=
  match s with
  | "" => ""
  | String c s' =>
      if Ascii.eqb c CR then remove_cr s' else String c (remove_cr s')
  end.

(** The piece under construction is the head of the result. *)
Definition cons_head (c : ascii) (ps : list string) : list string :=
  match ps with
  | [] => [String c ""]
  | p :: ps' => String c p :: ps'
  end.

(** [s.split(sep)] for a non-empty separator: cut at every occurrence,
    scanning left to right; [skip] counts the characters of a matched
    separator that are still to be dropped. *)
Fixpoint split_aux (sep : string) (skip : nat) (s : string) : list string :=
  match s with
  | "" => [""]
  | String c s' =>
      match skip with
      | S k => split_aux sep k s'
      | O =>
          if String.prefix sep s
          then "" :: split_aux sep (String.length sep - 1) s'
          else cons_head c (split_aux sep 0 s')
      end
  end.

Definition split (sep s : string) : list string := split_aux sep 0 s.


(** [s.includes(sub)]. *)
Fixpoint includes (sub s : string) : bool :=
  String.prefix sub s ||
  match s with
  | "" => false
  | String _ s' => includes sub s'
  end.

(** [s.startsWith(p)]. *)
Definition startsWith (s p : string) : bool := String.prefix p s.

(** Occurrence of a single character. *)
Fixpoint has_char (c : ascii) (s : string) : bool :=
  match s with
  | "" => false
  | String d s' => Ascii.eqb d c || has_char c s'
  end.

End Js.

(** ** Raw request text: parsing and assembly *)
Module RawRequest.
Import Js.

Record Header := mkHeader { name : string; value : string }.

#[global] Instance Header_eq_dec : EqDecision Header.
Proof. solve_decision. Defined.

Record Parsed := mkParsed {
  method : string;
  url : option string;
  headers : list Header;
  postData : option string
}.

(** The loop state of [parseRawRequest]: [isHeaderSection], [headers]
    (in push order) and [body]. *)
Record LoopState := mkLoop {
  isHeaderSection : bool;
  acc_headers : list Header;
  body : option string
}.

Definition loop_step (st : LoopState) (line : string) : LoopState :=
  if isHeaderSection st && String.eqb line "" then
    mkLoop false (acc_headers st) (body st)
  else if isHeaderSection st then
    match split ": " line with
    | [p0; p1] => mkLoop true (acc_headers st ++ [mkHeader p0 p1]) (body st)
    | _ => st
    end
  else
    mkLoop false (acc_headers st)
      (Some ((match body st with
              | Some (String c b) => String c b +:+ lf
              | _ => ""
              end) +:+ line)).

Definition parseRawRequest (rawRequest : string) : Parsed :=
  let lines := split lf (remove_cr rawRequest) in
  let firstLine := hd "" lines in
  let parts := split " " firstLine in
  let st := fold_left loop_step (tl lines) (mkLoop true [] None) in
  mkParsed (hd "" parts) (nth_error parts 1) (acc_headers st) (body st).

(** The text built on the new-exchange path: request line, one line per
    header, and, when there is a body, a blank line and the body. *)
Definition request_line (m u : string) : string :=
  m +:+ " " +:+ u +:+ " HTTP/1.1" +:+ crlf.

Definition header_line (h : Header) : string :=
  name h +:+ ": " +:+ value h +:+ crlf.

Definition body_part (b : option string) : string :=
  match b with
  | Some b => crlf +:+ b
  | None => ""
  end.

Definition assembleRawRequest
    (m u : string) (hs : list Header) (b : option string) : string :=
  fold_left (fun raw h => raw +:+ header_line h) hs (request_line m u)
    +:+ body_part b.

(** The texts that survive a round trip through [parseRawRequest]:
    a method or URL without blank, CR or LF; a header whose name and
    value hold no CR, no LF and no colon-blank pair; a body without CR
    that does not start with LF. *)
Definition line_safe (s : string) : bool :=
  negb (has_char CR s) && negb (has_char LF s).

Definition token_safe (s : string) : bool :=
  line_safe s && negb (has_char SP s).

Definition header_safe (h : Header) : bool :=
  line_safe (name h) && line_safe (value h)
  && negb (includes ": " (name h)) && negb (includes ": " (value h)).

Definition body_safe (b : option string) : bool :=
  match b with
  | Some b => negb (has_char CR b) && negb (String.prefix lf b)
  | None => true
  end.





End RawRequest.

(** ** Asynchronous handlers

    An [async] function is a program over the shared state [S]: it reads
    and writes the state, emits synchronous effects of type [E], throws,
    awaits an external call [c : C] whose promise settles with an
    [Outcome (ret c)], or starts a detached task (an [async] function
    that is called and not awaited). *)
Module Async.

Inductive Outcome (X : Type) : Type :=
| Resolved (x : X)
| Rejected (msg : string).
Arguments Resolved {X} x.
Arguments Rejected {X} msg.

Section WithSignature.
Context {S E C : Type} {ret : C -> Type}.

Inductive Prog (A : Type) : Type :=
| Ret (a : A)
| Throw (msg : string)
| Get (k : S -> Prog A)
| Put (s : S) (k : Prog A)
| Emit (e : E) (k : Prog A)
| Await (c : C) (k : Outcome (ret c) -> Prog A)
| Spawn (p : Prog unit) (k : Prog A).
Arguments Ret {A} a.
Arguments Throw {A} msg.
Arguments Get {A} k.
Arguments Put {A} s k.
Arguments Emit {A} e k.
Arguments Await {A} c k.
Arguments Spawn {A} p k.

Fixpoint bind {A B} (p : Prog A) (f : A -> Prog B) : Prog B :=
  match p with
  | Ret a => f a
  | Throw m => Throw m
  | Get k => Get (fun s => bind (k s) f)
  | Put s k => Put s (bind k f)
  | Emit e k => Emit e (bind k f)
  | Await c k => Await c (fun o => bind (k o) f)
  | Spawn p k => Spawn p (bind k f)
  end.

(** [try { p } catch (e) { h e.message }]; a detached task is outside
    the block that started it. *)
Fixpoint try_catch {A} (p : Prog A) (h : string -> Prog A) : Prog A :=
  match p with
  | Ret a => Ret a
  | Throw m => h m
  | Get k => Get (fun s => try_catch (k s) h)
  | Put s k => Put s (try_catch k h)
  | Emit e k => Emit e (try_catch k h)
  | Await c k => Await c (fun o => try_catch (k o) h)
  | Spawn p k => Spawn p (try_catch k h)
  end.

(** [try { p } finally { fin }]. *)
Definition try_finally {A} (p : Prog A) (fin : Prog unit) : Prog A :=
  bind (try_catch (bind p (fun a => Ret (inl a)))
                  (fun m => Ret (inr m)))
       (fun r =>
          bind fin (fun _ =>
            match r with
            | inl a => Ret a
            | inr m => Throw m
            end)).

Definition get : Prog S := Get (fun s => Ret s).
Definition put (s : S) : Prog unit := Put s (Ret tt).
Definition modify (f : S -> S) : Prog unit := Get (fun s => Put (f s) (Ret tt)).
Definition emit (e : E) : Prog unit := Emit e (Ret tt).
Definition await (c : C) : Prog (ret c) :=
  Await c (fun o =>
    match o with
    | Resolved x => Ret x
    | Rejected m => Throw m
    end).
Definition spawn (p : Prog unit) : Prog unit := Spawn p (Ret tt).

(** What an observer sees: synchronous effects and issued calls. *)
Inductive Obs : Type :=
| OEff (e : E)
| OCall (c : C).

(** How a task stands when control returns to the event loop. *)
Inductive Status (A : Type) : Type :=
| Returned (a : A)
| Failed (msg : string)
| Pending (c : C) (k : Outcome (ret c) -> Prog A).

(** A detached task waiting for its call to settle. *)
Record Detached : Type := Det {
  d_call : C;
  d_k : Outcome (ret d_call) -> Prog unit
}.

Record Run (A : Type) : Type := mkRun {
  r_state : S;
  r_trace : list Obs;
  r_pool : list Detached;
  r_status : Status A
}.

End WithSignature.

Arguments Prog : clear implicits.
Arguments Ret {S E C ret A} a.
Arguments Throw {S E C ret A} msg.
Arguments Get {S E C ret A} k.
Arguments Put {S E C ret A} s k.
Arguments Emit {S E C ret A} e k.
Arguments Await {S E C ret A} c k.
Arguments Spawn {S E C ret A} p k.
Arguments Obs : clear implicits.
Arguments Status : clear implicits.
Arguments Detached : clear implicits.
Arguments Run : clear implicits.
Arguments Returned {S E C ret A} a.
Arguments Failed {S E C ret A} msg.
Arguments Pending {S E C ret A} c k.
Arguments OEff {E C} e.
Arguments OCall {E C} c.
Arguments Det {S E C ret} d_call d_k.
Arguments mkRun {S E C ret A} r_state r_trace r_pool r_status.
Arguments r_state {S E C ret A} r.
Arguments r_trace {S E C ret A} r.
Arguments r_pool {S E C ret A} r.
Arguments r_status {S E C ret A} r.

Section Semantics.
Context {S E C : Type} {ret : C -> Type}.
Abbreviation Prog := (Prog S E C ret).
Abbreviation Run := (Run S E C ret).
Abbreviation Detached := (Detached S E C ret).

Definition observe {A} (o : Obs E C) (r : Run A) : Run A :=
  mkRun (r_state r) (o :: r_trace r) (r_pool r) (r_status r).

(** The suspension a started task leaves behind, if any. *)
Definition leftover (r : Run unit) : list Detached :=
  r_pool r ++
  match r_status r with
  | Pending c k => [Det c k]
  | _ => []
  end.

Definition after_spawn {A} (r1 : Run unit) (r2 : Run A) : Run A :=
  mkRun (r_state r2) (r_trace r1 ++ r_trace r2)
        (leftover r1 ++ r_pool r2) (r_status r2).

(** The run of a task followed by the run of what comes after it. *)
Definition seq_run {A B} (r1 : Run A) (r2 : Run B) : Run B :=
  mkRun (r_state r2) (r_trace r1 ++ r_trace r2)
        (r_pool r1 ++ r_pool r2) (r_status r2).

(** One atomic segment: run until the task returns, fails or reaches
    an [await]. A detached task runs its own first segment at the
    point where it is started. *)
Fixpoint run {A} (p : Prog A) (s : S) : Run A :=
  match p with
  | Ret a => mkRun s [] [] (Returned a)
  | Throw m => mkRun s [] [] (Failed m)
  | Get k => run (k s) s
  | Put s' k => run k s'
  | Emit e k => observe (OEff e) (run k s)
  | Await c k => mkRun s [OCall c] [] (Pending c k)
  | Spawn p k =>
      let r1 := run p s in
      after_spawn r1 (run k (r_state r1))
  end.

(** The schedule without interleaving: every promise the task awaits
    settles, as the environment [env] says, before any other event
    is handled. Detached tasks are started and left in the pool. *)
Fixpoint run_all {A} (env : forall c : C, Outcome (ret c))
    (p : Prog A) (s : S) : Run A :=
  match p with
  | Ret a => mkRun s [] [] (Returned a)
  | Throw m => mkRun s [] [] (Failed m)
  | Get k => run_all env (k s) s
  | Put s' k => run_all env k s'
  | Emit e k => observe (OEff e) (run_all env k s)
  | Await c k => observe (OCall c) (run_all env (k (env c)) s)
  | Spawn p k =>
      let r1 := run p s in
      after_spawn r1 (run_all env k (r_state r1))
  end.

End Semantics.

Module Notations.
Notation "'let*' x ':=' p 'in' q" := (bind p (fun x => q))
  (at level 10, x name, p at level 100, q at level 200).
Notation "p '>>' q" := (bind p (fun _ => q))
  (at level 100, q at level 200, right associativity).
End Notations.

End Async.

(** ** The background script: state, effects and awaited calls *)
Module Background.
Import Js Async Async.Notations.

Abbreviation Header := RawRequest.Header.
Abbreviation mkHeader := RawRequest.mkHeader.

Inductive Mode := intercept | proxy.
Inductive TxStatus := paused | finished.

#[global] Instance Mode_eq_dec : EqDecision Mode.
Proof. solve_decision. Defined.
#[global] Instance TxStatus_eq_dec : EqDecision TxStatus.
Proof. solve_decision. Defined.

(** The [request] object of a pause event. [headers] is a JS object;
    its entries are kept in [Object.entries] order. *)
Module PausedRequest.
Record t := mk {
  url : string;
  method : string;
  headers : list (string * string);
  postData : option string
}.
End PausedRequest.

(** The [request] object kept on a ledger row. *)
Module RequestInfo.
Record t := mk {
  url : option string;
  method : string;
  headers : list (string * string);
  postData : option string
}.
Definition of_paused (r : PausedRequest.t) : t :=
  mk (Some (PausedRequest.url r)) (PausedRequest.method r)
     (PausedRequest.headers r) (PausedRequest.postData r).
End RequestInfo.

(** One row of [requestsStore]. *)
Record Transaction := mkTx {
  id : string;
  tabId : N;
  requestId : string;
  request : RequestInfo.t;
  rawRequest : string;
  rawResponse : option string;
  status : TxStatus;
  isRedirect : bool;
  requestHeaders : list Header;
  responseHeaders : option (list Header)
}.

Definition set_requestId (v : string) (r : Transaction) : Transaction :=
  mkTx (id r) (tabId r) v (request r) (rawRequest r) (rawResponse r)
       (status r) (isRedirect r) (requestHeaders r) (responseHeaders r).
Definition set_rawResponse (v : option string) (r : Transaction) : Transaction :=
  mkTx (id r) (tabId r) (requestId r) (request r) (rawRequest r) v
       (status r) (isRedirect r) (requestHeaders r) (responseHeaders r).
Definition set_status (v : TxStatus) (r : Transaction) : Transaction :=
  mkTx (id r) (tabId r) (requestId r) (request r) (rawRequest r)
       (rawResponse r) v (isRedirect r) (requestHeaders r) (responseHeaders r).
Definition set_responseHeaders (v : list Header) (r : Transaction) : Transaction :=
  mkTx (id r) (tabId r) (requestId r) (request r) (rawRequest r)
       (rawResponse r) (status r) (isRedirect r) (requestHeaders r) (Some v).

(** An entry of [replayDataStore]. *)
Module ReplayData.
Record t := mk {
  originalId : string;
  replayId : string;
  headers : list Header;
  postData : option string;
  timeoutId : N
}.
End ReplayData.

(** What the callback given to [setTimeout] closes over: the token,
    the id of the synthetic row and the id of the replayed row. *)
Module Deadline.
Record t := mk {
  replayId : string;
  replayRequestId : string;
  originalId : string
}.
End Deadline.

Record State := mkState {
  isEnabled : bool;
  mode : Mode;
  requestsStore : list Transaction;
  pendingActions : gset string;
  replayDataStore : gmap string ReplayData.t;
  replayIdToOriginalIdMap : gmap string string;
  apiWhitelist : list string;
(** the host's table of armed timeouts and its next timeout id *)
timers : gmap N Deadline.t;
nextTimer : N
}.

Definition with_mode (v : Mode) (s : State) : State :=
  mkState (isEnabled s) v (requestsStore s) (pendingActions s)
          (replayDataStore s) (replayIdToOriginalIdMap s) (apiWhitelist s)
          (timers s) (nextTimer s).
Definition with_requestsStore (v : list Transaction) (s : State) : State :=
  mkState (isEnabled s) (mode s) v (pendingActions s)
          (replayDataStore s) (replayIdToOriginalIdMap s) (apiWhitelist s)
          (timers s) (nextTimer s).
Definition with_pendingActions (v : gset string) (s : State) : State :=
  mkState (isEnabled s) (mode s) (requestsStore s) v
          (replayDataStore s) (replayIdToOriginalIdMap s) (apiWhitelist s)
          (timers s) (nextTimer s).
Definition with_replayDataStore (v : gmap string ReplayData.t) (s : State) : State :=
  mkState (isEnabled s) (mode s) (requestsStore s) (pendingActions s)
          v (replayIdToOriginalIdMap s) (apiWhitelist s)
          (timers s) (nextTimer s).
Definition with_replayIdToOriginalIdMap (v : gmap string string) (s : State) : State :=
  mkState (isEnabled s) (mode s) (requestsStore s) (pendingActions s)
          (replayDataStore s) v (apiWhitelist s)
          (timers s) (nextTimer s).
Definition with_timers (v : gmap N Deadline.t) (n : N) (s : State) : State :=
  mkState (isEnabled s) (mode s) (requestsStore s) (pendingActions s)
          (replayDataStore s) (replayIdToOriginalIdMap s) (apiWhitelist s)
          v n.

(** Synchronous, observable effects. *)
Inductive Effect :=
| Broadcast (data : list Transaction)
| UpdateBadge (enabled : bool) (m : Mode).

(** [btoa(unescape(encodeURIComponent(s)))], kept symbolic. *)
Inductive Encoded := Base64Utf8 (s : string).

Inductive RegexScope :=
| REQUEST_URL | REQUEST_HEADERS | REQUEST_BODY
| RESPONSE_HEADERS | RESPONSE_BODY.

Record ProxySettings := mkProxySettings {
  enabled : bool;
  host : string;
  port : N;
  protocol : string;
  bypassList : list string;
  requireAuth : bool
}.

Definition DEFAULT_PROXY_SETTINGS : ProxySettings :=
  mkProxySettings false "127.0.0.1" 8080 "http" ["localhost"; "127.0.0.1"] false.

Record ProxyState := mkProxyState {
  isOurProxyActive : bool;
  lastSetTime : N
}.

Definition DEFAULT_PROXY_STATE : ProxyState := mkProxyState false 0.

Record ResponseBody := mkResponseBody {
  body : string;
  base64Encoded : bool
}.

(** The arguments of the injected [executeFetch]. *)
Record Injection := mkInjection {
  fetchUrl : option string;
  fetchMethod : string;
  fetchReplayId : string;
  fetchPostData : option string;
  fetchHeaders : list Header
}.

(** The promises the background script awaits. *)
Inductive Call :=
| ContinueRequest (tab : N) (requestId : string)
    (headers : option (list Header)) (postData : option Encoded)
| GetResponseBody (tab : N) (requestId : string)
| ProcessContent (content : string) (scope : RegexScope) (url requestId : string)
| LoadProxySettings
| LoadProxyState
| SetChromeProxy (settings : ProxySettings)
| ExecuteScript (tab : N) (injection : Injection)
| QueryActiveTab.

Definition ret (c : Call) : Type :=
  match c with
  | ContinueRequest _ _ _ _ => unit
  | GetResponseBody _ _ => ResponseBody
  | ProcessContent _ _ _ _ => string
  | LoadProxySettings => option ProxySettings
  | LoadProxyState => option ProxyState
  | SetChromeProxy _ => unit
  | ExecuteScript _ _ => unit
  | QueryActiveTab => list (option N)
  end.

Abbreviation Prog := (Async.Prog State Effect Call ret).
Abbreviation Run := (Async.Run State Effect Call ret).
Abbreviation Env := (forall c : Call, Outcome (ret c)).

(** What the host supplies synchronously: the two readings of
    [Date.now()] and the printed [Math.random()] of a replay request,
    the decoding of a response body ([getCharset], [atob],
    [TextDecoder]) and [new URL(u).hostname]. *)
Record Host := mkHost {
  now_token : N;
  now_row : N;
  random : string;
  decodeBody : list Header -> ResponseBody -> Outcome string;
  hostname : string -> option string
}.

(** *** Small helpers *)

Definition nonempty (s : string) : bool :=
  match s with
  | "" => false
  | String _ _ => true
  end.

(** [obj[k]] on a JS object given by its entries. *)
Fixpoint obj_get (k : string) (o : list (string * string)) : option string :=
  match o with
  | [] => None
  | (k', v) :: o' => if String.eqb k' k then Some v else obj_get k o'
  end.

(** [obj[k] = v]: overwrite in place, or append a new entry. *)
Fixpoint obj_set (k v : string) (o : list (string * string)) : list (string * string) :=
  match o with
  | [] => [(k, v)]
  | (k', v') :: o' =>
      if String.eqb k' k then (k', v) :: o' else (k', v') :: obj_set k v o'
  end.

(** [result[k] = v] on a plain object, for a string [v]: the key
    [__proto__] is the accessor inherited from [Object.prototype],
    whose setter ignores a value that is not an object, so that
    assignment adds no entry. *)
Definition obj_assign (k v : string) (o : list (string * string))
    : list (string * string) :=
  if String.eqb k "__proto__" then o else obj_set k v o.

(** [s.toLowerCase()] on ASCII text: the letters A to Z are lowered.
    The mapping of letters outside ASCII is not modelled; the
    statements that depend on it are about ASCII names. *)
Definition lower_char (c : ascii) : ascii :=
  let n := Ascii.nat_of_ascii c in
  if (65 <=? n)%nat && (n <=? 90)%nat then Ascii.ascii_of_nat (n + 32) else c.

Fixpoint toLowerCase (s : string) : string :=
  match s with
  | "" => ""
  | String c s' => String (lower_char c) (toLowerCase s')
  end.

Definition headersArrayToObject (hs : list Header) : list (string * string) :=
  fold_left
    (fun result h =>
       obj_assign (toLowerCase (RawRequest.name h)) (RawRequest.value h)
         (obj_assign (RawRequest.name h) (RawRequest.value h) result))
    hs [].

(** [s.endsWith(suf)]. *)
Fixpoint endsWith (s suf : string) : bool :=
  String.eqb s suf ||
  match s with
  | "" => false
  | String _ s' => endsWith s' suf
  end.

(** [s.slice(1)]. *)
Definition slice1 (s : string) : string :=
  match s with
  | "" => ""
  | String _ s' => s'
  end.

(** [requestsStore.findIndex(r => r.id === i)]; [None] stands for -1. *)
Definition findIndex (i : string) (l : list Transaction) : option nat :=
  fst <$> list_find (fun r => id r = i) l.

(** *** Ledger, timers and broadcast *)

Definition broadcastRequestsUpdate : Prog unit :=
  let* s := get in emit (Broadcast (requestsStore s)).

(** [requestsStore[i].field = v]: a [TypeError] when there is no row [i]. *)
Definition update_row (i : nat) (f : Transaction -> Transaction) : Prog unit :=
  let* s := get in
  match requestsStore s !! i with
  | Some r => put (with_requestsStore (<[i := f r]> (requestsStore s)) s)
  | None => Throw "TypeError: Cannot set properties of undefined"
  end.

Definition push_row (r : Transaction) : Prog unit :=
  modify (fun s => with_requestsStore (requestsStore s ++ [r]) s).

Definition setTimeout (d : Deadline.t) : Prog N :=
  let* s := get in
  let t := nextTimer s in
  put (with_timers (<[t := d]> (timers s)) (N.succ t) s) >>
  Ret t.

Definition clearTimeout (t : N) : Prog unit :=
  modify (fun s => with_timers (delete t (timers s)) (nextTimer s) s).

Definition pending_add (i : string) : Prog unit :=
  modify (fun s => with_pendingActions ({[i]} ∪ pendingActions s) s).
Definition pending_delete (i : string) : Prog unit :=
  modify (fun s => with_pendingActions (pendingActions s ∖ {[i]}) s).
Definition replay_delete (k : string) : Prog unit :=
  modify (fun s => with_replayDataStore (delete k (replayDataStore s)) s).
Definition replay_set (k : string) (d : ReplayData.t) : Prog unit :=
  modify (fun s => with_replayDataStore (<[k := d]> (replayDataStore s)) s).
Definition origin_set (k v : string) : Prog unit :=
  modify (fun s =>
    with_replayIdToOriginalIdMap (<[k := v]> (replayIdToOriginalIdMap s)) s).
Definition origin_delete (k : string) : Prog unit :=
  modify (fun s =>
    with_replayIdToOriginalIdMap (delete k (replayIdToOriginalIdMap s)) s).

(** [replayId && replayDataStore.has(replayId)], with the entry. *)
Definition live_replay (s : State) (replayId : option string)
    : option (string * ReplayData.t) :=
  match replayId with
  | Some rid =>
      if nonempty rid then
        match replayDataStore s !! rid with
        | Some d => Some (rid, d)
        | None => None
        end
      else None
  | None => None
  end.

(** *** The content transformation pipeline (regex-handler.ts) *)

(** [processContent]: the settings, the rules and the regex engine are
    behind one awaited call; as in the source, any failure inside gives
    the content back unchanged. *)
Definition processContent (content : string) (scope : RegexScope)
    (url requestId : string) : Prog string :=
  Await (ProcessContent content scope url requestId)
    (fun o =>
       match o with
       | Resolved r => Ret r
       | Rejected _ => Ret content
       end).

Definition processUrl (url requestId : string) : Prog string :=
  processContent url REQUEST_URL url requestId.

Fixpoint processHeaders (scope : RegexScope) (hs : list Header)
    (url requestId : string) : Prog (list Header) :=
  match hs with
  | [] => Ret []
  | h :: hs' =>
      let* v := processContent (RawRequest.value h) scope url requestId in
      let* rest := processHeaders scope hs' url requestId in
      Ret (mkHeader (RawRequest.name h) v :: rest)
  end.

Definition processRequestHeaders := processHeaders REQUEST_HEADERS.
Definition processResponseHeaders := processHeaders RESPONSE_HEADERS.

Definition processRequestBody (b : option string) (url requestId : string)
    : Prog (option string) :=
  match b with
  | Some (String c b') =>
      let* r := processContent (String c b') REQUEST_BODY url requestId in
      Ret (Some r)
  | _ => Ret b
  end.

Definition processResponseBody (b url requestId : string) : Prog string :=
  processContent b RESPONSE_BODY url requestId.

(** *** The proxy reconciler (proxy-handler.ts) *)

Definition loadProxySettings : Prog ProxySettings :=
  Await LoadProxySettings
    (fun o =>
       match o with
       | Resolved (Some st) => Ret st
       | _ => Ret DEFAULT_PROXY_SETTINGS
       end).

Definition loadProxyState : Prog ProxyState :=
  Await LoadProxyState
    (fun o =>
       match o with
       | Resolved (Some st) => Ret st
       | _ => Ret DEFAULT_PROXY_STATE
       end).

Definition setChromeProxy (st : ProxySettings) : Prog unit :=
  await (SetChromeProxy st).

Definition shouldBypassProxy (h : Host) (url : string) (rules : list string) : bool :=
  match hostname h url with
  | Some hn =>
      existsb
        (fun rule =>
           String.eqb rule hn ||
           (startsWith rule "*." && endsWith hn (slice1 rule)))
        rules
  | None => false
  end.

Definition applyProxyToRequest (h : Host) (requestId : string)
    (request : PausedRequest.t) (tab : N) : Prog bool :=
  try_catch
    (let* proxySettings := loadProxySettings in
     let* state := loadProxyState in
     if negb (enabled proxySettings) then
       (if isOurProxyActive state then setChromeProxy proxySettings else Ret tt) >>
       Ret false
     else if shouldBypassProxy h (PausedRequest.url request) (bypassList proxySettings) then
       Ret false
     else
       (if negb (isOurProxyActive state) then setChromeProxy proxySettings else Ret tt) >>
       Ret false)
    (fun _ => Ret false).

(** *** [chrome.debugger.onEvent]: the interception event router *)

(** The [params] of a [Fetch.requestPaused] event. An absent
    [requestId] is the empty string; [redirectResponse] records whether
    the field is present. *)
Module Params.
Record t := mk {
  requestId : string;
  request : PausedRequest.t;
  responseStatusCode : option N;
  responseHeaders : option (list Header);
  networkId : option string;
  redirectResponse : bool
}.
End Params.

Definition continueRequest (tab : N) (requestId : string) : Prog unit :=
  await (ContinueRequest tab requestId None None).

Definition isWhitelisted (s : State) (url : string) : bool :=
  existsb (fun whitelistedUrl => startsWith url whitelistedUrl) (apiWhitelist s).

(** [originalRequestIdForUpdate || networkId || `${tabId}-${requestId}`]. *)
Definition uniqueId_of (s : State) (tab : N) (params : Params.t) : string :=
  match or_else (replayIdToOriginalIdMap s !! Params.requestId params)
                (Params.networkId params) with
  | Some (String c u) => String c u
  | _ => pretty tab +:+ "-" +:+ Params.requestId params
  end.

Definition status_code_text (c : option N) : string :=
  match c with
  | Some n => pretty n
  | None => "undefined"
  end.

Definition raw_response_text (code : option N) (hs : list Header) (b : string) : string :=
  fold_left
    (fun raw h => raw +:+ RawRequest.name h +:+ ": " +:+ RawRequest.value h +:+ crlf)
    hs ("HTTP/1.1 " +:+ status_code_text code +:+ crlf)
  +:+ crlf +:+ b.

Definition of_outcome {A} (o : Outcome A) : Prog A :=
  match o with
  | Resolved a => Ret a
  | Rejected m => Throw m
  end.

(** Case 2: the pause event of a live replay. *)
Definition replay_match (tab : N) (requestId replayId : string)
    (replayData : ReplayData.t) : Prog unit :=
  clearTimeout (ReplayData.timeoutId replayData) >>
  replay_delete replayId >>
  origin_set requestId (ReplayData.originalId replayData) >>
  pending_add (ReplayData.originalId replayData) >>
  try_catch
    (await (ContinueRequest tab requestId
              (Some (ReplayData.headers replayData))
              (match ReplayData.postData replayData with
               | Some (String c b) => Some (Base64Utf8 (String c b))
               | _ => None
               end)))
    (fun _ =>
       origin_delete requestId >>
       pending_delete (ReplayData.originalId replayData)).

(** Case 4: the response of a known exchange. *)
Definition response_stage (h : Host) (tab : N) (params : Params.t)
    (uniqueId : string) (responseHeaders : list Header)
    (existingRequestIndex : nat) : Prog unit :=
  let requestId := Params.requestId params in
  let url := PausedRequest.url (Params.request params) in
  try_finally
    (try_catch
       (let* response := await (GetResponseBody tab requestId) in
        let* responseBodyText :=
          if nonempty (body response)
          then of_outcome (decodeBody h responseHeaders response)
          else Ret "" in
        let* processedResponseHeaders :=
          processResponseHeaders responseHeaders url requestId in
        let* processedResponseBody :=
          processResponseBody responseBodyText url requestId in
        let rawResponse :=
          raw_response_text (Params.responseStatusCode params)
            processedResponseHeaders processedResponseBody in
        update_row existingRequestIndex (set_rawResponse (Some rawResponse)) >>
        update_row existingRequestIndex (set_status finished) >>
        update_row existingRequestIndex
          (set_responseHeaders
             (map (fun x => mkHeader (RawRequest.name x) (RawRequest.value x))
                  processedResponseHeaders)))
       (fun message =>
          update_row existingRequestIndex
            (set_rawResponse (Some ("Error getting response body: " +:+ message))) >>
          update_row existingRequestIndex (set_status finished)))
    (pending_delete uniqueId >>
     origin_delete requestId >>
     broadcastRequestsUpdate) >>
  try_catch (continueRequest tab requestId) (fun _ => Ret tt).

(** The header loop of case 5: one pipeline call per entry of
    [request.headers]; the raw text and the header list grow together. *)
Fixpoint header_loop (entries : list (string * string)) (url requestId : string)
    (rawRequest : string) (requestHeaders : list Header)
    : Prog (string * list Header) :=
  match entries with
  | [] => Ret (rawRequest, requestHeaders)
  | (key, vStr) :: entries' =>
      let* processedValue :=
        processRequestHeaders [mkHeader key vStr] url requestId in
      match processedValue with
      | processedHeader :: _ =>
          header_loop entries' url requestId
            (rawRequest +:+ RawRequest.name processedHeader +:+ ": "
               +:+ RawRequest.value processedHeader +:+ crlf)
            (requestHeaders ++ [processedHeader])
      | [] => Throw "TypeError: Cannot read properties of undefined"
      end
  end.

Definition continue_failed_text (message : string) : string :=
  "继续请求失败: " +:+ message.

(** Case 5, second half: the row is created, inserted and broadcast,
    and in proxy mode the exchange is resumed at once. *)
Definition insert_exchange (tab : N) (params : Params.t) (uniqueId : string)
    (rawRequest : string) (requestHeaders : list Header) : Prog unit :=
  let requestId := Params.requestId params in
  let request := Params.request params in
  let* s := get in
  let requestStatus := if decide (mode s = proxy) then finished else paused in
  let newRequest :=
    mkTx uniqueId tab requestId (RequestInfo.of_paused request) rawRequest None
         requestStatus (Params.redirectResponse params) requestHeaders None in
  push_row newRequest >>
  broadcastRequestsUpdate >>
  if decide (mode s = proxy) then
    try_catch (continueRequest tab requestId)
      (fun message =>
         let* s' := get in
         match findIndex uniqueId (requestsStore s') with
         | Some index =>
             update_row index (set_status finished) >>
             update_row index (set_rawResponse (Some (continue_failed_text message))) >>
             broadcastRequestsUpdate
         | None => Ret tt
         end)
  else Ret tt.

(** Case 5: a new exchange. The URL, every header and the body go
    through the pipeline while the raw request text is built. *)
Definition new_exchange (tab : N) (params : Params.t) (uniqueId : string)
    : Prog unit :=
  let requestId := Params.requestId params in
  let request := Params.request params in
  let url := PausedRequest.url request in
  let* processedUrl := processUrl url requestId in
  let rawRequest0 :=
    PausedRequest.method request +:+ " " +:+ processedUrl +:+ " HTTP/1.1" +:+ crlf in
  let* built :=
    header_loop (PausedRequest.headers request) url requestId rawRequest0 [] in
  let rawRequest1 := fst built in
  let requestHeaders := snd built in
  let* rawRequest :=
    if truthy (PausedRequest.postData request) then
      let* processedPostData :=
        processRequestBody (PausedRequest.postData request) url requestId in
      Ret (rawRequest1 +:+ crlf +:+ default "undefined" processedPostData)
    else Ret rawRequest1 in
  insert_exchange tab params uniqueId rawRequest requestHeaders.

(** Cases 3 to 6: the routing of a pause event that is neither
    whitelisted nor the pause of a live replay. [s] is the state read
    when the event arrived. *)
Definition route
    (applyProxy : string -> PausedRequest.t -> N -> Prog bool)
    (h : Host) (tab : N) (params : Params.t) (s : State) : Prog unit :=
  let requestId := Params.requestId params in
  let request := Params.request params in
  let uniqueId := uniqueId_of s tab params in
  let existingRequestIndex := findIndex uniqueId (requestsStore s) in
  let* proxyApplied :=
    if negb (bool_decide (is_Some (Params.responseHeaders params)))
       && negb (Params.redirectResponse params)
    then try_catch (applyProxy requestId request tab) (fun _ => Ret false)
    else Ret false in
  if proxyApplied then Ret tt else
  match Params.responseHeaders params with
  | Some responseHeaders =>
      match existingRequestIndex with
      | Some i => response_stage h tab params uniqueId responseHeaders i
      | None => Ret tt
      end
  | None =>
      match existingRequestIndex with
      | Some i => update_row i (set_requestId requestId)
      | None => new_exchange tab params uniqueId
      end
  end.

(** The listener, for any reconciler [applyProxy]. *)
Definition onEvent_with
    (applyProxy : string -> PausedRequest.t -> N -> Prog bool)
    (h : Host) (source_tabId : option N) (method : string) (params : Params.t)
    : Prog unit :=
  match source_tabId with
  | Some (Npos t) =>
      let tab := Npos t in
      if negb (String.eqb method "Fetch.requestPaused") then Ret tt else
      let requestId := Params.requestId params in
      let request := Params.request params in
      if negb (nonempty requestId) then Ret tt else
      let* s := get in
      if isWhitelisted s (PausedRequest.url request) then
        try_catch (continueRequest tab requestId) (fun _ => Ret tt)
      else
        match live_replay s (obj_get "X-Replay-Id" (PausedRequest.headers request)) with
        | Some (replayId, replayData) =>
            replay_match tab requestId replayId replayData
        | None => route applyProxy h tab params s
        end
  | _ => Ret tt
  end.

Definition onEvent (h : Host) := onEvent_with (applyProxyToRequest h) h.

(** *** [browser.runtime.onMessage]: the commands of the UI and the
    signals of the injected fetch *)

Module Message.
Record t := mk {
  action : string;
  requestData : option Transaction;
  rawRequest : option string;
  headers : option (list Header);
  replayId : option string;
  response : option string;
  error : option string;
  mode : Mode
}.
End Message.

Definition MSG_INVALID : string := "请求已失效或超时".
Definition MSG_AUTO_DONE : string := "请求已自动完成或超时".
Definition MSG_RESUME_FAILED (e : string) : string := "放行失败: " +:+ e.
Definition MSG_HANDLE_FAILED (e : string) : string := "处理失败: " +:+ e.
Definition MSG_REPLAY_DEFAULT : string := "重放请求超时或失败".
Definition MSG_REPLAY_TIMEOUT : string := "重放请求超时".
Definition MSG_REPLAY_INJECT : string := "重放失败: 无法注入脚本".
Definition MSG_REPLAY_FAILED (e : string) : string := "重放请求失败: " +:+ e.
Definition MSG_UNKNOWN : string := "未知错误".

Definition executeScript (tab : N) (injection : Injection) : Prog unit :=
  await (ExecuteScript tab injection).
Definition queryActiveTab : Prog (list (option N)) :=
  await QueryActiveTab.

(** [parseRawRequest(rawRequest)] when [rawRequest] may be [undefined]. *)
Definition parse_js (rawRequest : option string) : Prog RawRequest.Parsed :=
  match rawRequest with
  | Some r => Ret (RawRequest.parseRawRequest r)
  | None => Throw "Cannot read properties of undefined (reading 'replace')"
  end.

Definition finish_row (i : nat) (text : option string) : Prog unit :=
  update_row i (set_status finished) >>
  match text with
  | Some t => update_row i (set_rawResponse (Some t)) >> broadcastRequestsUpdate
  | None => broadcastRequestsUpdate
  end.

Definition resume_request (requestData : Transaction)
    (rawRequest : option string) (headers : option (list Header)) : Prog bool :=
  let* s := get in
  if decide (id requestData ∈ pendingActions s) then Ret true else
  pending_add (id requestData) >>
  let requestIndex := findIndex (id requestData) (requestsStore s) in
  try_finally
    (try_catch
       (match requestIndex with
        | Some i =>
            if negb (nonempty (requestId requestData)) then Throw MSG_INVALID else
            try_catch
              (let* hs :=
                 match headers with
                 | Some hs => Ret hs
                 | None =>
                     let* parsed := parse_js rawRequest in
                     Ret (RawRequest.headers parsed)
                 end in
               await (ContinueRequest (tabId requestData) (requestId requestData)
                        (Some hs) None) >>
               finish_row i None)
              (fun errorStr =>
                 if includes "Invalid InterceptionId" errorStr
                    || includes "-32602" errorStr
                 then finish_row i (Some MSG_AUTO_DONE)
                 else finish_row i (Some (MSG_RESUME_FAILED errorStr)))
        | None => Throw MSG_INVALID
        end)
       (fun message =>
          match requestIndex with
          | Some i => finish_row i (Some (MSG_HANDLE_FAILED message))
          | None => Ret tt
          end))
    (pending_delete (id requestData)) >>
  Ret true.

(** [cleanupReplayState], with the variables it closes over. *)
Definition cleanupReplayState (replayId replayRequestId originalId : string)
    (updateUI : bool) (response : option string) : Prog unit :=
  let* s := get in
  match replayDataStore s !! replayId with
  | Some data =>
      clearTimeout (ReplayData.timeoutId data) >>
      replay_delete replayId >>
      if updateUI then
        let* s' := get in
        match findIndex replayRequestId (requestsStore s') with
        | Some requestIndex =>
            update_row requestIndex
              (set_rawResponse
                 (if truthy response then response else Some MSG_REPLAY_DEFAULT)) >>
            broadcastRequestsUpdate
        | None => Ret tt
        end
      else Ret tt
  | None => Ret tt
  end >>
  pending_delete originalId.

(** The callback of the replay deadline, run by the host when the
    timeout [t] is still armed. *)
Definition onTimeout (t : N) : Prog unit :=
  let* s := get in
  match timers s !! t with
  | Some d =>
      put (with_timers (delete t (timers s)) (nextTimer s) s) >>
      cleanupReplayState (Deadline.replayId d) (Deadline.replayRequestId d)
        (Deadline.originalId d) true (Some MSG_REPLAY_TIMEOUT)
  | None => Ret tt
  end.

Definition replay_request (h : Host) (requestData : Transaction)
    (rawRequest : option string) (headers : option (list Header)) : Prog bool :=
  let* s := get in
  if decide (id requestData ∈ pendingActions s) then Ret true else
  pending_add (id requestData) >>
  let replayId := pretty (now_token h) +:+ "-" +:+ random h in
  let* parsed := parse_js rawRequest in
  let url := RawRequest.url parsed in
  let method := RawRequest.method parsed in
  let postData := RawRequest.postData parsed in
  let requestHeaders := default [] headers in
  let replayRequestId := "replay-" +:+ pretty (now_row h) in
  let replayRequest :=
    mkTx replayRequestId (tabId requestData)
         ("replay-" +:+ requestId requestData)
         (RequestInfo.mk url method (headersArrayToObject requestHeaders) None)
         (default "" rawRequest) None finished false requestHeaders None in
  push_row replayRequest >>
  let* timeoutId := setTimeout (Deadline.mk replayId replayRequestId (id requestData)) in
  replay_set replayId
    (ReplayData.mk (id requestData) replayRequestId requestHeaders postData timeoutId) >>
  let injection := mkInjection url method replayId postData requestHeaders in
  broadcastRequestsUpdate >>
  spawn
    (try_catch
       (executeScript (tabId requestData) injection)
       (fun _ =>
          try_catch
            (let* tabs := queryActiveTab in
             match tabs with
             | Some (Npos a) :: _ => executeScript (Npos a) injection
             | _ => Throw "No active tab found to initiate replay."
             end)
            (fun _ =>
               cleanupReplayState replayId replayRequestId (id requestData)
                 true (Some MSG_REPLAY_INJECT)))) >>
  Ret true.

(** [replay-fetch-success] and [replay-fetch-failed] differ only in the
    text written on the synthetic row. *)
Definition replay_signal (replayId : option string) (text : option string)
    : Prog unit :=
  let* s := get in
  match live_replay s replayId with
  | Some (rid, data) =>
      match findIndex (ReplayData.replayId data) (requestsStore s) with
      | Some requestIndex =>
          update_row requestIndex (set_rawResponse text) >>
          broadcastRequestsUpdate
      | None => Ret tt
      end >>
      clearTimeout (ReplayData.timeoutId data) >>
      replay_delete rid >>
      pending_delete (ReplayData.originalId data)
  | None => Ret tt
  end.

Definition clear_requests : Prog unit :=
  modify (with_requestsStore []) >> broadcastRequestsUpdate.

Definition set_mode (m : Mode) : Prog unit :=
  modify (with_mode m) >>
  let* s := get in emit (UpdateBadge (isEnabled s) (mode s)).

Definition onMessage (h : Host) (message : Message.t) : Prog bool :=
  let action := Message.action message in
  if String.eqb action "get-initial-requests" then
    broadcastRequestsUpdate >> Ret true
  else
  match (if String.eqb action "resume-request" then Message.requestData message
         else None) with
  | Some requestData =>
      resume_request requestData (Message.rawRequest message) (Message.headers message)
  | None =>
  match (if String.eqb action "replay-request" then Message.requestData message
         else None) with
  | Some requestData =>
      replay_request h requestData (Message.rawRequest message) (Message.headers message)
  | None =>
  if String.eqb action "replay-fetch-success" then
    replay_signal (Message.replayId message) (Message.response message) >> Ret true
  else if String.eqb action "replay-fetch-failed" then
    replay_signal (Message.replayId message)
      (Some (MSG_REPLAY_FAILED
               (if truthy (Message.error message)
                then default "" (Message.error message)
                else MSG_UNKNOWN))) >>
    Ret true
  else if String.eqb action "clear-requests" then
    clear_requests >> Ret true
  else if String.eqb action "set-mode" then
    set_mode (Message.mode message) >> Ret true
  else Ret true
  end
  end.

End Background.

(** ** What the handlers are expected to produce

    The pipeline's answers under an environment, the shape of traces,
    and the states the replay paths lead to. These definitions state
    the claims; none of them is used by the model above. *)
Module Expected.
Import Js Async Background.

Definition env_content (env : Env) (c : string) (sc : RegexScope) (u r : string) : string :=
  match env (ProcessContent c sc u r) with
  | Resolved x => x
  | Rejected _ => c
  end.

Definition env_headers (env : Env) (sc : RegexScope) (hs : list Header) (u r : string)
    : list Header :=
  map (fun h => mkHeader (RawRequest.name h)
                 (env_content env (RawRequest.value h) sc u r)) hs.

Definition header_calls (sc : RegexScope) (hs : list Header) (u r : string)
    : list (Obs Effect Call) :=
  map (fun h => OCall (ProcessContent (RawRequest.value h) sc u r)) hs.

Definition entries_headers (entries : list (string * string)) : list Header :=
  map (fun kv => mkHeader kv.1 kv.2) entries.

Definition is_proxy_call (o : Obs Effect Call) : bool :=
  match o with
  | OCall LoadProxySettings | OCall LoadProxyState | OCall (SetChromeProxy _) => true
  | _ => false
  end.

Definition pipeline_calls (params : Params.t) : list (Obs Effect Call) :=
  let req := Params.request params in
  let rid := Params.requestId params in
  let u := PausedRequest.url req in
  OCall (ProcessContent u REQUEST_URL u rid)
  :: header_calls REQUEST_HEADERS (entries_headers (PausedRequest.headers req)) u rid
  ++ match PausedRequest.postData req with
     | Some (String c b) => [OCall (ProcessContent (String c b) REQUEST_BODY u rid)]
     | _ => []
     end.

Definition row_with (m : Mode) (uid : string) (tab : N) (params : Params.t)
    (raw : string) (hs : list Header) : Transaction :=
  mkTx uid tab (Params.requestId params)
    (RequestInfo.of_paused (Params.request params)) raw None
    (match m with proxy => finished | intercept => paused end)
    (Params.redirectResponse params) hs None.

Definition after_insert (env : Env) (s : State) (tab : N) (rid : string)
    (row : Transaction) : State * list (Obs Effect Call) :=
  match mode s with
  | intercept => (with_requestsStore (requestsStore s ++ [row]) s, [])
  | proxy =>
      match env (ContinueRequest tab rid None None) with
      | Resolved _ =>
          (with_requestsStore (requestsStore s ++ [row]) s,
           [OCall (ContinueRequest tab rid None None)])
      | Rejected msg =>
          let row' := set_rawResponse (Some (continue_failed_text msg))
                        (set_status finished row) in
          (with_requestsStore (requestsStore s ++ [row']) s,
           [OCall (ContinueRequest tab rid None None);
            OEff (Broadcast (requestsStore s ++ [row']))])
      end
  end.

Definition processed_headers (env : Env) (params : Params.t) : list Header :=
  let req := Params.request params in
  env_headers env REQUEST_HEADERS (entries_headers (PausedRequest.headers req))
    (PausedRequest.url req) (Params.requestId params).

Definition processed_url (env : Env) (params : Params.t) : string :=
  let u := PausedRequest.url (Params.request params) in
  env_content env u REQUEST_URL u (Params.requestId params).

Definition processed_body (env : Env) (params : Params.t) : option string :=
  let req := Params.request params in
  match PausedRequest.postData req with
  | Some (String c b) =>
      Some (env_content env (String c b) REQUEST_BODY
              (PausedRequest.url req) (Params.requestId params))
  | _ => None
  end.

Definition row_of (env : Env) (m : Mode) (uid : string) (tab : N) (params : Params.t)
    : Transaction :=
  row_with m uid tab params
    (RawRequest.assembleRawRequest
       (PausedRequest.method (Params.request params))
       (processed_url env params) (processed_headers env params)
       (processed_body env params))
    (processed_headers env params).

Definition is_continue (o : Obs Effect Call) : bool :=
  match o with
  | OCall (ContinueRequest _ _ _ _) => true
  | _ => false
  end.

Definition is_broadcast (o : Obs Effect Call) : bool :=
  match o with
  | OEff (Broadcast _) => true
  | _ => false
  end.

(** How many low-level resume commands a trace holds. *)
Definition continues (t : list (Obs Effect Call)) : nat :=
  length (List.filter is_continue t).

Definition broadcasts (t : list (Obs Effect Call)) : nat :=
  length (List.filter is_broadcast t).

(** Retrieving or decoding the body fails with message [msg]. *)
Definition body_fails (h : Host) (env : Env) (tab : N) (rid : string)
    (rh : list Header) (msg : string) : Prop :=
  env (GetResponseBody tab rid) = Rejected msg \/
  exists rb, env (GetResponseBody tab rid) = Resolved rb
             /\ nonempty (body rb) = true
             /\ decodeBody h rh rb = Rejected msg.

Definition body_error_text (msg : string) : string :=
  "Error getting response body: " +:+ msg.

Definition with_response_done (uid rid : string) (ledger : list Transaction)
    (s : State) : State :=
  with_replayIdToOriginalIdMap (delete rid (replayIdToOriginalIdMap s))
    (with_pendingActions (pendingActions s ∖ {[uid]})
       (with_requestsStore ledger s)).

(** When the proxy check applies to a pause event. *)
Definition proxy_check_applies (s : State) (params : Params.t) : bool :=
  let req := Params.request params in
  negb (isWhitelisted s (PausedRequest.url req))
  && negb (bool_decide (is_Some
       (live_replay s (obj_get "X-Replay-Id" (PausedRequest.headers req)))))
  && negb (bool_decide (is_Some (Params.responseHeaders params)))
  && negb (Params.redirectResponse params).

(** The deadline armed for the correlation [d] of token [rid]. *)
Definition deadline_of (rid : string) (d : ReplayData.t) : Deadline.t :=
  Deadline.mk rid (ReplayData.replayId d) (ReplayData.originalId d).

(** A direct signal is one of the two messages of the injected fetch,
    carrying the token. *)
Definition is_signal (m : Message.t) (rid : string) : Prop :=
  (Message.action m = "replay-fetch-success"
   \/ Message.action m = "replay-fetch-failed")
  /\ Message.replayId m = Some rid.

(** The state once the correlation [d] of token [rid] is resolved:
    its timer is cancelled, it leaves the live map and the pending
    entry of the replayed row is cleared. *)
Definition resolved (rid : string) (d : ReplayData.t) (s : State) : State :=
  with_pendingActions (pendingActions s ∖ {[ReplayData.originalId d]})
    (with_replayDataStore (delete rid (replayDataStore s))
       (with_timers (delete (ReplayData.timeoutId d) (timers s)) (nextTimer s) s)).

(** The state once the pause event [requestId] of the replay is
    matched: timer cancelled, correlation removed, the new low-level
    id mapped to the replayed row, and that row marked pending. *)
Definition matched (rid requestId : string) (d : ReplayData.t) (s : State) : State :=
  with_pendingActions ({[ReplayData.originalId d]} ∪ pendingActions s)
    (with_replayIdToOriginalIdMap
       (<[requestId := ReplayData.originalId d]> (replayIdToOriginalIdMap s))
       (with_replayDataStore (delete rid (replayDataStore s))
          (with_timers (delete (ReplayData.timeoutId d) (timers s))
             (nextTimer s) s))).

Definition replay_command (tab : N) (requestId : string) (d : ReplayData.t) : Call :=
  ContinueRequest tab requestId (Some (ReplayData.headers d))
    (match ReplayData.postData d with
     | Some (String c b) => Some (Base64Utf8 (String c b))
     | _ => None
     end).

(** The pause event carries the token [rid]. *)
Definition carries (params : Params.t) (rid : string) : Prop :=
  obj_get "X-Replay-Id" (PausedRequest.headers (Params.request params)) = Some rid.

(** The text a direct signal writes on the synthetic row. *)
Definition signal_text (m : Message.t) : option string :=
  if String.eqb (Message.action m) "replay-fetch-success"
  then Message.response m
  else Some (MSG_REPLAY_FAILED
               (if truthy (Message.error m)
                then default "" (Message.error m)
                else MSG_UNKNOWN)).



End Expected.

(** ** Concrete environments, states and events *)
Module Examples.
Import Js Async Background Expected.

(** Concrete inputs. *)
Definition env_ok : Env :=
  fun c =>
    match c return Outcome (ret c) with
    | ContinueRequest _ _ _ _ => Resolved tt
    | GetResponseBody _ _ => Resolved (mkResponseBody "ok" false)
    | ProcessContent content _ _ _ => Resolved content
    | LoadProxySettings => Resolved None
    | LoadProxyState => Resolved None
    | SetChromeProxy _ => Resolved tt
    | ExecuteScript _ _ => Resolved tt
    | QueryActiveTab => Resolved []
    end.

Definition env_no_body : Env :=
  fun c =>
    match c return Outcome (ret c) with
    | GetResponseBody _ _ => Rejected "No resource with given identifier"
    | c' => env_ok c'
    end.

Definition host0 : Host :=
  mkHost 1000 1001 "0.5" (fun _ rb => Resolved (body rb)) (fun _ => None).

Definition s_empty : State :=
  mkState true intercept [] ∅ ∅ ∅ [] ∅ 0.

Definition get_a : PausedRequest.t :=
  PausedRequest.mk "http://a/" "GET" [("Accept", "*/*")] None.

Definition ev_request (rid : string) (net : option string) : Params.t :=
  Params.mk rid get_a None None net false.

Definition ev_response (rid : string) (net : option string) : Params.t :=
  Params.mk rid get_a (Some 200%N) (Some [mkHeader "Server" "x"]) net false.

Definition row_a : Transaction :=
  mkTx "N1" 1 "I1" (RequestInfo.of_paused get_a)
    "GET http://a/ HTTP/1.1" None paused false [mkHeader "Accept" "*/*"] None.

Definition s_one : State :=
  mkState true intercept [row_a] ∅ ∅ ∅ [] ∅ 0.

Definition msg (action : string) : Message.t :=
  Message.mk action None None None None None None intercept.

Definition msg_resume (rd : Transaction) (hs : option (list Header)) : Message.t :=
  Message.mk "resume-request" (Some rd) (Some (rawRequest rd)) hs None None None intercept.

Definition msg_replay (rd : Transaction) (raw : string) (hs : option (list Header))
    : Message.t :=
  Message.mk "replay-request" (Some rd) (Some raw) hs None None None intercept.

Definition msg_success (rid response : string) : Message.t :=
  Message.mk "replay-fetch-success" None None None (Some rid) (Some response) None intercept.

Definition msg_failed (rid error : string) : Message.t :=
  Message.mk "replay-fetch-failed" None None None (Some rid) None (Some error) intercept.

Definition raw_a : string := "GET http://a/ HTTP/1.1".

(** The state once the replay of row N1 has been requested. *)
Definition s_replaying : State :=
  r_state (run (onMessage host0 (msg_replay row_a raw_a None)) s_one).

Definition token_a : string := "1000-0.5".
Definition replay_a : ReplayData.t := ReplayData.mk "N1" "replay-1001" [] None 0.

Definition ev_replayed (q : string) : Params.t :=
  Params.mk q
    (PausedRequest.mk "http://a/" "GET"
       [("X-Replay-Id", token_a); ("Accept", "*/*")] None)
    None None (Some "N7") false.


(** The replay of N1 once its deadline has fired. *)
Definition s_timed_out : State :=
  r_state (run (onTimeout 0) s_replaying).



End Examples.

(** ** A logic of suspension points

    A task runs one segment at a time: from the state [s0] in which
    it is started or resumed until it returns, throws or awaits.
    [G s0 s] is what a segment started in [s0] guarantees about the
    state [s] in which it stops; [Res s] is what is known of the state
    in which a suspended task is resumed.

    [wp p Q F W b s0 s]: in state [s] of a segment started in [s0],
    the task [p] leaves the state in [Q] when it returns and in [F]
    when it throws; every segment that stops at an [await] meets the
    guarantee, and the task is resumed in any state of [Res], with any
    outcome. The flag [b] tells whether the task has been suspended
    since it was started: until its first suspension a detached task
    runs inside the segment of the task that started it, and [W] is
    what its first [await] must establish. *)
Module Logic.
Import Async.

Section WP.
Context {S E C : Type} {ret : C -> Type}.
Variable Res : S -> Prop.
Variable G : S -> S -> Prop.

Fixpoint wp {A : Type} (p : Prog S E C ret A)
    (Q : bool -> A -> S -> S -> Prop) (F : bool -> string -> S -> S -> Prop)
    (W : S -> S -> Prop) (b : bool) (s0 s : S) : Prop :=
  match p with
  | Ret a => Q b a s0 s
  | Throw m => F b m s0 s
  | Get k => wp (k s) Q F W b s0 s
  | Put s' k => wp k Q F W b s0 s'
  | Emit _ k => wp k Q F W b s0 s
  | Await c k =>
      (if b then G s0 s else W s0 s) /\
      forall o s', Res s' -> wp (k o) Q F W true s' s'
  | Spawn p k =>
      let K := fun s0' s1 => wp k Q F W b s0' s1 in
      wp p (fun b' _ s0' s1 => if b' then G s0' s1 else K s0' s1)
           (fun b' _ s0' s1 => if b' then G s0' s1 else K s0' s1) K false s0 s
  end.

(** A task all of whose segments meet the guarantee. *)
Definition preserves {A : Type} (p : Prog S E C ret A) : Prop :=
  forall b s0 s, G s0 s -> wp p (fun _ _ => G) (fun _ _ => G) G b s0 s.

(** A suspended task all of whose segments meet the guarantee. *)
Definition resumable {A : Type} {c : C} (k : Outcome (ret c) -> Prog S E C ret A) : Prop :=
  forall o s, Res s -> wp (k o) (fun _ _ => G) (fun _ _ => G) G true s s.

End WP.
End Logic.

(** ** The event loop

    The handlers of debugger events, of messages and of the replay
    deadline run one segment at a time:
    a handler runs until it returns, throws or awaits; a suspended
    task is resumed later, in whatever state the handlers that ran in
    between have left, with whatever outcome its promise settles. *)
Module EventLoop.
Import Async Background.

Record Task := mkTask {
  t_ret : Set;
  t_call : Call;
  t_k : Outcome (ret t_call) -> Prog t_ret
}.

(** The tasks a segment leaves suspended: the detached tasks it
    started and, when it stopped at an [await], the handler itself. *)
Definition suspended {A : Set} (r : Run A) : list Task :=
  map (fun d => mkTask unit (d_call d) (d_k d)) (r_pool r) ++
  match r_status r with
  | Pending c k => [mkTask A c k]
  | _ => []
  end.

Record System := mkSystem {
  state : State;
  tasks : list Task
}.

Inductive Label :=
| LEvent (h : Host) (source_tabId : option N) (method : string) (params : Params.t)
| LMessage (h : Host) (message : Message.t)
| LTimeout (t : N)
| LResume (c : Call) (o : Outcome (ret c)).

Inductive step : System -> Label -> System -> Prop :=
| step_event h src method params s ts :
    step (mkSystem s ts) (LEvent h src method params)
      (mkSystem (r_state (run (onEvent h src method params) s))
                (ts ++ suspended (run (onEvent h src method params) s)))
| step_message h m s ts :
    step (mkSystem s ts) (LMessage h m)
      (mkSystem (r_state (run (onMessage h m) s))
                (ts ++ suspended (run (onMessage h m) s)))
| step_timeout t s ts :
    step (mkSystem s ts) (LTimeout t)
      (mkSystem (r_state (run (onTimeout t) s))
                (ts ++ suspended (run (onTimeout t) s)))
| step_resume (A : Set) c (k : Outcome (ret c) -> Prog A) o s ts1 ts2 :
    step (mkSystem s (ts1 ++ mkTask A c k :: ts2)) (LResume c o)
      (mkSystem (r_state (run (k o) s))
                (ts1 ++ ts2 ++ suspended (run (k o) s))).

(** The systems reached from state [s0] with no task suspended. *)
Inductive reachable (s0 : State) : System -> Prop :=
| reach_start : reachable s0 (mkSystem s0 [])
| reach_step sys l sys' :
    reachable s0 sys -> step sys l sys' -> reachable s0 sys'.

Definition is_clear (l : Label) : Prop :=
  exists h m, l = LMessage h m /\ Message.action m = "clear-requests".

(** Every suspended task meets the guarantee [G] in all its segments
    when it is resumed in states of [Res]. *)
Definition tasks_ok (Res : State -> Prop) (G : State -> State -> Prop)
    (ts : list Task) : Prop :=
  Forall (fun t => Logic.resumable Res G (t_k t)) ts.

End EventLoop.

(** ** Invariants of the ledger and of the replay deadlines *)
Module Invariants.
Import Async Background Expected.

(** What stays of a row once it is in the ledger: everything but the
    low-level request id, the response and its headers; a finished
    row stays finished. *)
Definition keeps (r r' : Transaction) : Prop :=
  id r' = id r /\ tabId r' = tabId r /\ request r' = request r
  /\ rawRequest r' = rawRequest r /\ isRedirect r' = isRedirect r
  /\ requestHeaders r' = requestHeaders r
  /\ (status r = finished -> status r' = finished).

(** The ledger [l'] holds the rows of [l], in the same order, followed
    by new rows. *)
Definition extends (l l' : list Transaction) : Prop :=
  exists l1 l2, l' = l1 ++ l2 /\ Forall2 keeps l l1.

(** Every live correlation has its deadline armed, and the timeout
    ids in use are below the next one. *)
Definition armed (s : State) : Prop :=
  (forall rid d, replayDataStore s !! rid = Some d ->
     timers s !! ReplayData.timeoutId d = Some (deadline_of rid d))
  /\ (forall t dl, timers s !! t = Some dl -> (t < nextTimer s)%N).

(** The setters the handlers apply to a row of the ledger. *)
Inductive keeping : (Transaction -> Transaction) -> Prop :=
| keeping_requestId v : keeping (set_requestId v)
| keeping_rawResponse v : keeping (set_rawResponse v)
| keeping_finished : keeping (set_status finished)
| keeping_responseHeaders v : keeping (set_responseHeaders v).

(** The ledger of [s] holds the rows of the ledger of [s0] and only
    adds to them. *)
Definition grows (s0 s : State) : Prop :=
  extends (requestsStore s0) (requestsStore s).

(** [armed] as a guarantee of a segment: it speaks of the state the
    segment leaves only. *)
Definition armed_in (s0 s : State) : Prop := armed s.

End Invariants.

(** ** Vocabulary of the statements about the parser *)
Module ParserShapes.
Import RawRequest.

(** What the loop of [parseRawRequest] keeps true of its state. *)
Definition loop_safe (st : LoopState) : Prop :=
  Forall (fun h => header_safe h = true) (acc_headers st)
  /\ body_safe (body st) = true.

End ParserShapes.

(** ** [getCharset]: the charset of a response, from its headers *)
Module Charset.
Import Js Background.

(** ASCII text: every character is below 128. [trim] and
    [toLowerCase] are modelled on ASCII text, and the statements about
    [getCharset] and [headersArrayToObject] are about ASCII headers. *)
Fixpoint ascii_text (s : string) : bool :=
  match s with
  | "" => true
  | String c s' => (Ascii.nat_of_ascii c <? 128)%nat && ascii_text s'
  end.

Definition ascii_names (hs : list Header) : Prop :=
  Forall (fun h => ascii_text (RawRequest.name h) = true) hs.

Definition ascii_headers (hs : list Header) : Prop :=
  Forall (fun h => ascii_text (RawRequest.name h) = true
                   /\ ascii_text (RawRequest.value h) = true) hs.

(** The white space of [String.prototype.trim] among the ASCII
    characters: TAB, LF, VT, FF, CR and the blank. *)
Definition is_space (c : ascii) : bool :=
  let n := Ascii.nat_of_ascii c in
  ((9 <=? n)%nat && (n <=? 13)%nat) || (n =? 32)%nat.

Fixpoint trimStart (s : string) : string :=
  match s with
  | "" => ""
  | String c s' => if is_space c then trimStart s' else s
  end.

Fixpoint trimEnd (s : string) : string :=
  match s with
  | "" => ""
  | String c s' =>
      match trimEnd s' with
      | "" => if is_space c then "" else String c ""
      | t => String c t
      end
  end.

(** [s.trim()], on ASCII text. *)
Definition trim (s : string) : string := trimEnd (trimStart s).

(** What [[^;]+] takes at the start of [s]: the longest run without a
    semicolon. *)
Fixpoint upto_semicolon (s : string) : string :=
  match s with
  | "" => ""
  | String c s' => if Ascii.eqb c ";" then "" else String c (upto_semicolon s')
  end.

(** [s] without its first [n] characters. *)
Fixpoint skip (n : nat) (s : string) : string :=
  match n, s with
  | O, _ => s
  | S n', String _ s' => skip n' s'
  | S _, "" => ""
  end.

(** [s.match(/charset=([^;]+)/)]: the group of the leftmost match, if
    there is a match. *)
Fixpoint match_charset (s : string) : option string :=
  match (if String.prefix "charset=" s
         then match upto_semicolon (skip 8 s) with
              | "" => None
              | g => Some g
              end
         else None) with
  | Some g => Some g
  | None =>
      match s with
      | "" => None
      | String _ s' => match_charset s'
      end
  end.

Definition getCharset (headers : list Header) : string :=
  match List.find
          (fun h => String.eqb (toLowerCase (RawRequest.name h)) "content-type")
          headers with
  | Some contentType =>
      match match_charset (RawRequest.value contentType) with
      | Some g => trim g
      | None => "utf-8"
      end
  | None => "utf-8"
  end.

End Charset.

(** ** Vocabulary of the statements about headers and bypass rules *)
Module Shapes.
Import Js Background.

(** The header [h] is stored under the key [k]: under its name as
    given, and under its name in lower case. *)
Definition stored_under (k : string) (h : Header) : bool :=
  String.eqb (RawRequest.name h) k || String.eqb (toLowerCase (RawRequest.name h)) k.

(** The bypass rule [rule] covers the host [hn]: it is the host, or it
    is a wildcard for a domain of which the host is a subdomain. *)
Definition covers (rule hn : string) : Prop :=
  rule = hn \/ exists d sub, rule = "*." +:+ d /\ hn = sub +:+ "." +:+ d.

(** Whether the system proxy has to be set again: the stored state and
    the settings disagree, and the request is not bypassed. *)
Definition must_reconcile (h : Host) (url : string)
    (settings : ProxySettings) (state : ProxyState) : bool :=
  if enabled settings
  then negb (shouldBypassProxy h url (bypassList settings))
       && negb (isOurProxyActive state)
  else isOurProxyActive state.

Definition settings_of (env : Env) : ProxySettings :=
  match env LoadProxySettings with
  | Async.Resolved (Some st) => st
  | _ => DEFAULT_PROXY_SETTINGS
  end.

Definition state_of (env : Env) : ProxyState :=
  match env LoadProxyState with
  | Async.Resolved (Some st) => st
  | _ => DEFAULT_PROXY_STATE
  end.

(** The headers a resume command sends: those of the message, or else
    those parsed from its raw request text. *)
Definition resume_headers (rawRequest : option string) (headers : option (list Header))
    : option (list Header) :=
  match headers with
  | Some hs => Some hs
  | None => (fun r => RawRequest.headers (RawRequest.parseRawRequest r)) <$> rawRequest
  end.

(** What is written on a row whose resume command failed. *)
Definition resume_failure_text (e : string) : string :=
  if includes "Invalid InterceptionId" e || includes "-32602" e
  then MSG_AUTO_DONE
  else MSG_RESUME_FAILED e.

(** The row a settled resume command leaves: finished, and on
    failure with the reason as its response. *)
Definition settled_row (o : Async.Outcome unit) (row : Transaction) : Transaction :=
  match o with
  | Async.Resolved _ => set_status finished row
  | Async.Rejected e =>
      set_rawResponse (Some (resume_failure_text e)) (set_status finished row)
  end.

(** The row a resume command leaves when the request it names can no
    longer be resumed. *)
Definition stale_row (row : Transaction) : Transaction :=
  set_rawResponse (Some (MSG_HANDLE_FAILED MSG_INVALID)) (set_status finished row).

(** The token, the synthetic row, the correlation and the injected
    fetch of a replay command. *)
Definition replay_token (h : Host) : string :=
  pretty (now_token h) +:+ "-" +:+ random h.

Definition replay_row_id (h : Host) : string :=
  "replay-" +:+ pretty (now_row h).

Definition replay_row (h : Host) (rd : Transaction) (raw : string)
    (hs : option (list Header)) : Transaction :=
  let parsed := RawRequest.parseRawRequest raw in
  mkTx (replay_row_id h) (tabId rd) ("replay-" +:+ requestId rd)
    (RequestInfo.mk (RawRequest.url parsed) (RawRequest.method parsed)
       (headersArrayToObject (default [] hs)) None)
    raw None finished false (default [] hs) None.

Definition replay_data (h : Host) (rd : Transaction) (raw : string)
    (hs : option (list Header)) (timeoutId : N) : ReplayData.t :=
  ReplayData.mk (id rd) (replay_row_id h) (default [] hs)
    (RawRequest.postData (RawRequest.parseRawRequest raw)) timeoutId.

Definition replay_injection (h : Host) (raw : string) (hs : option (list Header))
    : Injection :=
  let parsed := RawRequest.parseRawRequest raw in
  mkInjection (RawRequest.url parsed) (RawRequest.method parsed) (replay_token h)
    (RawRequest.postData parsed) (default [] hs).

(** The tab the injection falls back to: the first active tab of the
    current window, when the query resolves to one with an id. *)
Definition fallback_tab (env : Env) : option N :=
  match env QueryActiveTab with
  | Async.Resolved (Some (Npos a) :: _) => Some (Npos a)
  | _ => None
  end.

(** The injection succeeds in the tab it falls back to. *)
Definition fallback_succeeds (env : Env) (inj : Injection) : bool :=
  match fallback_tab env with
  | Some a =>
      match env (ExecuteScript a inj) with
      | Async.Resolved _ => true
      | Async.Rejected _ => false
      end
  | None => false
  end.

End Shapes.

(** ** [webRequest.onBeforeSendHeaders]: the request headers of a
    paused row *)
Module WebRequest.
Import Js Async Async.Notations Background.

(** The [details] of the event. [tabId] is -1 when the request
    belongs to no tab; a header may come without a text value. *)
Record Details := mkDetails {
  url : string;
  tabId : Z;
  requestHeaders : option (list (string * option string))
}.

Definition set_requestHeaders (v : list Header) (r : Transaction) : Transaction :=
  mkTx (id r) (Background.tabId r) (requestId r) (request r) (rawRequest r)
       (rawResponse r) (status r) (isRedirect r) v (responseHeaders r).

(** [{ name: h.name, value: h.value?.toString() || '' }]. *)
Definition formattedHeaders (hs : list (string * option string)) : list Header :=
  map (fun h => mkHeader h.1 (default "" h.2)) hs.

(** The row the listener looks for: same URL, paused, same tab. *)
Definition waiting (details : Details) (r : Transaction) : bool :=
  bool_decide (RequestInfo.url (request r) = Some (url details))
  && bool_decide (status r = paused)
  && bool_decide (Z.of_N (Background.tabId r) = tabId details).

Definition findWaiting (details : Details) (l : list Transaction) : option nat :=
  fst <$> list_find (fun r => waiting details r = true) l.

(** The listener returns the headers it was given. *)
Definition onBeforeSendHeaders (details : Details)
    : Prog (option (list (string * option string))) :=
  let* s := get in
  match findWaiting details (requestsStore s), requestHeaders details with
  | Some requestIndex, Some hs =>
      update_row requestIndex (set_requestHeaders (formattedHeaders hs)) >>
      broadcastRequestsUpdate
  | _, _ => Ret tt
  end >>
  Ret (requestHeaders details).

End WebRequest.

(** ** The life cycle of the script: debugger attachment, start-up
    and the storage listener *)
Module Lifecycle.
Import Js Async Async.Notations Background.

(** The variables of the script: those of [Background.State], and the
    map of the tabs the debugger is attached to. *)
Record Script := mkScript {
  core : State;
  attachedTabs : gmap N string
}.

Definition with_core (v : State) (s : Script) : Script :=
  mkScript v (attachedTabs s).
Definition with_attachedTabs (v : gmap N string) (s : Script) : Script :=
  mkScript (core s) v.

Definition with_isEnabled (v : bool) (s : State) : State :=
  mkState v (mode s) (requestsStore s) (pendingActions s)
          (replayDataStore s) (replayIdToOriginalIdMap s) (apiWhitelist s)
          (timers s) (nextTimer s).
Definition with_apiWhitelist (v : list string) (s : State) : State :=
  mkState (isEnabled s) (mode s) (requestsStore s) (pendingActions s)
          (replayDataStore s) (replayIdToOriginalIdMap s) v
          (timers s) (nextTimer s).

Definition version : string := "1.3".

(** Synchronous effects: those of the core, and the notification
    raised when another debugger holds the tab. *)
Inductive Effect :=
| Core (e : Background.Effect)
| Notify (tab : N).

(** What [storage.local.get] returns at start-up. *)
Record Startup := mkStartup {
  networkInterceptorEnabled : bool;
  networkInterceptorMode : option Mode;
  aiApiEndpoint : option string
}.

Inductive Call :=
| DebuggerAttach (tab : N)
| FetchEnable (tab : N)
| DebuggerDetach (tab : N)
| TabsQuery
| StorageGetStartup
| ForceClearChromeProxy.

Definition ret (c : Call) : Type :=
  match c with
  | DebuggerAttach _ => unit
  | FetchEnable _ => unit
  | DebuggerDetach _ => unit
  | TabsQuery => list (option N)
  | StorageGetStartup => Startup
  | ForceClearChromeProxy => unit
  end.

Abbreviation Prog := (Async.Prog Script Effect Call ret).
Abbreviation Run := (Async.Run Script Effect Call ret).
Abbreviation Env := (forall c : Call, Outcome (ret c)).

(** [new URL(u).origin]; [None] when the constructor throws. *)
Record Host := mkHost {
  origin : string -> option string
}.

Definition modify_core (f : State -> State) : Prog unit :=
  modify (fun s => with_core (f (core s)) s).

Definition updateBadge : Prog unit :=
  let* s := get in
  emit (Core (UpdateBadge (isEnabled (core s)) (mode (core s)))).

Definition broadcastRequestsUpdate : Prog unit :=
  let* s := get in emit (Core (Broadcast (requestsStore (core s)))).

Definition attached (tabId : N) (s : Script) : bool :=
  bool_decide (is_Some (attachedTabs s !! tabId)).

Definition attachDebugger (tabId : N) : Prog unit :=
  let* s := get in
  if attached tabId s then Ret tt else
  try_catch
    (await (DebuggerAttach tabId) >>
     modify (fun s => with_attachedTabs (<[tabId := version]> (attachedTabs s)) s) >>
     await (FetchEnable tabId))
    (fun message =>
       modify (fun s => with_attachedTabs (delete tabId (attachedTabs s)) s) >>
       if includes "another debugger" message then emit (Notify tabId) else Ret tt).

Definition detachDebugger (tabId : N) : Prog unit :=
  let* s := get in
  if negb (attached tabId s) then Ret tt else
  try_finally
    (try_catch (await (DebuggerDetach tabId)) (fun _ => Ret tt))
    (modify (fun s => with_attachedTabs (delete tabId (attachedTabs s)) s)).

(** [for (const tab of tabs) if (tab.id) await f(tab.id)]. *)
Fixpoint for_tabs (f : N -> Prog unit) (tabs : list (option N)) : Prog unit :=
  match tabs with
  | [] => Ret tt
  | Some (Npos t) :: rest => f (Npos t) >> for_tabs f rest
  | _ :: rest => for_tabs f rest
  end.

Definition toggleAllTabs (shouldEnable : bool) : Prog unit :=
  modify_core (with_isEnabled shouldEnable) >>
  updateBadge >>
  let* tabs := await TabsQuery in
  for_tabs (if shouldEnable then attachDebugger else detachDebugger) tabs.

(** [apiWhitelist = [new URL(u).origin]], inside [try]/[catch]. *)
Definition whitelist_origin (h : Host) (u : option string) : Prog unit :=
  match u with
  | Some u' =>
      match origin h u' with
      | Some o => modify_core (with_apiWhitelist [o])
      | None => Ret tt
      end
  | None => Ret tt
  end.

Definition initialize (h : Host) : Prog unit :=
  let* result := await StorageGetStartup in
  modify_core (fun s =>
    with_mode (default intercept (networkInterceptorMode result))
      (with_isEnabled (networkInterceptorEnabled result) s)) >>
  updateBadge >>
  (if truthy (aiApiEndpoint result)
   then whitelist_origin h (aiApiEndpoint result)
   else Ret tt) >>
  let* s := get in
  if isEnabled (core s) then toggleAllTabs true else Ret tt.

(** The [changes] of [storage.onChanged]: for each key that changed,
    its new value. [c_enabled] is the truth value of the new switch;
    [c_mode] is present when the mode key is set to one of the two
    modes (the removal of that key is not modelled); [None] inside
    [c_endpoint] and [c_proxyEnabled] stands for a key that was
    removed. *)
Record Changes := mkChanges {
  c_enabled : option bool;
  c_mode : option Mode;
  c_endpoint : option (option string);
  c_proxyEnabled : option (option bool)
}.

Definition MSG_AUTO_RELEASED : string := "代理已关闭，请求自动放行".

Definition release (r : Transaction) : Transaction :=
  match status r with
  | paused => set_rawResponse (Some MSG_AUTO_RELEASED) (set_status finished r)
  | finished => r
  end.

Definition is_paused (r : Transaction) : bool :=
  match status r with
  | paused => true
  | finished => false
  end.

Definition onStorageChanged (h : Host) (changes : Changes) (area : string)
    : Prog unit :=
  if negb (String.eqb area "local") then Ret tt else
  match c_enabled changes with
  | Some newValue =>
      spawn (toggleAllTabs newValue) >>
      if negb newValue then
        let* s := get in
        if existsb is_paused (requestsStore (core s)) then
          modify_core (fun c => with_requestsStore (map release (requestsStore c)) c) >>
          broadcastRequestsUpdate
        else Ret tt
      else Ret tt
  | None => Ret tt
  end >>
  match c_mode changes with
  | Some m => modify_core (with_mode m) >> updateBadge
  | None => Ret tt
  end >>
  match c_endpoint changes with
  | Some newValue => whitelist_origin h newValue
  | None => Ret tt
  end >>
  match c_proxyEnabled changes with
  | Some (Some false) => try_catch (await ForceClearChromeProxy) (fun _ => Ret tt)
  | _ => Ret tt
  end.

End Lifecycle.

(** ** [proxy-handler.ts]: the system proxy and the record of who set
    it *)
Module ProxyHandler.
Import Js Async Async.Notations.

(** A value of [chrome.proxy.settings]: the configuration this
    extension builds, or any other one, of which only [mode] is
    looked at. *)
Inductive ProxyConfig :=
| FixedServers (scheme host : string) (port : N) (bypassList : list string)
| OtherConfig (mode rest : string).

Definition config_mode (v : ProxyConfig) : string :=
  match v with
  | FixedServers _ _ _ _ => "fixed_servers"
  | OtherConfig m _ => m
  end.

(** What [chrome.proxy.settings.get] and [onChange] report. *)
Record ProxyDetails := mkProxyDetails {
  levelOfControl : string;
  value : option ProxyConfig
}.

(** The [ProxyState] kept under the storage key [proxyState]. *)
Record ProxyState := mkProxyState {
  isOurProxyActive : bool;
  lastSetTime : N;
  originalSettings : option ProxyDetails
}.

Definition DEFAULT_PROXY_STATE : ProxyState := mkProxyState false 0 None.

Inductive Call :=
| StorageGetState
| StorageSetState (state : ProxyState)
| StorageRemoveSettings
| ProxyGet
| ProxySet (v : ProxyConfig)
| ProxyClear.

(** A storage read gives [None] for a key that is missing;
    [ProxyGet] gives [None] when [runtime.lastError] is set. *)
Definition ret (c : Call) : Type :=
  match c with
  | StorageGetState => option ProxyState
  | StorageSetState _ => unit
  | StorageRemoveSettings => unit
  | ProxyGet => option ProxyDetails
  | ProxySet _ => unit
  | ProxyClear => unit
  end.

(** The state counts the readings of the clock taken so far. *)
Abbreviation Prog := (Async.Prog nat Empty_set Call ret).
Abbreviation Run := (Async.Run nat Empty_set Call ret).
Abbreviation Env := (forall c : Call, Outcome (ret c)).

(** [available]: [chrome.proxy.settings] exists; [clock n]: what the
    [n]-th call of [Date.now()] returns. *)
Record Host := mkHost {
  available : bool;
  clock : nat -> N
}.

Definition now (h : Host) : Prog N :=
  let* n := get in put (S n) >> Ret (clock h n).

Definition saveProxyState (state : ProxyState) : Prog unit :=
  try_catch (await (StorageSetState state)) (fun _ => Ret tt).

Definition loadProxyState : Prog ProxyState :=
  Await StorageGetState (fun o =>
    match o with
    | Resolved (Some v) => Ret v
    | _ => Ret DEFAULT_PROXY_STATE
    end).

Definition getChromeProxySettings (h : Host) : Prog (option ProxyDetails) :=
  if available h then await ProxyGet else Ret None.

Definition CONTROLLED : string := "controlled_by_this_extension".

(** [if (state.originalSettings && state.originalSettings.value)]:
    put the saved settings back, or else clear. *)
Definition putBack (state : ProxyState) : Prog unit :=
  match originalSettings state with
  | Some (mkProxyDetails _ (Some v)) => await (ret := ret) (ProxySet v)
  | _ => await (ret := ret) ProxyClear
  end.

(** The inner [try] of the disabling branch: put back or clear, then
    record that the proxy is not ours. *)
Definition restoreOrClear (h : Host) (state : ProxyState) : Prog unit :=
  try_catch
    (putBack state >>
     let* t := now h in
     saveProxyState (mkProxyState false t None))
    (fun _ => Ret tt).

(** Another proxy is running: the settings are not under this
    extension's control and their mode is neither [direct] nor
    [system]. *)
Definition otherProxyRunning (currentSettings : option ProxyDetails) : bool :=
  match currentSettings with
  | Some d =>
      negb (String.eqb (levelOfControl d) CONTROLLED)
      && match value d with
         | Some v => negb (String.eqb (config_mode v) "direct")
                     && negb (String.eqb (config_mode v) "system")
         | None => false
         end
  | None => false
  end.

Definition config_of (proxySettings : Background.ProxySettings) : ProxyConfig :=
  FixedServers (Background.protocol proxySettings) (Background.host proxySettings)
               (Background.port proxySettings) (Background.bypassList proxySettings).

Definition setChromeProxy (h : Host) (proxySettings : Background.ProxySettings)
    : Prog unit :=
  try_catch
    (if negb (available h) then Ret tt else
     let* state := loadProxyState in
     if negb (Background.enabled proxySettings) then
       if isOurProxyActive state then restoreOrClear h state else Ret tt
     else
       let* currentSettings := getChromeProxySettings h in
       let original :=
         if otherProxyRunning currentSettings && negb (isOurProxyActive state)
         then currentSettings
         else originalSettings state in
       await (ProxySet (config_of proxySettings)) >>
       let* t := now h in
       saveProxyState (mkProxyState true t original))
    (fun message => Throw message).

Record TestResult := mkTestResult {
  success : bool;
  message : string;
  responseTime : option Z
}.

Definition elapsed (t startTime : N) : Z := Z.of_N t - Z.of_N startTime.

(** What is caught is the error a rejected call carries, so the
    result holds its message. *)

Definition testProxyConnection (h : Host) (proxySettings : Background.ProxySettings)
    : Prog TestResult :=
  if negb (Background.enabled proxySettings)
  then Ret (mkTestResult false "代理未启用" None)
  else
    let* startTime := now h in
    try_catch
      (setChromeProxy h proxySettings >>
       let* currentProxy := getChromeProxySettings h in
       match currentProxy with
       | Some (mkProxyDetails _ (Some v)) =>
           if String.eqb (config_mode v) "fixed_servers" then
             let* t := now h in
             Ret (mkTestResult true
                    ("Chrome系统代理设置成功 - 响应时间: "
                     +:+ pretty (elapsed t startTime) +:+ "ms")
                    (Some (elapsed t startTime)))
           else Ret (mkTestResult false "Chrome系统代理设置失败" None)
       | _ => Ret (mkTestResult false "Chrome系统代理设置失败" None)
       end)
      (fun error_message =>
         let* t := now h in
         Ret (mkTestResult false error_message (Some (elapsed t startTime)))).

Definition clearProxySettings (h : Host) : Prog unit :=
  try_catch
    (let* state := loadProxyState in
     (if isOurProxyActive state && available h
      then restoreOrClear h state else Ret tt) >>
     await StorageRemoveSettings)
    (fun _ => Ret tt).

(** The listener [watchProxyChanges] registers; the callback the
    background script passes does nothing. *)
Definition onProxyChange (h : Host) (details : ProxyDetails) : Prog unit :=
  let* state := loadProxyState in
  if negb (String.eqb (levelOfControl details) CONTROLLED) && isOurProxyActive state
  then let* t := now h in saveProxyState (mkProxyState false t None)
  else Ret tt.

End ProxyHandler.

(** ** [regex-handler.ts]: the store of recorded matches *)
Module RegexHandler.
Import Js Async Async.Notations.

Record RegexMatch := mkRegexMatch {
  id : string;
  ruleId : string;
  ruleName : string;
  matchedContent : string;
  url : string;
  timestamp : N;
  requestId : string;
  context : string;
  scope : Background.RegexScope
}.

Record RegexSettings := mkRegexSettings {
  enableRegexFilter : bool;
  highlightMatches : bool;
  logMatches : bool;
  maxMatchesToStore : Z
}.

Definition DEFAULT_REGEX_SETTINGS : RegexSettings :=
  mkRegexSettings true true true 1000.

Inductive Call :=
| StorageGetSettings
| StorageGetMatches
| StorageSetMatches (allMatches : list RegexMatch).

Definition ret (c : Call) : Type :=
  match c with
  | StorageGetSettings => option RegexSettings
  | StorageGetMatches => option (list RegexMatch)
  | StorageSetMatches _ => unit
  end.

Abbreviation Prog := (Async.Prog unit Empty_set Call ret).
Abbreviation Env := (forall c : Call, Outcome (ret c)).

(** [a.slice(0, n)] for an integer [n]: a negative [n] counts from
    the end. *)
Definition slice0 {X} (n : Z) (a : list X) : list X :=
  if (n <? 0)%Z then take (Z.to_nat (Z.of_nat (length a) + n)) a
  else take (Z.to_nat n) a.

Definition loadSettings : Prog RegexSettings :=
  Await StorageGetSettings (fun o =>
    match o with
    | Resolved (Some v) => Ret v
    | _ => Ret DEFAULT_REGEX_SETTINGS
    end).

Definition saveMatches (newMatches : list RegexMatch) : Prog unit :=
  try_catch
    (match newMatches with
     | [] => Ret tt
     | _ :: _ =>
         let* settings := loadSettings in
         if negb (logMatches settings) then Ret tt else
         let* result := await (ret := ret) StorageGetMatches in
         let existingMatches := default [] result in
         await (ret := ret) (StorageSetMatches
                  (slice0 (maxMatchesToStore settings)
                          (newMatches ++ existingMatches)))
     end)
    (fun _ => Ret tt).

End RegexHandler.

(** ** Vocabulary for the statements about tabs *)
Module Tabs.
Import Async Lifecycle.

(** Attaching to tab [t] succeeds: both debugger calls resolve. *)
Definition attaches (env : Env) (t : N) : bool :=
  match env (DebuggerAttach t), env (FetchEnable t) with
  | Resolved _, Resolved _ => true
  | _, _ => false
  end.

(** Tab [t] is among the tabs of a query result; a tab whose id is
    missing or 0 is passed over. *)
Definition listed (tabs : list (option N)) (t : N) : Prop :=
  Some t ∈ tabs /\ t <> 0%N.

Definition tracked (s : Script) (t : N) : Prop :=
  is_Some (attachedTabs s !! t).

End Tabs.

(** ** Vocabulary for the statements about the system proxy *)
Module ProxyShapes.
Import Async ProxyHandler.

(** What [loadProxyState] returns under [env]. *)
Definition stored_state (env : Env) : ProxyState :=
  match env StorageGetState with
  | Resolved (Some v) => v
  | _ => DEFAULT_PROXY_STATE
  end.

(** The settings a stored state allows to put back. *)
Definition restorable (st : ProxyState) : option ProxyConfig :=
  match originalSettings st with
  | Some d => value d
  | None => None
  end.

(** The proxy command that undoes our setting. *)
Definition put_back_command (st : ProxyState) : Call :=
  match restorable st with
  | Some v => ProxySet v
  | None => ProxyClear
  end.

(** A trace touches the system proxy only as the owner recorded in
    [st] may: it sets only the saved settings, clears only when there
    are none, and does either only when the proxy is ours; what it
    stores afterwards says that the proxy is not ours any more. *)
Definition owner_only (st : ProxyState) (tr : list (Obs Empty_set Call)) : Prop :=
  (forall v, OCall (ProxySet v) ∈ tr ->
             isOurProxyActive st = true /\ restorable st = Some v) /\
  (OCall ProxyClear ∈ tr ->
   isOurProxyActive st = true /\ restorable st = None) /\
  (forall st', OCall (StorageSetState st') ∈ tr ->
               isOurProxyActive st' = false /\ originalSettings st' = None).

Definition resolves {X} (o : Outcome X) : bool :=
  match o with
  | Resolved _ => true
  | Rejected _ => false
  end.

(** An answer of [chrome.proxy.settings.get] that shows the mode
    [fixed_servers]. *)
Definition reports_fixed_servers (o : Outcome (option ProxyDetails)) : bool :=
  match o with
  | Resolved (Some d) =>
      match value d with
      | Some v => String.eqb (config_mode v) "fixed_servers"
      | None => false
      end
  | _ => false
  end.

End ProxyShapes.

(** ** Vocabulary for the statements about the store of matches *)
Module RegexShapes.
Import Async RegexHandler.

(** What [loadSettings] returns under [env]. *)
Definition loaded_settings (env : Env) : RegexSettings :=
  match env StorageGetSettings with
  | Resolved (Some v) => v
  | _ => DEFAULT_REGEX_SETTINGS
  end.

(** The matches in storage, as [saveMatches] reads them. *)
Definition existing_matches (env : Env) : list RegexMatch :=
  match env StorageGetMatches with
  | Resolved (Some l) => l
  | _ => []
  end.

End RegexShapes.

(** ** Two more schedules

    [run_all] answers a call that is issued twice the same way both
    times, and [run] stops at the first [await]. *)
Module Schedules.
Import Async.

Section WithSignature.
Context {S E C : Type} {ret : C -> Type}.

(** As [run_all], with the calls answered in the order in which they
    are issued: [env n] answers the call number [n], counted from the
    number given, so that a call issued again can be answered
    differently. *)
Fixpoint run_seq {A} (env : nat -> forall c : C, Outcome (ret c)) (n : nat)
    (p : Prog S E C ret A) (s : S) : Run S E C ret A :=
  match p with
  | Ret a => mkRun s [] [] (Returned a)
  | Throw m => mkRun s [] [] (Failed m)
  | Get k => run_seq env n (k s) s
  | Put s' k => run_seq env n k s'
  | Emit e k => observe (OEff e) (run_seq env n k s)
  | Await c k => observe (OCall c) (run_seq env (Datatypes.S n) (k (env n c)) s)
  | Spawn p k =>
      let r1 := run p s in
      after_spawn r1 (run_seq env n k (r_state r1))
  end.

(** The task that the segment [r] left suspended at its own [await],
    resumed in the state [s], which other handlers may have changed
    in between, with the outcome [env] gives; from then on nothing
    interleaves. *)
Definition resume_in {A} (env : forall c : C, Outcome (ret c))
    (r : Run S E C ret A) (s : S) : Run S E C ret A :=
  match r_status r with
  | Pending c k => run_all env (k (env c)) s
  | Returned a => mkRun s [] [] (Returned a)
  | Failed m => mkRun s [] [] (Failed m)
  end.

End WithSignature.
End Schedules.

(** ** Concrete inputs for the listeners outside the core *)
Module Samples.
Import Js Async Background Examples.

Definition details_a : WebRequest.Details :=
  WebRequest.mkDetails "http://a/" 1 (Some [("Accept", Some "text/html"); ("X-Bin", None)]).

Definition script_one : Lifecycle.Script := Lifecycle.mkScript s_one ∅.

Definition script_two : Lifecycle.Script :=
  Lifecycle.mkScript s_one (<[7%N := Lifecycle.version]> ∅).

(** Every call succeeds; the tab query reports the tabs 3 and 7 and
    a tab without id. *)
Definition env_tabs : Lifecycle.Env :=
  fun c =>
    match c return Outcome (Lifecycle.ret c) with
    | Lifecycle.DebuggerAttach _ => Resolved tt
    | Lifecycle.FetchEnable _ => Resolved tt
    | Lifecycle.DebuggerDetach _ => Resolved tt
    | Lifecycle.TabsQuery => Resolved [Some 3%N; None; Some 7%N]
    | Lifecycle.StorageGetStartup =>
        Resolved (Lifecycle.mkStartup true None None)
    | Lifecycle.ForceClearChromeProxy => Resolved tt
    end.

(** As [env_tabs], but the debugger of tab 3 is taken. *)
Definition env_busy : Lifecycle.Env :=
  fun c =>
    match c return Outcome (Lifecycle.ret c) with
    | Lifecycle.DebuggerAttach 3%N =>
        Rejected "Cannot attach: another debugger is already attached"
    | c' => env_tabs c'
    end.

Definition host_life : Lifecycle.Host := Lifecycle.mkHost (fun _ => None).

Definition changes_off : Lifecycle.Changes :=
  Lifecycle.mkChanges (Some false) None None None.

Definition proxy_on : ProxySettings :=
  mkProxySettings true "10.0.0.1" 3128 "http" ["localhost"] false.

Definition proxy_off : ProxySettings :=
  mkProxySettings false "10.0.0.1" 3128 "http" ["localhost"] false.

Definition pac_config : ProxyHandler.ProxyConfig :=
  ProxyHandler.OtherConfig "pac_script" "{url: 'http://pac/'}".

Definition pac_details : ProxyHandler.ProxyDetails :=
  ProxyHandler.mkProxyDetails "controlled_by_other_extensions" (Some pac_config).

Definition host_proxy : ProxyHandler.Host := ProxyHandler.mkHost true (fun n => N.of_nat n).

(** Another extension runs a PAC script; nothing is stored yet. *)
Definition env_pac : ProxyHandler.Env :=
  fun c =>
    match c return Outcome (ProxyHandler.ret c) with
    | ProxyHandler.StorageGetState => Resolved None
    | ProxyHandler.StorageSetState _ => Resolved tt
    | ProxyHandler.StorageRemoveSettings => Resolved tt
    | ProxyHandler.ProxyGet => Resolved (Some pac_details)
    | ProxyHandler.ProxySet _ => Resolved tt
    | ProxyHandler.ProxyClear => Resolved tt
    end.

Definition state_saved : ProxyHandler.ProxyState :=
  ProxyHandler.mkProxyState true 0 (Some pac_details).

(** The proxy is ours; the PAC settings were saved when it was set. *)
Definition env_ours : ProxyHandler.Env :=
  fun c =>
    match c return Outcome (ProxyHandler.ret c) with
    | ProxyHandler.StorageGetState => Resolved (Some state_saved)
    | ProxyHandler.ProxyGet =>
        Resolved (Some (ProxyHandler.mkProxyDetails "controlled_by_this_extension"
                          (Some (ProxyHandler.config_of proxy_on))))
    | c' => env_pac c'
    end.

(** The ordinary run of the connection test: no proxy is set when
    the settings are first read, and the settings read after the set
    show the fixed servers of this extension. The calls are: 0 the
    read of the stored state, 1 the read of the proxy settings, 2 the
    set, 3 the write of the state, 4 the second read of the proxy
    settings. *)
Definition answers_fresh : nat -> ProxyHandler.Env :=
  fun n c =>
    match c return Outcome (ProxyHandler.ret c) with
    | ProxyHandler.StorageGetState => Resolved None
    | ProxyHandler.ProxyGet =>
        if (n <? 4)%nat
        then Resolved (Some (ProxyHandler.mkProxyDetails
                               "controllable_by_this_extension"
                               (Some (ProxyHandler.OtherConfig "system" "{}"))))
        else Resolved (Some (ProxyHandler.mkProxyDetails
                               "controlled_by_this_extension"
                               (Some (ProxyHandler.config_of proxy_on))))
    | c' => env_pac c'
    end.

Definition match_a : RegexHandler.RegexMatch :=
  RegexHandler.mkRegexMatch "match-1" "r1" "token" "abc" "http://a/" 1 "I1" "abc"
    REQUEST_URL.

Definition match_b : RegexHandler.RegexMatch :=
  RegexHandler.mkRegexMatch "match-2" "r1" "token" "abd" "http://a/" 2 "I1" "abd"
    REQUEST_URL.

(** Logging is on with room for two matches; one match is stored. *)
Definition env_matches : RegexHandler.Env :=
  fun c =>
    match c return Outcome (RegexHandler.ret c) with
    | RegexHandler.StorageGetSettings =>
        Resolved (Some (RegexHandler.mkRegexSettings true true true 2))
    | RegexHandler.StorageGetMatches => Resolved (Some [match_a])
    | RegexHandler.StorageSetMatches _ => Resolved tt
    end.

End Samples.

(** * Properties *)

(** ** Laws of the handler semantics *)
Module AsyncFacts.
Import Async.

Section Laws.
Context {S E C : Type} {ret : C -> Type}.
Abbreviation Prog := (Async.Prog S E C ret).
Abbreviation Run := (Async.Run S E C ret).
Implicit Type env : forall c : C, Outcome (ret c).

Lemma seq_run_nil {A B} (s : S) (a : A) (r : Run B) :
  seq_run (mkRun s [] [] (Returned a)) r = r.
Proof. by destruct r. Qed.

Lemma observe_seq {A B} (o : Obs E C) (r1 : Run A) (r2 : Run B) :
  observe o (seq_run r1 r2) = seq_run (observe o r1) r2.
Proof. reflexivity. Qed.

Lemma after_spawn_seq {A B} (r0 : Run unit) (r1 : Run A) (r2 : Run B) :
  after_spawn r0 (seq_run r1 r2) = seq_run (after_spawn r0 r1) r2.
Proof.
  unfold after_spawn, seq_run; cbn. by rewrite !app_assoc.
Qed.

(** [run_all] never stops at an [await]. *)
Lemma run_all_not_pending {A} env (p : Prog A) s c k :
  r_status (run_all env p s) <> Pending c k.
Proof.
  revert s; induction p; intros s0; cbn; try done; eauto.
Qed.

Lemma run_all_bind {A B} env (p : Prog A) (f : A -> Prog B) s :
  run_all env (bind p f) s =
  let r := run_all env p s in
  match r_status r with
  | Returned a => seq_run r (run_all env (f a) (r_state r))
  | Failed m => mkRun (r_state r) (r_trace r) (r_pool r) (Failed m)
  | Pending c k => mkRun (r_state r) (r_trace r) (r_pool r)
                     (Pending c (fun o => bind (k o) f))
  end.
Proof.
  revert s; induction p; intros s0; cbn.
  - by rewrite seq_run_nil.
  - done.
  - apply H.
  - apply IHp.
  - rewrite IHp; cbn. by destruct (r_status (run_all env p s0)).
  - rewrite H; cbn. by destruct (r_status (run_all env (k (env c)) s0)).
  - rewrite IHp2; cbn.
    destruct (r_status (run_all env p2 (r_state (run p1 s0))));
      unfold after_spawn, seq_run; cbn; by rewrite ?app_assoc.
Qed.

Lemma run_all_try_catch {A} env (p : Prog A) (h : string -> Prog A) s :
  run_all env (try_catch p h) s =
  let r := run_all env p s in
  match r_status r with
  | Failed m => seq_run r (run_all env (h m) (r_state r))
  | _ => r
  end.
Proof.
  revert s; induction p; intros s0; cbn.
  - done.
  - by destruct (run_all env (h msg) s0).
  - apply H.
  - apply IHp.
  - rewrite IHp; cbn. by destruct (r_status (run_all env p s0)).
  - rewrite H; cbn. by destruct (r_status (run_all env (k (env c)) s0)).
  - rewrite IHp2; cbn.
    destruct (run_all env p2 (r_state (run p1 s0))) as [s1 t1 q1 []];
      unfold after_spawn, seq_run; cbn; by rewrite ?app_assoc.
Qed.

(** The same laws, read from the inside out. *)
Lemma run_all_bind_ret {A B} env (p : Prog A) (f : A -> Prog B) s s1 t1 q1 a :
  run_all env p s = mkRun s1 t1 q1 (Returned a) ->
  run_all env (bind p f) s
  = seq_run (mkRun s1 t1 q1 (Returned a)) (run_all env (f a) s1).
Proof. intros H. by rewrite run_all_bind, H. Qed.

Lemma run_all_bind_fail {A B} env (p : Prog A) (f : A -> Prog B) s s1 t1 q1 m :
  run_all env p s = mkRun s1 t1 q1 (Failed m) ->
  run_all env (bind p f) s = mkRun s1 t1 q1 (Failed m).
Proof. intros H. by rewrite run_all_bind, H. Qed.


Lemma run_all_try_catch_fail {A} env (p : Prog A) h s s1 t1 q1 m :
  run_all env p s = mkRun s1 t1 q1 (Failed m) ->
  run_all env (try_catch p h) s
  = seq_run (mkRun s1 t1 q1 (Failed m : Status S E C ret A))
      (run_all env (h m) s1).
Proof. intros H. by rewrite run_all_try_catch, H. Qed.


Lemma run_all_try_finally_fail {A} env (p : Prog A) fin s s1 t1 q1 m :
  run_all env p s = mkRun s1 t1 q1 (Failed m) ->
  run_all env (try_finally p fin) s
  = seq_run (mkRun s1 t1 q1 (Failed m : Status S E C ret A))
      (run_all env (bind fin (fun _ => Throw m)) s1).
Proof.
  intros H. unfold try_finally.
  erewrite run_all_bind_ret.
  2: { erewrite run_all_try_catch_fail.
       2: { erewrite run_all_bind_fail by exact H. reflexivity. }
       unfold seq_run; cbn. by rewrite !app_nil_r. }
  reflexivity.
Qed.

End Laws.
End AsyncFacts.

(** ** Facts about the string primitives *)
Module JsFacts.
Import Js.

Lemma app_nil_l_s (b : string) : "" +:+ b = b.
Proof. reflexivity. Qed.

Lemma app_cons_s c (a b : string) : String c a +:+ b = String c (a +:+ b).
Proof. reflexivity. Qed.

Ltac sapp := rewrite ?app_cons_s, ?app_nil_l_s.


Lemma app_nil_r_s (a : string) : a +:+ "" = a.
Proof. induction a; sapp; congruence. Qed.

Lemma has_char_app c a b :
  has_char c (a +:+ b) = has_char c a || has_char c b.
Proof.
  induction a; sapp; cbn [has_char]; [done|].
  rewrite IHa. by rewrite orb_assoc.
Qed.



Lemma prefix_app sep rest : String.prefix sep (sep +:+ rest) = true.
Proof.
  induction sep as [|d t IH]; sapp; cbn [String.prefix]; [by destruct rest|].
  destruct (ascii_dec d d); [done|congruence].
Qed.




(** Single-character separators. *)
Lemma prefix_char d c s :
  String.prefix (String d "") (String c s) = Ascii.eqb c d.
Proof.
  cbn [String.prefix]. destruct (ascii_dec d c) as [->|Hne].
  - rewrite Ascii.eqb_refl. by destruct s.
  - symmetry. apply Ascii.eqb_neq. congruence.
Qed.







End JsFacts.

(** ** The raw request text round trip *)
Module RawRequestFacts.
Import Js JsFacts RawRequest.












(** Splitting on LF and joining again gives the text back. *)
Lemma split_nonempty sep k s : split_aux sep k s <> [].
Proof.
  revert k; induction s as [|c s IH]; intros k; cbn [split_aux]; [done|].
  destruct k; [|apply IH].
  destruct (String.prefix sep (String c s)); [done|].
  specialize (IH 0). by destruct (split_aux sep 0 s).
Qed.










End RawRequestFacts.

(** ** The interception event router *)
Module RouterFacts.
Import Js Async Async.Notations AsyncFacts Background Expected Examples.

#[local] Arguments findIndex : simpl never.
#[local] Arguments insert_exchange : simpl never.

Lemma run_all_processContent env c sc u r (s : State) :
  run_all env (processContent c sc u r) s =
  mkRun s [OCall (ProcessContent c sc u r)] [] (Returned (env_content env c sc u r)).
Proof.
  unfold processContent, env_content; cbn.
  by destruct (env (ProcessContent c sc u r)).
Qed.

Lemma run_all_processHeaders env sc hs u r (s : State) :
  run_all env (processHeaders sc hs u r) s =
  mkRun s (header_calls sc hs u r) [] (Returned (env_headers env sc hs u r)).
Proof.
  induction hs as [|h hs IH]; [done|].
  cbn [processHeaders]. rewrite run_all_bind, run_all_processContent. cbn.
  rewrite run_all_bind, IH. unfold seq_run; cbn. by rewrite app_nil_r.
Qed.

Lemma run_all_header_loop env entries u r raw hs (s : State) :
  run_all env (header_loop entries u r raw hs) s =
  mkRun s (header_calls REQUEST_HEADERS (entries_headers entries) u r) []
    (Returned
       (fold_left (fun raw h => raw +:+ RawRequest.header_line h)
          (env_headers env REQUEST_HEADERS (entries_headers entries) u r) raw,
        hs ++ env_headers env REQUEST_HEADERS (entries_headers entries) u r)).
Proof.
  revert raw hs; induction entries as [|[k v] entries IH]; intros raw hs.
  - cbn. by rewrite app_nil_r.
  - cbn [header_loop]. rewrite run_all_bind.
    unfold processRequestHeaders. rewrite run_all_processHeaders. cbn.
    rewrite IH. cbn. unfold seq_run; cbn.
    rewrite <- app_assoc. reflexivity.
Qed.

Lemma run_all_applyProxy env h rid req tab (s : State) :
  exists tr,
    run_all env (try_catch (applyProxyToRequest h rid req tab) (fun _ => Ret false)) s
    = mkRun s tr [] (Returned false)
    /\ forallb is_proxy_call tr = true.
Proof.
  unfold applyProxyToRequest, loadProxySettings, loadProxyState, setChromeProxy.
  cbn. repeat (case_match; cbn); eauto.
Qed.

Lemma lookup_last {A} (l : list A) (r : A) : (l ++ [r]) !! length l = Some r.
Proof. by apply list_lookup_middle. Qed.

Lemma insert_last {A} (l : list A) (r x : A) :
  <[length l := x]> (l ++ [r]) = l ++ [x].
Proof.
  rewrite insert_app_r_alt by lia. by rewrite Nat.sub_diag.
Qed.

Lemma findIndex_app_new i (l : list Transaction) r :
  findIndex i l = None -> id r = i -> findIndex i (l ++ [r]) = Some (length l).
Proof.
  unfold findIndex. intros Hn Hr.
  destruct (list_find (fun r => id r = i) l) as [[j x]|] eqn:E; [done|].
  rewrite list_find_app_r by done. cbn.
  rewrite decide_True by done. done.
Qed.

Lemma run_all_insert_exchange env (s : State) tab params uid raw hs :
  findIndex uid (requestsStore s) = None ->
  let row := row_with (mode s) uid tab params raw hs in
  run_all env (insert_exchange tab params uid raw hs) s =
  mkRun (after_insert env s tab (Params.requestId params) row).1
    (OEff (Broadcast (requestsStore s ++ [row]))
       :: (after_insert env s tab (Params.requestId params) row).2)
    [] (Returned tt).
Proof.
  intros Hnew row. subst row.
  unfold insert_exchange, after_insert, row_with. cbn.
  destruct (mode s) eqn:Hm; cbn.
  - by repeat case_decide.
  - repeat case_decide; try done. cbn.
    destruct (env (ContinueRequest tab (Params.requestId params) None None))
      as [[]|msg]; cbn.
    + done.
    + rewrite findIndex_app_new by done. cbn.
      rewrite lookup_last. cbn. rewrite insert_last, lookup_last. cbn.
      rewrite insert_last. done.
Qed.

Lemma run_all_new_exchange env (s : State) tab params uid :
  findIndex uid (requestsStore s) = None ->
  let row := row_of env (mode s) uid tab params in
  run_all env (new_exchange tab params uid) s =
  mkRun (after_insert env s tab (Params.requestId params) row).1
    (pipeline_calls params
       ++ OEff (Broadcast (requestsStore s ++ [row]))
       :: (after_insert env s tab (Params.requestId params) row).2)
    [] (Returned tt).
Proof.
  intros Hnew row. subst row. unfold new_exchange, processUrl.
  rewrite run_all_bind, run_all_processContent. cbn [r_status r_state].
  rewrite run_all_bind, run_all_header_loop. cbn [r_status r_state fst snd app].
  unfold row_of, pipeline_calls, RawRequest.assembleRawRequest,
    RawRequest.request_line, processed_body, processed_headers, processed_url.
  destruct (PausedRequest.postData (Params.request params)) as [[|c b]|];
    cbn [truthy processRequestBody bind run_all RawRequest.body_part].
  - rewrite run_all_insert_exchange by done.
    unfold seq_run; cbn. rewrite JsFacts.app_nil_r_s, !app_nil_r. done.
  - do 3 rewrite run_all_bind. rewrite run_all_processContent. cbn.
    rewrite run_all_insert_exchange by done.
    unfold seq_run; cbn. rewrite <- !app_assoc. done.
  - rewrite run_all_insert_exchange by done.
    unfold seq_run; cbn. rewrite JsFacts.app_nil_r_s, !app_nil_r. done.
Qed.

(** The proxy check never ends the handling of an event: the
    reconciler of proxy-handler.ts answers [false] on every path. *)
Lemma run_all_proxy_check env h params tab (s : State) :
  exists pre,
    forallb is_proxy_call pre = true /\
    run_all env
      (if negb (bool_decide (is_Some (Params.responseHeaders params)))
          && negb (Params.redirectResponse params)
       then try_catch
              (applyProxyToRequest h (Params.requestId params)
                 (Params.request params) tab)
              (fun _ => Ret false)
       else Ret false) s
    = mkRun s pre [] (Returned false).
Proof.
  destruct (_ && _).
  - destruct (run_all_applyProxy env h (Params.requestId params)
                (Params.request params) tab s) as (tr & -> & Htr).
    by exists tr.
  - by exists [].
Qed.

Lemma onEvent_new_exchange h env (s : State) t params :
  let tab := Npos t in
  let rid := Params.requestId params in
  let req := Params.request params in
  let row := row_of env (mode s) (uniqueId_of s tab params) tab params in
  nonempty rid = true ->
  isWhitelisted s (PausedRequest.url req) = false ->
  live_replay s (obj_get "X-Replay-Id" (PausedRequest.headers req)) = None ->
  Params.responseHeaders params = None ->
  findIndex (uniqueId_of s tab params) (requestsStore s) = None ->
  exists pre,
    forallb is_proxy_call pre = true /\
    run_all env (onEvent h (Some tab) "Fetch.requestPaused" params) s
    = mkRun (after_insert env s tab rid row).1
        (pre ++ pipeline_calls params
             ++ OEff (Broadcast (requestsStore s ++ [row]))
             :: (after_insert env s tab rid row).2)
        [] (Returned tt).
Proof.
  intros tab rid req row Hrid Hwl Hlive Hresp Hnew. subst tab rid req row.
  unfold onEvent, onEvent_with, route. cbn [String.eqb Ascii.eqb Bool.eqb negb].
  rewrite Hrid. cbn [negb bind get run_all].
  rewrite Hwl, Hlive. rewrite run_all_bind.
  destruct (run_all_proxy_check env h params (Npos t) s) as (pre & Hpre & ->).
  exists pre. split; [done|]. cbn [r_status r_state].
  rewrite Hresp, Hnew. rewrite run_all_new_exchange by done.
  unfold seq_run; cbn. done.
Qed.

Lemma continues_app a b : continues (a ++ b) = continues a + continues b.
Proof. unfold continues. by rewrite List.filter_app, length_app. Qed.

Lemma broadcasts_app a b : broadcasts (a ++ b) = broadcasts a + broadcasts b.
Proof. unfold broadcasts. by rewrite List.filter_app, length_app. Qed.

Lemma proxy_calls_quiet pre :
  forallb is_proxy_call pre = true -> continues pre = 0 /\ broadcasts pre = 0.
Proof.
  induction pre as [|o pre IH]; [done|]. cbn [forallb].
  intros [Ho Hpre]%andb_true_iff. destruct (IH Hpre) as [IH1 IH2].
  unfold continues, broadcasts in *. cbn [List.filter].
  destruct o as [e|c]; [done|]. by destruct c.
Qed.

Lemma header_calls_quiet sc hs u r :
  continues (header_calls sc hs u r) = 0 /\ broadcasts (header_calls sc hs u r) = 0.
Proof. by induction hs. Qed.

Lemma pipeline_calls_quiet params :
  continues (pipeline_calls params) = 0 /\ broadcasts (pipeline_calls params) = 0.
Proof.
  unfold pipeline_calls.
  change (?x :: ?l ++ ?m) with ([x] ++ l ++ m).
  rewrite !continues_app, !broadcasts_app.
  destruct (header_calls_quiet REQUEST_HEADERS
              (entries_headers (PausedRequest.headers (Params.request params)))
              (PausedRequest.url (Params.request params))
              (Params.requestId params)) as [-> ->].
  by destruct (PausedRequest.postData (Params.request params)) as [[|??]|].
Qed.

(** C3. A Request-stage pause event of an exchange that is not yet in
    the ledger, is not whitelisted and is not a live replay creates a
    row from the pipeline's output (URL, headers and body assembled
    into the raw request text), appends it to the ledger and
    broadcasts the ledger. In intercept mode the row is paused and no
    resume command is issued; in proxy mode the row is created
    finished and the exchange is resumed at once. *)
Theorem C3_new_exchange_captured
    (h : Host) (env : Env) (s : State) (t : positive) (params : Params.t) :
  let tab := Npos t in
  let rid := Params.requestId params in
  let req := Params.request params in
  let uid := uniqueId_of s tab params in
  nonempty rid = true ->
  isWhitelisted s (PausedRequest.url req) = false ->
  live_replay s (obj_get "X-Replay-Id" (PausedRequest.headers req)) = None ->
  Params.responseHeaders params = None ->
  findIndex uid (requestsStore s) = None ->
  let r := run_all env (onEvent h (Some tab) "Fetch.requestPaused" params) s in
  exists row,
    id row = uid /\
    rawRequest row =
      RawRequest.assembleRawRequest (PausedRequest.method req)
        (processed_url env params) (processed_headers env params)
        (processed_body env params) /\
    requestHeaders row = processed_headers env params /\
    rawResponse row = None /\
    (exists pre post,
       r_trace r = pre ++ OEff (Broadcast (requestsStore s ++ [row])) :: post
       /\ broadcasts pre = 0 /\ continues pre = 0) /\
    r_status r = Returned tt /\
    match mode s with
    | intercept =>
        status row = paused /\
        requestsStore (r_state r) = requestsStore s ++ [row] /\
        continues (r_trace r) = 0
    | proxy =>
        status row = finished /\
        continues (r_trace r) = 1 /\
        In (OCall (ContinueRequest tab rid None None)) (r_trace r) /\
        exists row',
          requestsStore (r_state r) = requestsStore s ++ [row'] /\
          id row' = uid /\ status row' = finished /\
          rawRequest row' = rawRequest row
    end.
Proof.
  intros tab rid req uid Hrid Hwl Hlive Hresp Hnew r.
  destruct (onEvent_new_exchange h env s t params Hrid Hwl Hlive Hresp Hnew)
    as (pre & Hpre & Hrun).
  subst r. fold tab rid uid in Hrun. rewrite Hrun. clear Hrun.
  set (row := row_of env (mode s) uid tab params).
  destruct (proxy_calls_quiet pre Hpre) as [Hc Hb].
  destruct (pipeline_calls_quiet params) as [Hpc Hpb].
  exists row. repeat split; try done.
  - exists (pre ++ pipeline_calls params), (after_insert env s tab rid row).2.
    cbn [r_trace]. rewrite <- app_assoc, continues_app, broadcasts_app.
    split; [done|]. lia.
  - cbn [r_trace r_state]. unfold after_insert. subst row. unfold row_of, row_with.
    destruct (mode s).
    + split; [done|]. split; [done|].
      cbn [fst snd]. by rewrite !continues_app, Hc, Hpc.
    + split; [done|].
      destruct (env (ContinueRequest tab rid None None)) as [[]|msg]; cbn [fst snd].
      * rewrite !continues_app, Hc, Hpc. split; [done|].
        split; [rewrite !in_app_iff; cbn; auto|]. eauto.
      * rewrite !continues_app, Hc, Hpc. split; [done|].
        split; [rewrite !in_app_iff; cbn; auto|]. eauto.
Qed.

Lemma C3_new_exchange_captured_witness :
  let r := run_all env_ok
             (onEvent host0 (Some 1%N) "Fetch.requestPaused"
                (ev_request "I1" (Some "N1"))) s_empty in
  exists row,
    id row = "N1"
    /\ rawRequest row
       = "GET http://a/ HTTP/1.1" +:+ crlf +:+ "Accept: */*" +:+ crlf
    /\ status row = paused
    /\ requestsStore (r_state r) = [row]
    /\ continues (r_trace r) = 0.
Proof.
  destruct (C3_new_exchange_captured host0 env_ok s_empty 1
              (ev_request "I1" (Some "N1")) eq_refl eq_refl eq_refl eq_refl eq_refl)
    as (row & H1 & H2 & _ & _ & _ & _ & H3 & H4 & H5).
  exists row. split; [exact H1|]. split; [exact H2|]. split; [exact H3|].
  split; [exact H4|exact H5].
Defined.

Lemma findIndex_Some i (l : list Transaction) n :
  findIndex i l = Some n -> exists r, l !! n = Some r /\ id r = i.
Proof.
  unfold findIndex. destruct (list_find _ l) as [[j x]|] eqn:E; [|done].
  intros [= <-]. apply list_find_Some in E as (? & ? & _). eauto.
Qed.

(** A Response-stage event skips the proxy check. *)
Lemma onEvent_response_stage h env (s : State) t params rh :
  let tab := Npos t in
  let rid := Params.requestId params in
  let req := Params.request params in
  let uid := uniqueId_of s tab params in
  nonempty rid = true ->
  isWhitelisted s (PausedRequest.url req) = false ->
  live_replay s (obj_get "X-Replay-Id" (PausedRequest.headers req)) = None ->
  Params.responseHeaders params = Some rh ->
  run_all env (onEvent h (Some tab) "Fetch.requestPaused" params) s =
  run_all env
    (match findIndex uid (requestsStore s) with
     | Some i => response_stage h tab params uid rh i
     | None => Ret tt
     end) s.
Proof.
  intros tab rid req uid Hrid Hwl Hlive Hresp. subst tab rid req uid.
  unfold onEvent, onEvent_with, route. cbn [String.eqb Ascii.eqb Bool.eqb negb].
  rewrite Hrid. cbn [negb bind get run_all].
  rewrite Hwl, Hlive, Hresp. reflexivity.
Qed.

Lemma response_stage_error h env (s : State) tab params uid rh i row msg :
  requestsStore s !! i = Some row ->
  body_fails h env tab (Params.requestId params) rh msg ->
  let row' := set_status finished
                (set_rawResponse (Some (body_error_text msg)) row) in
  let ledger' := <[i := row']> (requestsStore s) in
  run_all env (response_stage h tab params uid rh i) s =
  mkRun (with_response_done uid (Params.requestId params) ledger' s)
    [OCall (GetResponseBody tab (Params.requestId params));
     OEff (Broadcast ledger');
     OCall (ContinueRequest tab (Params.requestId params) None None)]
    [] (Returned tt).
Proof.
  intros Hrow Hfail row' ledger'. subst row' ledger'.
  assert (Hlt : i < length (requestsStore s)) by by eapply lookup_lt_Some.
  unfold response_stage, try_finally. cbn.
  destruct Hfail as [->|(rb & -> & Hne & Hdec)]; cbn.
  - rewrite Hrow. cbn. rewrite list_lookup_insert_eq by done. cbn.
    rewrite list_insert_insert_eq.
    by destruct (env (ContinueRequest tab (Params.requestId params) None None))
      as [[]|].
  - rewrite Hne, Hdec. cbn.
    rewrite Hrow. cbn. rewrite list_lookup_insert_eq by done. cbn.
    rewrite list_insert_insert_eq.
    by destruct (env (ContinueRequest tab (Params.requestId params) None None))
      as [[]|].
Qed.



(** C4 holds of the run in which no other handler runs before the
    listener returns: on the Response-stage path of a known exchange,
    a failure to retrieve or decode the body is then written on the
    row as its response text, the row is finished, the pending guard
    of its id is cleared, the ledger is broadcast and the paused
    exchange is resumed. *)
Theorem C4_body_error_recorded
    (h : Host) (env : Env) (s : State) (t : positive) (params : Params.t)
    (rh : list Header) (i : nat) (msg : string) :
  let tab := Npos t in
  let rid := Params.requestId params in
  let req := Params.request params in
  let uid := uniqueId_of s tab params in
  nonempty rid = true ->
  isWhitelisted s (PausedRequest.url req) = false ->
  live_replay s (obj_get "X-Replay-Id" (PausedRequest.headers req)) = None ->
  Params.responseHeaders params = Some rh ->
  findIndex uid (requestsStore s) = Some i ->
  body_fails h env tab rid rh msg ->
  let r := run_all env (onEvent h (Some tab) "Fetch.requestPaused" params) s in
  exists row,
    requestsStore s !! i = Some row /\ id row = uid /\
    let row' := set_status finished
                  (set_rawResponse (Some (body_error_text msg)) row) in
    let ledger' := <[i := row']> (requestsStore s) in
    requestsStore (r_state r) = ledger' /\
    ledger' !! i = Some row' /\
    rawResponse row' = Some (body_error_text msg) /\
    status row' = finished /\
    pendingActions (r_state r) = pendingActions s ∖ {[uid]} /\
    r_trace r = [OCall (GetResponseBody tab rid);
                 OEff (Broadcast ledger');
                 OCall (ContinueRequest tab rid None None)] /\
    r_status r = Returned tt.
Proof.
  intros tab rid req uid Hrid Hwl Hlive Hresp Hidx Hfail r.
  destruct (findIndex_Some _ _ _ Hidx) as (row & Hrow & Hid).
  exists row. split; [done|]. split; [done|]. cbn zeta.
  assert (Hlt : i < length (requestsStore s)) by by eapply lookup_lt_Some.
  subst r tab rid req uid.
  rewrite (onEvent_response_stage h env s t params rh) by done.
  rewrite Hidx.
  rewrite (response_stage_error h env s _ params _ rh i row msg) by done.
  cbn. by rewrite list_lookup_insert_eq.
Qed.

Lemma C4_body_error_recorded_witness :
  let r := run_all env_no_body
             (onEvent host0 (Some 1%N) "Fetch.requestPaused"
                (ev_response "I1" (Some "N1"))) s_one in
  exists row,
    requestsStore (r_state r)
    = [set_status finished
         (set_rawResponse
            (Some (body_error_text "No resource with given identifier")) row)]
    /\ r_trace r
       = [OCall (GetResponseBody 1 "I1");
          OEff (Broadcast (requestsStore (r_state r)));
          OCall (ContinueRequest 1 "I1" None None)].
Proof.
  destruct (C4_body_error_recorded host0 env_no_body s_one 1
              (ev_response "I1" (Some "N1")) [mkHeader "Server" "x"] 0%nat
              "No resource with given identifier"
              eq_refl eq_refl eq_refl eq_refl eq_refl (or_introl eq_refl))
    as (row & Hrow & _ & H1 & _ & _ & _ & _ & H2 & _).
  exists row. injection Hrow as <-. split; [exact H1|exact H2].
Defined.

(** C4. The code at the failing input: the response of exchange I1,
    whose row N1 is paused in the ledger, arrives; the listener asks
    for the body and waits. Meanwhile the clear-all command empties
    the ledger. The body cannot be retrieved, and the listener, which
    kept the position of the row from before the wait, fails while it
    records the error: the error is on no row, and the command that
    resumes the paused exchange is never sent, where C4 has the
    exchange resumed whatever happens to the body. *)
Theorem C4_body_error_lost_after_clear :
  let r1 := run (onEvent host0 (Some 1%N) "Fetch.requestPaused"
                   (ev_response "I1" (Some "N1"))) s_one in
  let s2 := r_state (run (onMessage host0 (msg "clear-requests")) (r_state r1)) in
  let r3 := Schedules.resume_in env_no_body r1 s2 in
  requestsStore s_one = [row_a]
  /\ status row_a = paused
  /\ r_state r1 = s_one
  /\ r_trace r1 = [OCall (GetResponseBody 1 "I1")]
  /\ (exists k, r_status r1 = Pending (GetResponseBody 1 "I1") k)
  /\ requestsStore s2 = []
  /\ env_no_body (GetResponseBody 1 "I1")
     = Rejected "No resource with given identifier"
  /\ (exists e, r_status r3 = Failed e)
  /\ requestsStore (r_state r3) = []
  /\ r_trace r3 = [OEff (Broadcast [])]
  /\ continues (r_trace r3) = 0.
Proof.
  vm_compute. repeat split; try reflexivity; eexists; reflexivity.
Qed.

(** Case 6: a Request-stage event of a known exchange rebinds the
    low-level id of its row; nothing is observed but the calls of the
    proxy check. *)
Lemma onEvent_rebind h env (s : State) t params i :
  let tab := Npos t in
  let rid := Params.requestId params in
  let req := Params.request params in
  nonempty rid = true ->
  isWhitelisted s (PausedRequest.url req) = false ->
  live_replay s (obj_get "X-Replay-Id" (PausedRequest.headers req)) = None ->
  Params.responseHeaders params = None ->
  findIndex (uniqueId_of s tab params) (requestsStore s) = Some i ->
  exists pre row,
    forallb is_proxy_call pre = true /\
    requestsStore s !! i = Some row /\
    run_all env (onEvent h (Some tab) "Fetch.requestPaused" params) s
    = mkRun (with_requestsStore (<[i := set_requestId rid row]> (requestsStore s)) s)
        pre [] (Returned tt).
Proof.
  intros tab rid req Hrid Hwl Hlive Hresp Hidx. subst tab rid req.
  destruct (findIndex_Some _ _ _ Hidx) as (row & Hrow & _).
  unfold onEvent, onEvent_with, route. cbn [String.eqb Ascii.eqb Bool.eqb negb].
  rewrite Hrid. cbn [negb bind get run_all].
  rewrite Hwl, Hlive. rewrite run_all_bind.
  destruct (run_all_proxy_check env h params (Npos t) s) as (pre & Hpre & ->).
  exists pre, row. split; [done|]. split; [done|]. cbn [r_status r_state].
  rewrite Hresp, Hidx. cbn. rewrite Hrow. cbn.
  unfold seq_run; cbn. by rewrite app_nil_r.
Qed.

(** C5. The code at the failing input: a Response-stage pause event
    that carries no token and whose identity matches no row of the
    (empty) ledger. No row is created, nothing is broadcast, and no
    command is issued at all, not even the one that resumes the
    paused exchange, where C5 has such an event treated as a new
    exchange and never ignored. *)
Theorem C5_unmatched_response_dropped :
  let params := ev_response "I9" (Some "N9") in
  let r := run_all env_ok
             (onEvent host0 (Some 1%N) "Fetch.requestPaused" params) s_empty in
  findIndex (uniqueId_of s_empty 1 params) (requestsStore s_empty) = None
  /\ obj_get "X-Replay-Id" (PausedRequest.headers (Params.request params)) = None
  /\ requestsStore (r_state r) = []
  /\ r_trace r = []
  /\ ~ (exists row, requestsStore (r_state r) = requestsStore s_empty ++ [row]).
Proof.
  vm_compute. repeat split; try reflexivity. intros [row H]. discriminate H.
Qed.

(** The Request-stage part of C5 holds. A Request-stage pause event
    (no response headers) that is not whitelisted, carries no
    correlation token and whose identity matches no row is a new
    exchange: exactly one row, with that identity, is appended to the
    ledger and the ledger is broadcast. *)
Theorem C5_request_event_inserted
    (h : Host) (env : Env) (s : State) (t : positive) (params : Params.t) :
  let tab := Npos t in
  let req := Params.request params in
  let uid := uniqueId_of s tab params in
  nonempty (Params.requestId params) = true ->
  isWhitelisted s (PausedRequest.url req) = false ->
  obj_get "X-Replay-Id" (PausedRequest.headers req) = None ->
  Params.responseHeaders params = None ->
  findIndex uid (requestsStore s) = None ->
  let r := run_all env (onEvent h (Some tab) "Fetch.requestPaused" params) s in
  exists row,
    requestsStore (r_state r) = requestsStore s ++ [row]
    /\ id row = uid
    /\ findIndex uid (requestsStore (r_state r)) = Some (length (requestsStore s))
    /\ In (OEff (Broadcast (requestsStore s ++ [row_of env (mode s) uid tab params])))
          (r_trace r).
Proof.
  intros tab req uid Hrid Hwl Htok Hresp Hnew r.
  assert (Hlive : live_replay s (obj_get "X-Replay-Id" (PausedRequest.headers req)) = None)
    by by rewrite Htok.
  destruct (onEvent_new_exchange h env s t params Hrid Hwl Hlive Hresp Hnew)
    as (pre & Hpre & Hrun).
  subst r. fold tab uid in Hrun. rewrite Hrun. clear Hrun. cbn [r_state r_trace].
  set (row := row_of env (mode s) uid tab params).
  assert (Hin : In (OEff (Broadcast (requestsStore s ++ [row])))
                  (pre ++ pipeline_calls params
                     ++ OEff (Broadcast (requestsStore s ++ [row]))
                     :: (after_insert env s tab (Params.requestId params) row).2)).
  { rewrite !in_app_iff. cbn. auto. }
  unfold after_insert in *. destruct (mode s).
  - exists row. cbn. split; [done|]. split; [done|].
    split; [by apply findIndex_app_new|done].
  - destruct (env (ContinueRequest tab (Params.requestId params) None None))
      as [[]|msg]; cbn.
    + exists row. split; [done|]. split; [done|].
      split; [by apply findIndex_app_new|done].
    + eexists. split; [done|]. split; [done|].
      split; [by apply findIndex_app_new|done].
Qed.

Lemma C5_request_event_inserted_witness :
  exists row,
    requestsStore (r_state (run_all env_ok
       (onEvent host0 (Some 1%N) "Fetch.requestPaused" (ev_request "I1" (Some "N1")))
       s_empty)) = [] ++ [row]
    /\ id row = "N1".
Proof.
  destruct (C5_request_event_inserted host0 env_ok s_empty 1
              (ev_request "I1" (Some "N1")))
    as (row & H1 & H2 & _); try reflexivity.
  exists row. split; [exact H1|exact H2].
Defined.

(** C8. The code at the failing input: the row of exchange N1 is in
    the ledger with low-level id I1; a Request-stage event re-pauses
    the exchange under the id I2. The row is rebound, so the ledger
    changes, and no broadcast follows: the only observations are the
    two storage reads of the proxy check. *)
Theorem C8_rebind_not_broadcast :
  let params := ev_request "I2" (Some "N1") in
  let r := run_all env_ok
             (onEvent host0 (Some 1%N) "Fetch.requestPaused" params) s_one in
  requestsStore s_one = [row_a]
  /\ requestsStore (r_state r) = [set_requestId "I2" row_a]
  /\ requestsStore (r_state r) <> requestsStore s_one
  /\ r_trace r = [OCall LoadProxySettings; OCall LoadProxyState]
  /\ broadcasts (r_trace r) = 0.
Proof. vm_compute. repeat split; try reflexivity. discriminate. Qed.

(** The same at every input: rebinding is never followed by a
    broadcast. *)
Lemma rebind_never_broadcast h env (s : State) t params i :
  let tab := Npos t in
  let req := Params.request params in
  nonempty (Params.requestId params) = true ->
  isWhitelisted s (PausedRequest.url req) = false ->
  live_replay s (obj_get "X-Replay-Id" (PausedRequest.headers req)) = None ->
  Params.responseHeaders params = None ->
  findIndex (uniqueId_of s tab params) (requestsStore s) = Some i ->
  let r := run_all env (onEvent h (Some tab) "Fetch.requestPaused" params) s in
  (exists row, requestsStore s !! i = Some row /\
     requestsStore (r_state r)
     = <[i := set_requestId (Params.requestId params) row]> (requestsStore s))
  /\ broadcasts (r_trace r) = 0.
Proof.
  intros tab req Hrid Hwl Hlive Hresp Hidx r.
  destruct (onEvent_rebind h env s t params i Hrid Hwl Hlive Hresp Hidx)
    as (pre & row & Hpre & Hrow & Hrun).
  subst r. fold tab in Hrun. rewrite Hrun. cbn [r_state r_trace]. split.
  - by exists row.
  - by apply proxy_calls_quiet.
Qed.

(** C9, as stated, fails: the row of exchange N1 is already in the
    ledger, and the Request-stage event that re-pauses it still goes
    to the reconciler, whose first act is to load the proxy
    settings. *)
Lemma C9_known_exchange_consulted :
  let params := ev_request "I2" (Some "N1") in
  let r := run (onEvent host0 (Some 1%N) "Fetch.requestPaused" params) s_one in
  findIndex (uniqueId_of s_one 1 params) (requestsStore s_one) = Some 0%nat
  /\ r_trace r = [OCall LoadProxySettings].
Proof. vm_compute. split; reflexivity. Qed.

(** C9, amended. The reconciler is consulted exactly for the pause
    events that are not whitelisted, match no live correlation and
    carry neither response headers nor a redirect response, whether or
    not a row of that identity is already in the ledger. Outside these
    events the handling does not depend on the reconciler at all;
    inside them the reconciler is the first thing called; and when
    it reports the request as handled, nothing follows its own
    effects: no ledger change, no command. *)
Theorem C9_proxy_check_scope
    (h : Host) (env : Env) (s : State) (src : option N) (method : string)
    (params : Params.t) :
  let rid := Params.requestId params in
  let req := Params.request params in
  (proxy_check_applies s params = false ->
     forall ap1 ap2,
       run_all env (onEvent_with ap1 h src method params) s
       = run_all env (onEvent_with ap2 h src method params) s)
  /\ (forall t,
        src = Some (Npos t) -> method = "Fetch.requestPaused" ->
        nonempty rid = true -> proxy_check_applies s params = true ->
        r_trace (run (onEvent h src method params) s) = [OCall LoadProxySettings])
  /\ (forall t ap s' tr pool,
        src = Some (Npos t) -> method = "Fetch.requestPaused" ->
        nonempty rid = true -> proxy_check_applies s params = true ->
        run_all env (ap rid req (Npos t)) s = mkRun s' tr pool (Returned true) ->
        run_all env (onEvent_with ap h src method params) s
        = mkRun s' tr pool (Returned tt)).
Proof.
  intros rid req. subst rid req. unfold proxy_check_applies. repeat split.
  - intros Hg ap1 ap2. unfold onEvent_with, route.
    destruct src as [[|t]|]; [done| |done].
    destruct (negb (String.eqb method "Fetch.requestPaused")); [done|].
    destruct (negb (nonempty (Params.requestId params))); [done|].
    cbn [bind get run_all].
    destruct (isWhitelisted s _); [done|].
    destruct (live_replay s _) as [[k d]|]; [done|].
    cbn [negb andb bool_decide] in Hg.
    rewrite (bool_decide_ext _ False) in Hg by (split; [by intros [? ?]|done]).
    cbn in Hg. by rewrite Hg.
  - intros t -> -> Hrid Hg.
    apply andb_true_iff in Hg as [[[Hw Hl]%andb_true_iff Hr]%andb_true_iff Hd].
    apply negb_true_iff in Hw, Hl. apply bool_decide_eq_false in Hl.
    unfold onEvent, onEvent_with, route. cbn [String.eqb Ascii.eqb Bool.eqb negb].
    rewrite Hrid. cbn [negb bind get run]. rewrite Hw.
    destruct (live_replay s _) as [[k d]|]; [by destruct Hl|].
    rewrite Hr, Hd. reflexivity.
  - intros t ap s' tr pool -> -> Hrid Hg Hap.
    apply andb_true_iff in Hg as [[[Hw Hl]%andb_true_iff Hr]%andb_true_iff Hd].
    apply negb_true_iff in Hw, Hl. apply bool_decide_eq_false in Hl.
    unfold onEvent_with, route. cbn [String.eqb Ascii.eqb Bool.eqb negb].
    rewrite Hrid. cbn [negb bind get run_all]. rewrite Hw.
    destruct (live_replay s _) as [[k d]|]; [by destruct Hl|].
    rewrite Hr, Hd. cbn [andb].
    rewrite run_all_bind, run_all_try_catch, Hap. cbn.
    unfold seq_run; cbn. by rewrite !app_nil_r.
Qed.

Lemma C9_proxy_check_scope_witness :
  run_all env_ok
    (onEvent_with (fun _ _ _ => Ret true) host0 (Some 1%N) "Fetch.requestPaused"
       (ev_request "I2" (Some "N1"))) s_one
  = mkRun s_one [] [] (Returned tt).
Proof.
  apply (proj2 (proj2 (C9_proxy_check_scope host0 env_ok s_one (Some 1%N)
                         "Fetch.requestPaused" (ev_request "I2" (Some "N1"))))
           1%positive (fun _ _ _ => Ret true) s_one [] []);
    reflexivity.
Defined.

End RouterFacts.

(** ** Resume, replay and clear-all *)
Module ReplayFacts.
Import Js Async Async.Notations AsyncFacts Background Expected Examples RouterFacts.

#[local] Arguments findIndex : simpl never.

(** Run a handler symbolically: simplify, and split on whatever the
    next step of the program depends on. *)
Ltac exec :=
  repeat (cbn;
          first [ done
                | match goal with
                  | |- context [match ?x with _ => _ end] => destruct x eqn:?
                  end ]).

(** A resume command for an id that is in the pending set returns at
    once: no command, no broadcast, no change. *)
Lemma resume_while_pending (h : Host) m rd (s : State) :
  Message.action m = "resume-request" -> Message.requestData m = Some rd ->
  id rd ∈ pendingActions s ->
  run (onMessage h m) s = mkRun s [] [] (Returned true).
Proof.
  intros Ha Hr Hp. unfold onMessage. rewrite Ha, Hr. cbn.
  by rewrite decide_True.
Qed.

(** C6. A first resume command for an id that is not pending issues at
    most one low-level resume command and, while that command is
    awaited, keeps the id in the pending set. A second resume command
    for the same id, in any state where the id is still pending,
    returns at once: no command, no broadcast, no change. When the
    awaited command settles, whatever its outcome and whatever happened
    in between, the id leaves the pending set and no further command
    is issued. *)
Theorem C6_resume_idempotent
    (h : Host) (m : Message.t) (rd : Transaction) (s : State) :
  Message.action m = "resume-request" ->
  Message.requestData m = Some rd ->
  id rd ∉ pendingActions s ->
  let r1 := run (onMessage h m) s in
  continues (r_trace r1) <= 1 /\
  match r_status r1 with
  | Pending c k =>
      continues (r_trace r1) = 1 /\
      id rd ∈ pendingActions (r_state r1) /\
      (forall m2 rd2 s',
         Message.action m2 = "resume-request" ->
         Message.requestData m2 = Some rd2 -> id rd2 = id rd ->
         id rd ∈ pendingActions s' ->
         run (onMessage h m2) s' = mkRun s' [] [] (Returned true)) /\
      (forall o s',
         let r2 := run (k o) s' in
         (id rd ∉ pendingActions (r_state r2)) /\
         continues (r_trace r2) = 0 /\
         r_pool r2 = [] /\
         forall c' k', r_status r2 <> Pending c' k')
  | _ => continues (r_trace r1) = 0 /\ id rd ∉ pendingActions (r_state r1)
  end.
Proof.
  intros Ha Hr Hp.
  unfold onMessage. rewrite Ha, Hr. cbn.
  rewrite decide_False by done. cbn.
  destruct (findIndex (id rd) (requestsStore s)) as [i|] eqn:Hi; cbn.
  2: { exec; split; try (cbn; lia); split; try done; set_solver. }
  destruct (nonempty (requestId rd)); cbn.
  2: { exec; split; try (cbn; lia); split; try done; set_solver. }
  assert (Hsecond : forall m2 rd2 s',
            Message.action m2 = "resume-request" ->
            Message.requestData m2 = Some rd2 -> id rd2 = id rd ->
            id rd ∈ pendingActions s' ->
            run (onMessage h m2) s' = mkRun s' [] [] (Returned true)).
  { intros m2 rd2 s' H1 H2 H3 H4. apply (resume_while_pending h m2 rd2); congruence. }
  destruct (Message.headers m) as [hs|];
    [|destruct (Message.rawRequest m) as [raw|]]; cbn.
  - split; [unfold continues; cbn; lia|]. split; [done|].
    split; [set_solver|]. split; [done|].
    intros o s'. destruct o; exec; repeat split; try done; try set_solver.
  - split; [unfold continues; cbn; lia|]. split; [done|].
    split; [set_solver|]. split; [done|].
    intros o s'. destruct o; exec; repeat split; try done; try set_solver.
  - exec; split; try (cbn; lia); split; try done; set_solver.
Qed.

Lemma C6_resume_idempotent_witness :
  let r1 := run (onMessage host0 (msg_resume row_a None)) s_one in
  continues (r_trace r1) <= 1 /\
  match r_status r1 with
  | Pending c k =>
      continues (r_trace r1) = 1 /\
      id row_a ∈ pendingActions (r_state r1) /\
      (forall m2 rd2 s',
         Message.action m2 = "resume-request" ->
         Message.requestData m2 = Some rd2 -> id rd2 = id row_a ->
         id row_a ∈ pendingActions s' ->
         run (onMessage host0 m2) s' = mkRun s' [] [] (Returned true)) /\
      (forall o s',
         let r2 := run (k o) s' in
         (id row_a ∉ pendingActions (r_state r2)) /\
         continues (r_trace r2) = 0 /\
         r_pool r2 = [] /\
         forall c' k', r_status r2 <> Pending c' k')
  | _ => continues (r_trace r1) = 0 /\ id row_a ∉ pendingActions (r_state r1)
  end.
Proof.
  apply (C6_resume_idempotent host0 (msg_resume row_a None) row_a s_one).
  - reflexivity.
  - reflexivity.
  - apply not_elem_of_empty.
Defined.

(** Resolution of a live correlation whose synthetic row is gone. *)
Lemma signal_without_row (h : Host) m rid d (s : State) :
  is_signal m rid -> nonempty rid = true ->
  replayDataStore s !! rid = Some d ->
  findIndex (ReplayData.replayId d) (requestsStore s) = None ->
  run (onMessage h m) s =
  mkRun
    (with_pendingActions (pendingActions s ∖ {[ReplayData.originalId d]})
       (with_replayDataStore (delete rid (replayDataStore s))
          (with_timers (delete (ReplayData.timeoutId d) (timers s)) (nextTimer s) s)))
    [] [] (Returned true).
Proof.
  intros [[Ha|Ha] Hr] Hne Hlive Hrow; unfold onMessage; rewrite Ha, Hr; cbn;
    unfold live_replay; rewrite Hne, Hlive; cbn; rewrite Hrow; reflexivity.
Qed.

Lemma timeout_without_row (s : State) rid d :
  replayDataStore s !! rid = Some d ->
  timers s !! ReplayData.timeoutId d = Some (deadline_of rid d) ->
  findIndex (ReplayData.replayId d) (requestsStore s) = None ->
  run (onTimeout (ReplayData.timeoutId d)) s =
  mkRun
    (with_pendingActions (pendingActions s ∖ {[ReplayData.originalId d]})
       (with_replayDataStore (delete rid (replayDataStore s))
          (with_timers
             (delete (ReplayData.timeoutId d)
                (delete (ReplayData.timeoutId d) (timers s)))
             (nextTimer s) s)))
    [] [] (Returned tt).
Proof.
  intros Hlive Ht Hrow. unfold onTimeout. cbn. rewrite Ht. cbn.
  rewrite Hlive. cbn. rewrite Hrow. reflexivity.
Qed.

Example ex_replaying :
  replayDataStore s_replaying !! token_a = Some replay_a
  /\ timers s_replaying !! 0%N = Some (deadline_of token_a replay_a)
  /\ map id (requestsStore s_replaying) = ["N1"; "replay-1001"]
  /\ pendingActions s_replaying = {[ "N1" ]}.
Proof. vm_compute. repeat split; reflexivity. Qed.

(** C10. The clear-all command empties the ledger and broadcasts it;
    the correlation map, the pending set and the timers stay as they
    were. A correlation that was live at that time is later resolved
    by a direct signal or by its deadline: the correlation, its timer
    and its pending entry go, and, the synthetic row being absent, the
    ledger stays as it is and nothing is broadcast. *)
Theorem C10_clear_all_frame
    (h : Host) (m : Message.t) (s : State) (rid : string) (d : ReplayData.t) :
  Message.action m = "clear-requests" ->
  nonempty rid = true ->
  replayDataStore s !! rid = Some d ->
  let r := run (onMessage h m) s in
  let s0 := r_state r in
  (requestsStore s0 = [] /\ r_trace r = [OEff (Broadcast [])]
   /\ r_pool r = [] /\ r_status r = Returned true)
  /\ (replayDataStore s0 = replayDataStore s
      /\ pendingActions s0 = pendingActions s
      /\ replayIdToOriginalIdMap s0 = replayIdToOriginalIdMap s
      /\ timers s0 = timers s)
  /\ (replayDataStore s0 !! rid = Some d
      /\ findIndex (ReplayData.replayId d) (requestsStore s0) = None)
  /\ (forall (s1 : State) m',
        replayDataStore s1 !! rid = Some d ->
        findIndex (ReplayData.replayId d) (requestsStore s1) = None ->
        is_signal m' rid ->
        let r' := run (onMessage h m') s1 in
        requestsStore (r_state r') = requestsStore s1
        /\ replayDataStore (r_state r') !! rid = None
        /\ (ReplayData.originalId d ∉ pendingActions (r_state r'))
        /\ timers (r_state r') !! ReplayData.timeoutId d = None
        /\ r_trace r' = [] /\ r_status r' = Returned true)
  /\ (forall (s1 : State),
        replayDataStore s1 !! rid = Some d ->
        findIndex (ReplayData.replayId d) (requestsStore s1) = None ->
        timers s1 !! ReplayData.timeoutId d = Some (deadline_of rid d) ->
        let r' := run (onTimeout (ReplayData.timeoutId d)) s1 in
        requestsStore (r_state r') = requestsStore s1
        /\ replayDataStore (r_state r') !! rid = None
        /\ (ReplayData.originalId d ∉ pendingActions (r_state r'))
        /\ timers (r_state r') !! ReplayData.timeoutId d = None
        /\ r_trace r' = [] /\ r_status r' = Returned tt).
Proof.
  intros Ha Hne Hlive r s0.
  assert (Hr : r = mkRun (with_requestsStore [] s) [OEff (Broadcast [])] []
                     (Returned true)).
  { subst r. unfold onMessage. rewrite Ha. reflexivity. }
  subst s0. rewrite Hr. cbn [r_state r_trace r_pool r_status]. clear Hr r.
  split; [done|]. split; [done|]. split; [done|]. split.
  - intros s1 m' Hl Hrow Hsig.
    rewrite (signal_without_row h m' rid d s1) by done. cbn.
    rewrite !lookup_delete_eq. repeat split; try done. set_solver.
  - intros s1 Hl Hrow Ht.
    rewrite (timeout_without_row s1 rid d) by done. cbn.
    rewrite !lookup_delete_eq. repeat split; try done. set_solver.
Qed.

Lemma C10_clear_all_frame_witness :
  let s0 := r_state (run (onMessage host0 (msg "clear-requests")) s_replaying) in
  requestsStore s0 = []
  /\ replayDataStore s0 !! token_a = Some replay_a
  /\ requestsStore (r_state (run (onMessage host0 (msg_success token_a "HTTP/1.1 200")) s0)) = []
  /\ requestsStore (r_state (run (onTimeout 0) s0)) = [].
Proof.
  destruct (C10_clear_all_frame host0 (msg "clear-requests") s_replaying
              token_a replay_a eq_refl eq_refl eq_refl)
    as ((H1 & _) & _ & (H2 & H3) & Hsig & Htime).
  split; [exact H1|]. split; [exact H2|]. split.
  - destruct (Hsig _ (msg_success token_a "HTTP/1.1 200") H2 H3) as (E & _).
    + split; [left; reflexivity|reflexivity].
    + exact (eq_trans E H1).
  - destruct (Htime _ H2 H3) as (E & _).
    + reflexivity.
    + exact (eq_trans E H1).
Defined.

Lemma replay_match_run (h : Host) (s : State) t params rid d :
  let tab := Npos t in
  let q := Params.requestId params in
  nonempty q = true ->
  isWhitelisted s (PausedRequest.url (Params.request params)) = false ->
  carries params rid -> nonempty rid = true ->
  replayDataStore s !! rid = Some d ->
  let r := run (onEvent h (Some tab) "Fetch.requestPaused" params) s in
  r_state r = matched rid q d s
  /\ r_trace r = [OCall (replay_command tab q d)]
  /\ r_pool r = []
  /\ exists k,
       r_status r = Pending (replay_command tab q d) k
       /\ (forall s', run (k (Resolved tt)) s' = mkRun s' [] [] (Returned tt))
       /\ (forall e s',
             run (k (Rejected e)) s' =
             mkRun (with_pendingActions
                      (pendingActions s' ∖ {[ReplayData.originalId d]})
                      (with_replayIdToOriginalIdMap
                         (delete q (replayIdToOriginalIdMap s')) s'))
               [] [] (Returned tt)).
Proof.
  intros tab q Hq Hwl Htok Hne Hlive r.
  assert (Hrun : r = run (replay_match tab q rid d) s).
  { subst r tab q. unfold carries in Htok.
    unfold onEvent, onEvent_with. cbn [String.eqb Ascii.eqb Bool.eqb negb].
    rewrite Hq. cbn [negb bind get run]. rewrite Hwl, Htok.
    unfold live_replay. by rewrite Hne, Hlive. }
  rewrite Hrun. clear Hrun r. unfold replay_match. cbn.
  split; [done|]. split; [done|]. split; [done|].
  eexists. split; [reflexivity|]. split; reflexivity.
Qed.

Lemma signal_with_row (h : Host) m rid d (s : State) i :
  is_signal m rid -> nonempty rid = true ->
  replayDataStore s !! rid = Some d ->
  findIndex (ReplayData.replayId d) (requestsStore s) = Some i ->
  exists row,
    requestsStore s !! i = Some row /\
    let ledger' := <[i := set_rawResponse (signal_text m) row]> (requestsStore s) in
    run (onMessage h m) s =
    mkRun (resolved rid d (with_requestsStore ledger' s))
      [OEff (Broadcast ledger')] [] (Returned true).
Proof.
  intros [[Ha|Ha] Hr] Hne Hlive Hidx;
    destruct (findIndex_Some _ _ _ Hidx) as (row & Hrow & _);
    exists row; (split; [done|]);
    unfold onMessage, signal_text; rewrite Ha, Hr; cbn;
    unfold live_replay; rewrite Hne, Hlive; cbn; rewrite Hidx; cbn;
    rewrite Hrow; reflexivity.
Qed.

Lemma signal_dead (h : Host) m rid (s : State) :
  is_signal m rid -> replayDataStore s !! rid = None ->
  run (onMessage h m) s = mkRun s [] [] (Returned true).
Proof.
  intros [[Ha|Ha] Hr] Hdead; unfold onMessage; rewrite Ha, Hr; cbn;
    unfold live_replay; rewrite Hdead; by destruct (nonempty rid).
Qed.

Lemma timeout_with_row (s : State) rid d i :
  replayDataStore s !! rid = Some d ->
  timers s !! ReplayData.timeoutId d = Some (deadline_of rid d) ->
  findIndex (ReplayData.replayId d) (requestsStore s) = Some i ->
  exists row,
    requestsStore s !! i = Some row /\
    let ledger' := <[i := set_rawResponse (Some MSG_REPLAY_TIMEOUT) row]>
                     (requestsStore s) in
    requestsStore (r_state (run (onTimeout (ReplayData.timeoutId d)) s)) = ledger'
    /\ r_trace (run (onTimeout (ReplayData.timeoutId d)) s)
       = [OEff (Broadcast ledger')].
Proof.
  intros Hlive Ht Hidx.
  destruct (findIndex_Some _ _ _ Hidx) as (row & Hrow & _).
  exists row. split; [done|].
  unfold onTimeout. cbn. rewrite Ht. cbn. rewrite Hlive. cbn.
  rewrite Hidx. cbn. rewrite Hrow. done.
Qed.

Lemma timeout_removes (s : State) rid d :
  replayDataStore s !! rid = Some d ->
  timers s !! ReplayData.timeoutId d = Some (deadline_of rid d) ->
  let s1 := r_state (run (onTimeout (ReplayData.timeoutId d)) s) in
  replayDataStore s1 !! rid = None
  /\ timers s1 !! ReplayData.timeoutId d = None
  /\ ReplayData.originalId d ∉ pendingActions s1.
Proof.
  intros Hlive Ht. unfold onTimeout. cbn. rewrite Ht. cbn. rewrite Hlive. cbn.
  destruct (findIndex _ _) as [i|] eqn:Hidx; cbn.
  - destruct (findIndex_Some _ _ _ Hidx) as (row & Hrow & _). rewrite Hrow. cbn.
    rewrite !lookup_delete_eq. repeat split; try done. set_solver.
  - rewrite !lookup_delete_eq. repeat split; try done. set_solver.
Qed.

Lemma timeout_dead (s : State) tid :
  timers s !! tid = None -> run (onTimeout tid) s = mkRun s [] [] (Returned tt).
Proof. intros Ht. unfold onTimeout. cbn. by rewrite Ht. Qed.

Lemma event_dead (h : Host) (s : State) t params rid :
  nonempty (Params.requestId params) = true ->
  isWhitelisted s (PausedRequest.url (Params.request params)) = false ->
  carries params rid -> replayDataStore s !! rid = None ->
  run (onEvent h (Some (Npos t)) "Fetch.requestPaused" params) s =
  run (route (applyProxyToRequest h) h (Npos t) params s) s.
Proof.
  intros Hq Hwl Htok Hdead. unfold carries in Htok.
  unfold onEvent, onEvent_with. cbn [String.eqb Ascii.eqb Bool.eqb negb].
  rewrite Hq. cbn [negb bind get run]. rewrite Hwl, Htok.
  unfold live_replay. rewrite Hdead. by destruct (nonempty rid).
Qed.

(** C1. The code at the failing input: the correlation of the replay
    of row N1 was live, its deadline fired first and removed it, and
    the pause event of the replayed exchange, which carries the token
    and arrives after that, finds no live correlation and yet changes
    the ledger: it is routed as a new exchange and a third row is
    added, where C1 has a completion path that arrives late leave the
    ledger unchanged. *)
Theorem C1_late_pause_event_adds_row :
  let r := run_all env_ok
             (onEvent host0 (Some 1%N) "Fetch.requestPaused" (ev_replayed "I7"))
             s_timed_out in
  replayDataStore s_replaying !! token_a = Some replay_a
  /\ replayDataStore s_timed_out !! token_a = None
  /\ carries (ev_replayed "I7") token_a
  /\ map id (requestsStore s_timed_out) = ["N1"; "replay-1001"]
  /\ map id (requestsStore (r_state r)) = ["N1"; "replay-1001"; "N7"]
  /\ requestsStore (r_state r) <> requestsStore s_timed_out.
Proof. vm_compute. repeat split; try reflexivity. discriminate. Qed.

(** The other parts of C1 hold. For a live correlation with its
    deadline armed: a matching pause event for a URL that is not
    whitelisted, a direct signal and the deadline each remove the
    correlation from the live map and cancel its timer; a direct
    signal writes its text, and the deadline the timeout message, on
    the synthetic row when that row is in the ledger. Once the
    correlation is gone and its timer cancelled, a direct signal and
    the deadline do nothing at all: the state is left as it is and
    nothing is observed. *)
Theorem C1_first_completion_wins
    (h : Host) (s : State) (rid : string) (d : ReplayData.t) :
  nonempty rid = true ->
  replayDataStore s !! rid = Some d ->
  timers s !! ReplayData.timeoutId d = Some (deadline_of rid d) ->
  (forall t params,
     nonempty (Params.requestId params) = true ->
     isWhitelisted s (PausedRequest.url (Params.request params)) = false ->
     carries params rid ->
     let s1 := r_state (run (onEvent h (Some (Npos t)) "Fetch.requestPaused" params) s) in
     replayDataStore s1 !! rid = None
     /\ timers s1 !! ReplayData.timeoutId d = None
     /\ requestsStore s1 = requestsStore s)
  /\ (forall m,
        is_signal m rid ->
        let s1 := r_state (run (onMessage h m) s) in
        replayDataStore s1 !! rid = None
        /\ timers s1 !! ReplayData.timeoutId d = None
        /\ forall i, findIndex (ReplayData.replayId d) (requestsStore s) = Some i ->
             exists row, requestsStore s !! i = Some row /\
               requestsStore s1
               = <[i := set_rawResponse (signal_text m) row]> (requestsStore s))
  /\ (let s1 := r_state (run (onTimeout (ReplayData.timeoutId d)) s) in
      replayDataStore s1 !! rid = None
      /\ timers s1 !! ReplayData.timeoutId d = None
      /\ forall i, findIndex (ReplayData.replayId d) (requestsStore s) = Some i ->
           exists row, requestsStore s !! i = Some row /\
             requestsStore s1
             = <[i := set_rawResponse (Some MSG_REPLAY_TIMEOUT) row]> (requestsStore s))
  /\ (forall s' : State,
        replayDataStore s' !! rid = None ->
        timers s' !! ReplayData.timeoutId d = None ->
        (forall m, is_signal m rid ->
           run (onMessage h m) s' = mkRun s' [] [] (Returned true))
        /\ run (onTimeout (ReplayData.timeoutId d)) s' = mkRun s' [] [] (Returned tt)).
Proof.
  intros Hne Hlive Ht. split; [|split; [|split]].
  - intros t params Hq Hwl Htok s1. subst s1.
    destruct (replay_match_run h s t params rid d Hq Hwl Htok Hne Hlive)
      as (-> & _). cbn.
    by rewrite !lookup_delete_eq.
  - intros m Hsig s1. subst s1.
    destruct (findIndex (ReplayData.replayId d) (requestsStore s)) as [i|] eqn:Hidx.
    + destruct (signal_with_row h m rid d s i Hsig Hne Hlive Hidx)
        as (row & Hrow & ->). cbn. rewrite !lookup_delete_eq.
      split; [done|]. split; [done|]. intros i' [= <-]. by exists row.
    + rewrite (signal_without_row h m rid d s) by done. cbn.
      by rewrite !lookup_delete_eq.
  - destruct (timeout_removes s rid d Hlive Ht) as (H1 & H2 & _).
    split; [done|]. split; [done|]. intros i Hidx.
    destruct (timeout_with_row s rid d i Hlive Ht Hidx) as (row & Hrow & H3 & _).
    by exists row.
  - intros s' Hdead Hoff. split.
    + intros m Hsig. by apply (signal_dead h m rid).
    + by apply timeout_dead.
Qed.

Lemma C1_first_completion_wins_witness :
  let s1 := r_state (run (onTimeout 0) s_replaying) in
  replayDataStore s1 !! token_a = None
  /\ timers s1 !! 0%N = None
  /\ exists row, requestsStore s_replaying !! 1%nat = Some row /\
       requestsStore s1
       = <[1%nat := set_rawResponse (Some MSG_REPLAY_TIMEOUT) row]>
           (requestsStore s_replaying).
Proof.
  destruct (C1_first_completion_wins host0 s_replaying token_a replay_a
              eq_refl eq_refl eq_refl)
    as (_ & _ & (H1 & H2 & H3) & _).
  split; [exact H1|]. split; [exact H2|]. exact (H3 1%nat eq_refl).
Defined.




End ReplayFacts.

Module LogicFacts.
Import Async Logic.

Section Rules.
Context {S E C : Type} {ret : C -> Type}.
Variable Res : S -> Prop.
Variable G : S -> S -> Prop.
Abbreviation Prog := (Async.Prog S E C ret).

Lemma wp_mono {A} (p : Prog A) Q Q' F F' (W W' : S -> S -> Prop) b s0 s :
  (forall b' a s0' s', (b = true -> b' = true) -> Q b' a s0' s' -> Q' b' a s0' s') ->
  (forall b' m s0' s', (b = true -> b' = true) -> F b' m s0' s' -> F' b' m s0' s') ->
  (b = false -> forall s0' s', W s0' s' -> W' s0' s') ->
  wp Res G p Q F W b s0 s -> wp Res G p Q' F' W' b s0 s.
Proof.
  revert Q Q' F F' W W' b s0 s.
  induction p as [A a|A m|A k IH|A s' k IH|A e k IH|A c k IH|A p1 IH1 k IH2];
    intros Q Q' F F' W W' b s0 s HQ HF HW; cbn.
  - by apply HQ.
  - by apply HF.
  - by apply IH.
  - by apply IH.
  - by apply IH.
  - intros [H1 H2]. split.
    + destruct b; [done|]. by apply HW.
    + intros o s' Hs'. eapply IH; [..|by apply H2]; try done.
      * intros b' a s0' s'' Hb. apply HQ. intros _. by apply Hb.
      * intros b' m s0' s'' Hb. apply HF. intros _. by apply Hb.
  - assert (forall s0' s1, wp Res G k Q F W b s0' s1 -> wp Res G k Q' F' W' b s0' s1)
      as HK.
    { intros s0' s1. by apply IH2. }
    apply IH1.
    + intros [] _ s0' s1 _; [done|apply HK].
    + intros [] _ s0' s1 _; [done|apply HK].
    + intros _. apply HK.
Qed.

Lemma wp_bind {A B} (p : Prog A) (f : A -> Prog B) Q F W b s0 s :
  wp Res G p (fun b' a s0' s1 => wp Res G (f a) Q F W b' s0' s1) F W b s0 s ->
  wp Res G (bind p f) Q F W b s0 s.
Proof.
  revert Q F W b s0 s.
  induction p as [A a|A m|A k IH|A s' k IH|A e k IH|A c k IH|A p1 IH1 k IH2];
    intros Q F W b s0 s; cbn; try done; eauto.
  - intros [H1 H2]. split; [done|]. intros o s' Hs'. apply IH. by apply H2.
  - apply wp_mono.
    + intros [] _ s0' s1 _; [done|apply IH2].
    + intros [] _ s0' s1 _; [done|apply IH2].
    + intros _ s0' s1. apply IH2.
Qed.

Lemma wp_try_catch {A} (p : Prog A) (h : string -> Prog A) Q F W b s0 s :
  wp Res G p Q (fun b' m s0' s1 => wp Res G (h m) Q F W b' s0' s1) W b s0 s ->
  wp Res G (try_catch p h) Q F W b s0 s.
Proof.
  revert Q F W b s0 s.
  induction p as [A a|A m|A k IH|A s' k IH|A e k IH|A c k IH|A p1 IH1 k IH2];
    intros Q F W b s0 s; cbn; try done; eauto.
  - intros [H1 H2]. split; [done|]. intros o s' Hs'. apply IH. by apply H2.
  - apply wp_mono.
    + intros [] _ s0' s1 _; [done|apply IH2].
    + intros [] _ s0' s1 _; [done|apply IH2].
    + intros _ s0' s1. apply IH2.
Qed.

Lemma wp_try_finally {A} (p : Prog A) (fin : Prog unit) Q F W b s0 s :
  wp Res G p
    (fun b' a s0' s1 => wp Res G fin (fun b'' _ => Q b'' a) F W b' s0' s1)
    (fun b' m s0' s1 => wp Res G fin (fun b'' _ => F b'' m) F W b' s0' s1)
    W b s0 s ->
  wp Res G (try_finally p fin) Q F W b s0 s.
Proof.
  intros H. unfold try_finally.
  apply wp_bind, wp_try_catch, wp_bind.
  eapply wp_mono; [| | |exact H]; cbn.
  - intros b' a s0' s' _ H'. apply wp_bind. eapply wp_mono; [| | |exact H']; done.
  - intros b' m s0' s' _ H'. apply wp_bind. eapply wp_mono; [| | |exact H']; done.
  - done.
Qed.

(** *** Tasks that meet the guarantee *)

Lemma preserves_ret {A} (a : A) : preserves Res G (Ret a : Prog A).
Proof. by intros b s0 s Hs. Qed.

Lemma preserves_throw {A} m : preserves Res G (Throw m : Prog A).
Proof. by intros b s0 s Hs. Qed.

Lemma preserves_bind {A B} (p : Prog A) (f : A -> Prog B) :
  preserves Res G p -> (forall a, preserves Res G (f a)) ->
  preserves Res G (bind p f).
Proof.
  intros Hp Hf b s0 s Hs. apply wp_bind.
  eapply wp_mono; [| | |by apply Hp]; try done.
  intros b' a s0' s' _ Hs'. by apply Hf.
Qed.

Lemma preserves_try_catch {A} (p : Prog A) h :
  preserves Res G p -> (forall m, preserves Res G (h m)) ->
  preserves Res G (try_catch p h).
Proof.
  intros Hp Hh b s0 s Hs. apply wp_try_catch.
  eapply wp_mono; [| | |by apply Hp]; try done.
  intros b' a s0' s' _ Hs'. by apply Hh.
Qed.

Lemma preserves_try_finally {A} (p : Prog A) fin :
  preserves Res G p -> preserves Res G fin ->
  preserves Res G (try_finally p fin).
Proof.
  intros Hp Hf b s0 s Hs. apply wp_try_finally.
  eapply wp_mono; [| | |by apply Hp]; try done.
  - intros b' a s0' s' _ Hs'. by apply Hf.
  - intros b' a s0' s' _ Hs'. by apply Hf.
Qed.

Lemma preserves_read {A} (f : S -> Prog A) :
  (forall s1, preserves Res G (f s1)) -> preserves Res G (bind get f).
Proof. intros H b s0 s Hs. cbn. by apply H. Qed.

Lemma preserves_modify (f : S -> S) :
  (forall s0 s, G s0 s -> G s0 (f s)) -> preserves Res G (modify f : Prog unit).
Proof. intros H b s0 s Hs. cbn. by apply H. Qed.

Lemma preserves_emit (e : E) : preserves Res G (emit e : Prog unit).
Proof. by intros b s0 s Hs. Qed.

Section Resumed.
(** A task is resumed in a state from which a segment may start. *)
Hypothesis Res_G : forall s, Res s -> G s s.

Lemma preserves_await (c : C) : preserves Res G (await c : Prog (ret c)).
Proof.
  intros b s0 s Hs. cbn. split; [by destruct b|].
  intros [x|m] s' Hs'; cbn; by apply Res_G.
Qed.

Lemma preserves_await_k {A} (c : C) (k : Outcome (ret c) -> Prog A) :
  (forall o, preserves Res G (k o)) -> preserves Res G (Await c k).
Proof.
  intros H b s0 s Hs. cbn. split; [by destruct b|].
  intros o s' Hs'. by apply H, Res_G.
Qed.

End Resumed.

(** Inside a task that meets the guarantee, once it has been
    resumed. *)
Lemma preserves_wp {A} (p : Prog A) Q F (W : S -> S -> Prop) s0 s :
  preserves Res G p ->
  (forall a s0' s', G s0' s' -> Q true a s0' s') ->
  (forall m s0' s', G s0' s' -> F true m s0' s') ->
  G s0 s -> wp Res G p Q F W true s0 s.
Proof.
  intros Hp HQ HF Hs. eapply wp_mono; [| | |by apply (Hp true)]; try done.
  - intros b' a s0' s' Hb. rewrite (Hb eq_refl). apply HQ.
  - intros b' m s0' s' Hb. rewrite (Hb eq_refl). apply HF.
Qed.

(** *** Soundness: what a segment leaves behind *)

(** Induction on the tasks whose result is a small type, as those
    that [run] takes. *)
Lemma Prog_ind_Set (P : forall A : Set, Prog A -> Prop) :
  (forall (A : Set) (a : A), P A (Ret a)) ->
  (forall (A : Set) m, P A (Throw m)) ->
  (forall (A : Set) k, (forall s, P A (k s)) -> P A (Get k)) ->
  (forall (A : Set) s k, P A k -> P A (Put s k)) ->
  (forall (A : Set) e k, P A k -> P A (Emit e k)) ->
  (forall (A : Set) c k, (forall o, P A (k o)) -> P A (Await c k)) ->
  (forall (A : Set) p, P unit p -> forall k, P A k -> P A (Spawn p k)) ->
  forall (A : Set) (p : Prog A), P A p.
Proof.
  intros HRet HThrow HGet HPut HEmit HAwait HSpawn.
  fix IH 2. intros A p. destruct p as [a|m|k|s k|e k|c k|p k].
  - apply HRet.
  - apply HThrow.
  - apply HGet. intros s. apply IH.
  - apply HPut, IH.
  - apply HEmit, IH.
  - apply HAwait. intros o. apply IH.
  - apply HSpawn; apply IH.
Qed.

Lemma resumable_mono {A} {c : C} (k : Outcome (ret c) -> Prog A) Q F W :
  (forall a s0 s, Q true a s0 s -> G s0 s) ->
  (forall m s0 s, F true m s0 s -> G s0 s) ->
  (forall o s, Res s -> wp Res G (k o) Q F W true s s) -> resumable Res G k.
Proof.
  intros HQ HF H o s Hs. eapply wp_mono; [| | |by apply H]; try done.
  - intros b' a s0' s' Hb. rewrite (Hb eq_refl). apply HQ.
  - intros b' m s0' s' Hb. rewrite (Hb eq_refl). apply HF.
Qed.

Lemma wp_run {A : Set} (p : Prog A) Q F W b s0 s :
  wp Res G p Q F W b s0 s ->
  let r := run p s in
  match r_status r with
  | Returned a => Q b a s0 (r_state r)
  | Failed m => F b m s0 (r_state r)
  | Pending c k =>
      (if b then G s0 (r_state r) else W s0 (r_state r)) /\
      forall o s', Res s' -> wp Res G (k o) Q F W true s' s'
  end
  /\ Forall (fun d => resumable Res G (d_k d)) (r_pool r).
Proof.
  revert A p Q F W b s0 s.
  apply (Prog_ind_Set (fun A p => forall Q F W b s0 s,
                                    wp Res G p Q F W b s0 s -> _));
    [intros A a|intros A m|intros A k IH|intros A s' k IH|intros A e k IH
    |intros A c k IH|intros A p1 IH1 k IH2];
    intros Q F W b s0 s; cbn; try done; eauto.
  - intros H. destruct (IH1 _ _ _ _ _ _ H) as [H1 P1]. clear IH1 H.
    set (r1 := run p1 s) in *.
    assert (wp Res G k Q F W b s0 (r_state r1)
            /\ Forall (fun d => resumable Res G (d_k d)) (leftover r1)) as [HK L1].
    { unfold leftover. destruct (r_status r1) as [a|m|c k1]; cbn.
      - split; [done|]. by rewrite app_nil_r.
      - split; [done|]. by rewrite app_nil_r.
      - destruct H1 as [H1 H2]. split; [done|].
        apply Forall_app. split; [done|]. apply Forall_singleton; cbn.
        by eapply resumable_mono; [| |exact H2]. }
    destruct (IH2 _ _ _ _ _ _ HK) as [H2 P2].
    split; [done|]. by apply Forall_app.
Qed.

End Rules.
End LogicFacts.

Module InvariantFacts.
Import Js Async Async.Notations Background Expected Logic LogicFacts EventLoop Invariants.

(** Walk through a handler, one construct at a time. *)
Ltac walk1 :=
  lazymatch goal with
  | |- preserves ?R ?G (Ret ?a) => exact (preserves_ret R G a)
  | |- preserves ?R ?G (Throw ?m) => exact (preserves_throw R G m)
  | |- preserves ?R ?G (await ?c) => refine (preserves_await R G _ c)
  | |- preserves ?R ?G (Await ?c ?k) => refine (preserves_await_k R G _ c k _)
  | |- preserves ?R ?G (emit ?e) => exact (preserves_emit R G e)
  | |- preserves ?R ?G (bind get ?f) => refine (preserves_read R G f _)
  | |- preserves ?R ?G (bind ?p ?f) => refine (preserves_bind R G p f _ _)
  | |- preserves ?R ?G (try_catch ?p ?h) => refine (preserves_try_catch R G p h _ _)
  | |- preserves ?R ?G (try_finally ?p ?f) => refine (preserves_try_finally R G p f _ _)
  | |- preserves ?R ?G (match ?x with _ => _ end) => destruct x
  | |- preserves _ _ _ => solve [eauto with nocore inv]
  | |- forall s, _ -> _ => solve [eauto with nocore inv]
  | |- _ => progress intros
  end.
Ltac walk := repeat walk1.

(** *** Rows *)

Lemma keeps_refl r : keeps r r.
Proof. by repeat split. Qed.

Lemma keeps_trans r1 r2 r3 : keeps r1 r2 -> keeps r2 r3 -> keeps r1 r3.
Proof.
  intros (?&?&?&?&?&?&?) (?&?&?&?&?&?&?).
  repeat split; try congruence. auto.
Qed.

Lemma extends_refl l : extends l l.
Proof.
  exists l, []. split; [by rewrite app_nil_r|].
  apply Forall2_same_length_lookup_2; [done|].
  intros i x y Hx Hy. assert (x = y) as -> by congruence. apply keeps_refl.
Qed.

Lemma extends_trans l1 l2 l3 : extends l1 l2 -> extends l2 l3 -> extends l1 l3.
Proof.
  intros (a & b & -> & Ha) (c & d & -> & Hc).
  apply Forall2_app_inv_l in Hc as (c1 & c2 & Hc1 & Hc2 & ->).
  exists c1, (c2 ++ d). split; [by rewrite app_assoc|].
  clear Hc2. revert c1 Hc1.
  induction Ha as [|x y l l' Hxy _ IH]; intros c1 Hc1.
  - by inversion Hc1.
  - inversion Hc1 as [|? z ? c1' Hyz Hc1']; subst.
    constructor; [by eapply keeps_trans|by apply IH].
Qed.

Lemma extends_push l r : extends l (l ++ [r]).
Proof.
  exists l, [r]. split; [done|].
  destruct (extends_refl l) as (l1 & l2 & E & H).
  assert (length l = length l1) as Hlen by by eapply Forall2_length.
  assert (l2 = []) as ->.
  { apply (f_equal length) in E. rewrite length_app in E.
    destruct l2; [done|cbn in E; lia]. }
  rewrite app_nil_r in E. by subst.
Qed.

Lemma extends_update l i r r' :
  l !! i = Some r -> keeps r r' -> extends l (<[i := r']> l).
Proof.
  intros Hi Hk. exists (<[i := r']> l), []. split; [by rewrite app_nil_r|].
  rewrite <- (list_insert_id l i r Hi) at 1.
  apply Forall2_insert; [|done].
  destruct (extends_refl l) as (l1 & l2 & E & H).
  assert (length l = length l1) as Hlen by by eapply Forall2_length.
  assert (l2 = []) as ->.
  { apply (f_equal length) in E. rewrite length_app in E.
    destruct l2; [done|cbn in E; lia]. }
  rewrite app_nil_r in E. by subst.
Qed.

Lemma keeping_keeps f r : keeping f -> keeps r (f r).
Proof. by destruct 1; repeat split. Qed.

(** *** The parts of the handlers that touch only the ledger, the
    pending set, the id map and the mode *)
Section Generic.
Variable Res : State -> Prop.
Variable G : State -> State -> Prop.
Hypothesis Res_G : forall s, Res s -> G s s.
Hypothesis G_ledger :
  forall s0 s l, G s0 s -> extends (requestsStore s) l -> G s0 (with_requestsStore l s).
Hypothesis G_pending : forall s0 s v, G s0 s -> G s0 (with_pendingActions v s).
Hypothesis G_origin : forall s0 s v, G s0 s -> G s0 (with_replayIdToOriginalIdMap v s).
Hypothesis G_mode : forall s0 s v, G s0 s -> G s0 (with_mode v s).

Create HintDb inv discriminated.
Hint Resolve Res_G : inv.

Abbreviation ok := (preserves Res G).

Lemma pending_add_preserves i : ok (pending_add i).
Proof. apply preserves_modify. intros s0 s Hs. by apply G_pending. Qed.
Lemma pending_delete_preserves i : ok (pending_delete i).
Proof. apply preserves_modify. intros s0 s Hs. by apply G_pending. Qed.
Lemma origin_set_preserves k v : ok (origin_set k v).
Proof. apply preserves_modify. intros s0 s Hs. by apply G_origin. Qed.
Lemma origin_delete_preserves k : ok (origin_delete k).
Proof. apply preserves_modify. intros s0 s Hs. by apply G_origin. Qed.

Lemma update_row_preserves i f : keeping f -> ok (update_row i f).
Proof.
  intros Hf b s0 s Hs. unfold update_row. cbn.
  destruct (requestsStore s !! i) as [r|] eqn:Hi; cbn; [|done].
  apply G_ledger; [done|]. apply (extends_update _ _ r); [done|].
  by apply keeping_keeps.
Qed.

Lemma push_row_preserves r : ok (push_row r).
Proof.
  apply preserves_modify. intros s0 s Hs. apply G_ledger; [done|]. apply extends_push.
Qed.

Lemma broadcast_preserves : ok broadcastRequestsUpdate.
Proof. unfold broadcastRequestsUpdate. walk. Qed.

Lemma continueRequest_preserves tab q : ok (continueRequest tab q).
Proof. unfold continueRequest. walk. Qed.

Lemma processContent_preserves c sc u q : ok (processContent c sc u q).
Proof. unfold processContent. walk. Qed.

Hint Resolve pending_add_preserves pending_delete_preserves origin_set_preserves
  origin_delete_preserves update_row_preserves push_row_preserves
  broadcast_preserves continueRequest_preserves processContent_preserves
  keeping_requestId keeping_rawResponse keeping_finished keeping_responseHeaders
  : inv.

Lemma processHeaders_preserves sc hs u q : ok (processHeaders sc hs u q).
Proof. induction hs as [|h hs IH]; cbn [processHeaders]; walk. Qed.
Hint Resolve processHeaders_preserves : inv.

Lemma header_loop_preserves entries u q raw hs :
  ok (header_loop entries u q raw hs).
Proof.
  revert raw hs. induction entries as [|[key v] entries IH]; intros raw hs;
    cbn [header_loop]; walk.
Qed.
Hint Resolve header_loop_preserves : inv.

Lemma insert_exchange_preserves tab params uid raw hs :
  ok (insert_exchange tab params uid raw hs).
Proof. unfold insert_exchange. walk. Qed.
Hint Resolve insert_exchange_preserves : inv.

Lemma new_exchange_preserves tab params uid : ok (new_exchange tab params uid).
Proof.
  unfold new_exchange, processUrl, processRequestBody. walk.
Qed.

Lemma response_stage_preserves h tab params uid rh i :
  ok (response_stage h tab params uid rh i).
Proof.
  unfold response_stage, processResponseHeaders, processResponseBody, of_outcome.
  walk.
Qed.

Lemma applyProxy_preserves h q req tab : ok (applyProxyToRequest h q req tab).
Proof.
  unfold applyProxyToRequest, loadProxySettings, loadProxyState, setChromeProxy.
  walk.
Qed.

Hint Resolve new_exchange_preserves response_stage_preserves applyProxy_preserves : inv.

Lemma route_preserves h tab params s1 :
  ok (route (applyProxyToRequest h) h tab params s1).
Proof. unfold route. walk. Qed.

Lemma finish_row_preserves i text : ok (finish_row i text).
Proof. unfold finish_row. walk. Qed.
Hint Resolve route_preserves finish_row_preserves : inv.

Lemma resume_request_preserves rd raw hs : ok (resume_request rd raw hs).
Proof. unfold resume_request, parse_js. walk. Qed.

Lemma set_mode_preserves m : ok (set_mode m).
Proof.
  unfold set_mode. walk. apply preserves_modify. intros s0 s Hs. by apply G_mode.
Qed.

Hint Resolve resume_request_preserves set_mode_preserves : inv.

(** *** The parts that arm, fire and cancel a replay deadline *)
Hypothesis G_arm :
  forall s0 s rid d, G s0 s -> ReplayData.timeoutId d = nextTimer s ->
    G s0 (with_replayDataStore (<[rid := d]> (replayDataStore s))
            (with_timers (<[nextTimer s := deadline_of rid d]> (timers s))
               (N.succ (nextTimer s)) s)).
Hypothesis G_resolve :
  forall s0 s rid d, G s0 s -> replayDataStore s !! rid = Some d ->
    G s0 (with_replayDataStore (delete rid (replayDataStore s))
            (with_timers (delete (ReplayData.timeoutId d) (timers s)) (nextTimer s) s)).
Hypothesis G_fire :
  forall s0 s t dl, G s0 s -> timers s !! t = Some dl ->
    replayDataStore s !! Deadline.replayId dl = None ->
    G s0 (with_timers (delete t (timers s)) (nextTimer s) s).
Hypothesis G_fire_resolve :
  forall s0 s t dl d, G s0 s -> timers s !! t = Some dl ->
    replayDataStore s !! Deadline.replayId dl = Some d ->
    G s0 (with_replayDataStore (delete (Deadline.replayId dl) (replayDataStore s))
            (with_timers (delete (ReplayData.timeoutId d) (delete t (timers s)))
               (nextTimer s) s)).

#[local] Arguments with_requestsStore : simpl never.
#[local] Arguments with_pendingActions : simpl never.
#[local] Arguments with_replayDataStore : simpl never.
#[local] Arguments with_replayIdToOriginalIdMap : simpl never.
#[local] Arguments with_timers : simpl never.
#[local] Arguments with_mode : simpl never.
#[local] Arguments findIndex : simpl never.
#[local] Arguments RawRequest.parseRawRequest : simpl never.
#[local] Arguments headersArrayToObject : simpl never.
#[local] Arguments cleanupReplayState : simpl never.

Abbreviation meets p b s0 s :=
  (wp Res G p (fun _ _ => G) (fun _ _ => G) G b s0 s).

Lemma live_replay_Some s x rid d :
  live_replay s x = Some (rid, d) -> replayDataStore s !! rid = Some d.
Proof.
  unfold live_replay. destruct x as [r|]; [|done].
  destruct (nonempty r); [|done].
  destruct (replayDataStore s !! r) eqn:E; [|done]. by intros [= <- <-].
Qed.

Lemma replay_match_wp tab q rid d b s0 s :
  G s0 s -> replayDataStore s !! rid = Some d ->
  meets (replay_match tab q rid d) b s0 s.
Proof.
  intros Hs Hd. cbn.
  assert (G s0 (with_pendingActions
               ({[ReplayData.originalId d]} ∪ pendingActions s)
               (with_replayIdToOriginalIdMap
                  (<[q := ReplayData.originalId d]> (replayIdToOriginalIdMap s))
                  (with_replayDataStore (delete rid (replayDataStore s))
                     (with_timers (delete (ReplayData.timeoutId d) (timers s))
                        (nextTimer s) s))))) as H.
  { by apply G_pending, G_origin, G_resolve. }
  split; [by destruct b|].
  intros [[]|m] s' Hs'; cbn; [by apply Res_G|]. by apply G_pending, G_origin, Res_G.
Qed.

Lemma replay_signal_preserves rid text : ok (replay_signal rid text).
Proof.
  intros b s0 s Hs. unfold replay_signal.
  change (meets (match live_replay s rid with
                 | Some (rid0, data) =>
                     match findIndex (ReplayData.replayId data) (requestsStore s) with
                     | Some requestIndex =>
                         update_row requestIndex (set_rawResponse text) >>
                         broadcastRequestsUpdate
                     | None => Ret tt
                     end >>
                     clearTimeout (ReplayData.timeoutId data) >>
                     replay_delete rid0 >>
                     pending_delete (ReplayData.originalId data)
                 | None => Ret tt
                 end) b s0 s).
  destruct (live_replay s rid) as [[rid0 d]|] eqn:Hl; [|done].
  apply live_replay_Some in Hl.
  destruct (findIndex (ReplayData.replayId d) (requestsStore s)) as [i|].
  - unfold update_row. cbn.
    destruct (requestsStore s !! i) as [r|] eqn:Hi; cbn; [|done].
    apply G_pending.
    apply (G_resolve s0
             (with_requestsStore (<[i:=set_rawResponse text r]> (requestsStore s)) s));
      [|done].
    apply G_ledger; [done|]. apply (extends_update _ _ r); [done|].
    apply keeping_keeps. constructor.
  - cbn. apply G_pending. exact (G_resolve s0 s rid0 d Hs Hl).
Qed.

Lemma cleanupReplayState_preserves rid rrid oid updateUI response :
  ok (cleanupReplayState rid rrid oid updateUI response).
Proof.
  intros b s0 s Hs. unfold cleanupReplayState.
  change (meets (match replayDataStore s !! rid with
                 | Some data =>
                     clearTimeout (ReplayData.timeoutId data) >>
                     replay_delete rid >>
                     (if updateUI
                      then
                        let* s' := get in
                        match findIndex rrid (requestsStore s') with
                        | Some requestIndex =>
                            update_row requestIndex
                              (set_rawResponse
                                 (if truthy response then response
                                  else Some MSG_REPLAY_DEFAULT)) >>
                            broadcastRequestsUpdate
                        | None => Ret tt
                        end
                      else Ret tt)
                 | None => Ret tt
                 end >> pending_delete oid) b s0 s).
  destruct (replayDataStore s !! rid) as [d|] eqn:Hd.
  - pose proof (G_resolve s0 s rid d Hs Hd) as H1.
    destruct updateUI; cbn.
    + match goal with
      | |- context [findIndex rrid ?l] => destruct (findIndex rrid l) as [i|]
      end; cbn.
      * unfold update_row. cbn.
        match goal with
        | |- context [?l !! i] => destruct (l !! i) as [r|] eqn:Hi
        end; cbn.
        -- apply G_pending. apply G_ledger; [done|].
           apply (extends_update _ _ r); [done|].
           apply keeping_keeps. constructor.
        -- done.
      * by apply G_pending.
    + by apply G_pending.
  - cbn. by apply G_pending.
Qed.

Lemma onTimeout_preserves t : ok (onTimeout t).
Proof.
  intros b s0 s Hs. unfold onTimeout.
  change (meets (match timers s !! t with
                 | Some d =>
                     put (with_timers (delete t (timers s)) (nextTimer s) s) >>
                     cleanupReplayState (Deadline.replayId d)
                       (Deadline.replayRequestId d) (Deadline.originalId d) true
                       (Some MSG_REPLAY_TIMEOUT)
                 | None => Ret tt
                 end) b s0 s).
  destruct (timers s !! t) as [dl|] eqn:Ht; [|done].
  unfold cleanupReplayState.
  set (s1 := with_timers (delete t (timers s)) (nextTimer s) s).
  change (meets (match replayDataStore s !! Deadline.replayId dl with
                 | Some data =>
                     clearTimeout (ReplayData.timeoutId data) >>
                     replay_delete (Deadline.replayId dl) >>
                     (let* s' := get in
                      match findIndex (Deadline.replayRequestId dl) (requestsStore s') with
                      | Some requestIndex =>
                          update_row requestIndex
                            (set_rawResponse (Some MSG_REPLAY_TIMEOUT)) >>
                          broadcastRequestsUpdate
                      | None => Ret tt
                      end)
                 | None => Ret tt
                 end >> pending_delete (Deadline.originalId dl)) b s0 s1).
  destruct (replayDataStore s !! Deadline.replayId dl) as [d|] eqn:Hd.
  - pose proof (G_fire_resolve s0 s t dl d Hs Ht Hd) as H1. cbn.
    match goal with
    | |- context [findIndex _ ?l] => destruct (findIndex (Deadline.replayRequestId dl) l) as [i|]
    end; cbn.
    + unfold update_row. cbn.
      match goal with
      | |- context [?l !! i] => destruct (l !! i) as [r|] eqn:Hi
      end; cbn.
      * apply G_pending. apply G_ledger; [exact H1|].
        apply (extends_update _ _ r); [done|].
        apply keeping_keeps. constructor.
      * exact H1.
    + apply G_pending. exact H1.
  - cbn. apply G_pending. exact (G_fire s0 s t dl Hs Ht Hd).
Qed.

Lemma replay_request_preserves h rd raw hs : ok (replay_request h rd raw hs).
Proof.
  intros b s0 s Hs. unfold replay_request.
  change (meets (if decide (id rd ∈ pendingActions s) then Ret true else
                 pending_add (id rd) >>
                 let replayId := pretty (now_token h) +:+ "-" +:+ random h in
                 let* parsed := parse_js raw in
                 let url := RawRequest.url parsed in
                 let method := RawRequest.method parsed in
                 let postData := RawRequest.postData parsed in
                 let requestHeaders := default [] hs in
                 let replayRequestId := "replay-" +:+ pretty (now_row h) in
                 let replayRequest :=
                   mkTx replayRequestId (tabId rd) ("replay-" +:+ requestId rd)
                     (RequestInfo.mk url method (headersArrayToObject requestHeaders) None)
                     (default "" raw) None finished false requestHeaders None in
                 push_row replayRequest >>
                 let* timeoutId := setTimeout (Deadline.mk replayId replayRequestId (id rd)) in
                 replay_set replayId
                   (ReplayData.mk (id rd) replayRequestId requestHeaders postData timeoutId) >>
                 let injection := mkInjection url method replayId postData requestHeaders in
                 broadcastRequestsUpdate >>
                 spawn
                   (try_catch (executeScript (tabId rd) injection)
                      (fun _ =>
                         try_catch
                           (let* tabs := queryActiveTab in
                            match tabs with
                            | Some (Npos a) :: _ => executeScript (Npos a) injection
                            | _ => Throw "No active tab found to initiate replay."
                            end)
                           (fun _ =>
                              cleanupReplayState replayId replayRequestId (id rd)
                                true (Some MSG_REPLAY_INJECT)))) >>
                 Ret true) b s0 s).
  destruct (decide (id rd ∈ pendingActions s)); [done|].
  destruct raw as [raw|]; cbn; [|by apply G_pending].
  set (rid := pretty (now_token h) +:+ "-" +:+ random h).
  set (rrid := "replay-" +:+ pretty (now_row h)).
  set (row := mkTx _ _ _ _ _ _ _ _ _ _).
  set (s1 := with_requestsStore (requestsStore (with_pendingActions _ s) ++ [row])
               (with_pendingActions _ s)).
  assert (G s0 s1) as H1.
  { apply G_ledger; [by apply G_pending|]. apply extends_push. }
  set (d := ReplayData.mk (id rd) rrid (default [] hs)
              (RawRequest.postData (RawRequest.parseRawRequest raw)) (nextTimer s1)).
  pose proof (G_arm s0 s1 rid d H1 eq_refl) as H2.
  split; [exact H2|].
  assert (forall Q F W s2, (forall a s0' s', G s0' s' -> Q true a s0' s') ->
            (forall m s0' s', G s0' s' -> F true m s0' s') -> Res s2 ->
            wp Res G (cleanupReplayState rid rrid (id rd) true (Some MSG_REPLAY_INJECT))
              Q F W true s2 s2) as Hc.
  { intros Q F W s2 HQ HF Hs2.
    apply (preserves_wp Res G); [apply cleanupReplayState_preserves|done|done|].
    by apply Res_G. }
  intros [[]|m] s' Hs'; cbn; [by apply Res_G|].
  split; [by apply Res_G|].
  intros [tabs|m'] s'' Hs''; cbn.
  - destruct tabs as [|[[|a]|] tabs]; cbn.
    + by apply Hc.
    + by apply Hc.
    + split; [by apply Res_G|]. intros [[]|m''] s3 Hs3; cbn; [by apply Res_G|].
      by apply Hc.
    + by apply Hc.
  - by apply Hc.
Qed.

Lemma onEvent_preserves h src method params : ok (onEvent h src method params).
Proof.
  intros b s0 s Hs. unfold onEvent, onEvent_with.
  destruct src as [[|t]|]; [done| |done].
  destruct (negb (String.eqb method "Fetch.requestPaused")); [done|].
  destruct (negb (nonempty (Params.requestId params))); [done|].
  change (meets (if isWhitelisted s (PausedRequest.url (Params.request params))
                 then try_catch (continueRequest (N.pos t) (Params.requestId params))
                        (fun _ => Ret tt)
                 else
                   match live_replay s
                           (obj_get "X-Replay-Id"
                              (PausedRequest.headers (Params.request params))) with
                   | Some (replayId, replayData) =>
                       replay_match (N.pos t) (Params.requestId params) replayId replayData
                   | None => route (applyProxyToRequest h) h (N.pos t) params s
                   end) b s0 s).
  destruct (isWhitelisted s _).
  - revert b s0 s Hs. change (ok (try_catch
        (continueRequest (N.pos t) (Params.requestId params)) (fun _ => Ret tt))).
    walk.
  - destruct (live_replay s _) as [[rid d]|] eqn:Hl.
    + apply replay_match_wp; [done|]. by eapply live_replay_Some.
    + by apply route_preserves.
Qed.

Lemma clear_requests_preserves :
  (forall s0 s, G s0 s -> G s0 (with_requestsStore [] s)) -> ok clear_requests.
Proof.
  intros H. unfold clear_requests. walk. by apply preserves_modify.
Qed.

Lemma onMessage_preserves h m :
  (Message.action m = "clear-requests" ->
   forall s0 s, G s0 s -> G s0 (with_requestsStore [] s)) ->
  ok (onMessage h m).
Proof.
  intros Hclear. unfold onMessage.
  destruct (String.eqb (Message.action m) "get-initial-requests"); [walk|].
  destruct (if String.eqb (Message.action m) "resume-request"
            then Message.requestData m else None); [walk|].
  destruct (if String.eqb (Message.action m) "replay-request"
            then Message.requestData m else None);
    [apply replay_request_preserves|].
  destruct (String.eqb (Message.action m) "replay-fetch-success");
    [walk; apply replay_signal_preserves|].
  destruct (String.eqb (Message.action m) "replay-fetch-failed");
    [walk; apply replay_signal_preserves|].
  destruct (String.eqb_spec (Message.action m) "clear-requests") as [E|_].
  { walk. by apply clear_requests_preserves, Hclear. }
  destruct (String.eqb (Message.action m) "set-mode"); walk.
Qed.

End Generic.
End InvariantFacts.

Module EventLoopFacts.
Import Js Async Async.Notations Background Expected Examples.
Import Logic LogicFacts EventLoop Invariants InvariantFacts.

(** *** What a step leaves behind *)
Section Steps.
Variable Res : State -> Prop.
Variable G : State -> State -> Prop.

Lemma segment_ok {A : Set} (p : Prog A) b s0 s :
  wp Res G p (fun _ _ => G) (fun _ _ => G) G b s0 s ->
  G s0 (r_state (run p s)) /\ tasks_ok Res G (suspended (run p s)).
Proof.
  intros Hp. destruct (wp_run Res G p _ _ _ _ _ _ Hp) as [H1 H2].
  unfold suspended, tasks_ok. rewrite Forall_app, Forall_map.
  destruct (r_status (run p s)) as [a|m|c k].
  - by repeat split.
  - by repeat split.
  - destruct H1 as [H1 H3]. repeat split; [by destruct b|done|].
    by apply Forall_singleton.
Qed.

(** A step whose handler meets the guarantee meets it, and leaves
    only tasks that do. *)
Lemma step_ok sys l sys' :
  (forall h src method params, l = LEvent h src method params ->
     preserves Res G (onEvent h src method params)) ->
  (forall h m, l = LMessage h m -> preserves Res G (onMessage h m)) ->
  (forall t, l = LTimeout t -> preserves Res G (onTimeout t)) ->
  (forall s, G s s -> Res s) ->
  step sys l sys' ->
  G (state sys) (state sys) -> tasks_ok Res G (tasks sys) ->
  G (state sys) (state sys') /\ tasks_ok Res G (tasks sys').
Proof.
  intros He Hm Ht HR Hstep. unfold tasks_ok.
  destruct Hstep; cbn; intros Hs Hts.
  - destruct (segment_ok _ false s s (He _ _ _ _ eq_refl false s s Hs)) as [H1 H2].
    split; [done|]. by apply Forall_app.
  - destruct (segment_ok _ false s s (Hm _ _ eq_refl false s s Hs)) as [H1 H2].
    split; [done|]. by apply Forall_app.
  - destruct (segment_ok _ false s s (Ht _ eq_refl false s s Hs)) as [H1 H2].
    split; [done|]. by apply Forall_app.
  - apply Forall_app in Hts as [H1 [Hk H2]%Forall_cons].
    destruct (segment_ok _ true s s (Hk o s (HR s Hs))) as [H3 H4].
    cbn in H3, H4. unfold tasks_ok in H4.
    split; [done|]. by rewrite !Forall_app.
Qed.

End Steps.

(** *** The ledger only grows *)

Lemma grows_refl s : grows s s.
Proof. apply extends_refl. Qed.

Lemma grows_ledger s0 s l :
  grows s0 s -> extends (requestsStore s) l -> grows s0 (with_requestsStore l s).
Proof. unfold grows. intros H1 H2. by eapply extends_trans. Qed.

Lemma grows_event h src method params :
  preserves (fun _ => True) grows (onEvent h src method params).
Proof.
  apply onEvent_preserves;
    solve [done | intros; apply grows_refl | apply grows_ledger].
Qed.

Lemma grows_timeout t : preserves (fun _ => True) grows (onTimeout t).
Proof.
  apply onTimeout_preserves;
    solve [done | intros; apply grows_refl | apply grows_ledger].
Qed.

Lemma grows_message h m :
  Message.action m <> "clear-requests" ->
  preserves (fun _ => True) grows (onMessage h m).
Proof.
  intros Hm.
  apply onMessage_preserves;
    solve [done | intros; apply grows_refl | apply grows_ledger].
Qed.

Lemma clear_suspends_nothing h m s :
  Message.action m = "clear-requests" -> suspended (run (onMessage h m) s) = [].
Proof. intros E. unfold onMessage. rewrite E. reflexivity. Qed.

Lemma is_clear_dec l : is_clear l \/ ~ is_clear l.
Proof.
  destruct l as [| h m | |]; try (right; by intros (?&?&?&?)).
  destruct (String.eqb_spec (Message.action m) "clear-requests") as [E|E].
  - left. by exists h, m.
  - right. intros (h' & m' & [= -> ->] & E'). done.
Qed.

Lemma step_grows sys l sys' :
  step sys l sys' -> tasks_ok (fun _ => True) grows (tasks sys) ->
  tasks_ok (fun _ => True) grows (tasks sys')
  /\ (~ is_clear l -> grows (state sys) (state sys')).
Proof.
  intros Hstep Hts. destruct (is_clear_dec l) as [(h & m & -> & E)|Hl].
  - split; [|by intros []; exists h, m].
    inversion Hstep; subst. rewrite clear_suspends_nothing by done.
    by rewrite app_nil_r.
  - destruct (step_ok (fun _ => True) grows sys l sys') as [H1 H2]; try done.
    + intros; apply grows_event.
    + intros h m ->. apply grows_message. intros E. apply Hl. by exists h, m.
    + intros; apply grows_timeout.
    + apply grows_refl.
Qed.

Lemma reachable_grows s0 sys :
  reachable s0 sys -> tasks_ok (fun _ => True) grows (tasks sys).
Proof.
  induction 1 as [|sys l sys' _ IH Hstep]; [constructor|].
  by destruct (step_grows sys l sys' Hstep IH).
Qed.

(** X1. Whatever the interleaving of the handlers of debugger events,
    of messages and of replay deadlines with the tasks they leave
    suspended, and whatever the outcomes of the awaited calls, a step
    of these handlers other than the clear-all command keeps every
    row of the ledger, in order, with its id, tab, request, raw
    request text and request headers, keeps finished rows finished,
    and only appends rows. *)
Theorem ledger_only_grows s0 sys l sys' :
  reachable s0 sys -> step sys l sys' -> ~ is_clear l ->
  extends (requestsStore (state sys)) (requestsStore (state sys')).
Proof.
  intros Hr Hstep Hl.
  by apply (step_grows sys l sys' Hstep (reachable_grows s0 sys Hr)).
Qed.

Lemma ledger_only_grows_witness :
  extends (requestsStore s_one)
    (requestsStore (r_state (run (onMessage host0 (msg_replay row_a raw_a None)) s_one))).
Proof.
  apply (ledger_only_grows s_one (mkSystem s_one [])
           (LMessage host0 (msg_replay row_a raw_a None))
           (mkSystem _ ([] ++ suspended (run (onMessage host0 (msg_replay row_a raw_a None)) s_one)))).
  - apply reach_start.
  - apply step_message.
  - intros (h & m & [= _ <-] & E). discriminate E.
Defined.

(** *** Every live correlation has its deadline armed *)

Lemma deadline_of_inj rid rid' d d' : deadline_of rid d = deadline_of rid' d' -> rid = rid'.
Proof. by intros [= ? ? ?]. Qed.

Lemma armed_arm s rid d :
  armed s -> ReplayData.timeoutId d = nextTimer s ->
  armed (with_replayDataStore (<[rid := d]> (replayDataStore s))
           (with_timers (<[nextTimer s := deadline_of rid d]> (timers s))
              (N.succ (nextTimer s)) s)).
Proof.
  intros [H1 H2] Hd. split; cbn.
  - intros rid' d' Hl. destruct (decide (rid = rid')) as [<-|Hne].
    + rewrite lookup_insert_eq in Hl. injection Hl as <-.
      by rewrite Hd, lookup_insert_eq.
    + rewrite lookup_insert_ne in Hl by done.
      pose proof (H1 _ _ Hl) as Ht. pose proof (H2 _ _ Ht).
      rewrite lookup_insert_ne by lia. done.
  - intros t dl Hl. destruct (decide (nextTimer s = t)) as [<-|Hne]; [lia|].
    rewrite lookup_insert_ne in Hl by done. pose proof (H2 _ _ Hl). lia.
Qed.

Lemma armed_resolve s rid d :
  armed s -> replayDataStore s !! rid = Some d ->
  armed (with_replayDataStore (delete rid (replayDataStore s))
           (with_timers (delete (ReplayData.timeoutId d) (timers s)) (nextTimer s) s)).
Proof.
  intros [H1 H2] Hd. split; cbn.
  - intros rid' d' [Hne Hl]%lookup_delete_Some.
    rewrite lookup_delete_ne; [by apply H1|].
    intros E. apply Hne. pose proof (H1 _ _ Hd) as Ha. pose proof (H1 _ _ Hl) as Hb.
    rewrite E in Ha. rewrite Ha in Hb.
    assert (deadline_of rid d = deadline_of rid' d') as Hx by congruence.
    by apply deadline_of_inj in Hx.
  - intros t dl [_ Hl]%lookup_delete_Some. by eapply H2.
Qed.

Lemma armed_fire s t dl :
  armed s -> timers s !! t = Some dl ->
  replayDataStore s !! Deadline.replayId dl = None ->
  armed (with_timers (delete t (timers s)) (nextTimer s) s).
Proof.
  intros [H1 H2] Ht Hd. split; cbn.
  - intros rid' d' Hl. rewrite lookup_delete_ne; [by apply H1|].
    intros E. pose proof (H1 _ _ Hl) as Hb. rewrite <- E, Ht in Hb.
    injection Hb as ->. cbn in Hd. congruence.
  - intros t' dl' [_ Hl]%lookup_delete_Some. by eapply H2.
Qed.

Lemma armed_fire_resolve s t dl d :
  armed s -> timers s !! t = Some dl ->
  replayDataStore s !! Deadline.replayId dl = Some d ->
  armed (with_replayDataStore (delete (Deadline.replayId dl) (replayDataStore s))
           (with_timers (delete (ReplayData.timeoutId d) (delete t (timers s)))
              (nextTimer s) s)).
Proof.
  intros [H1 H2] Ht Hd. split; cbn.
  - intros rid' d' [Hne Hl]%lookup_delete_Some.
    pose proof (H1 _ _ Hd) as Ha. pose proof (H1 _ _ Hl) as Hb.
    rewrite !lookup_delete_ne; [done| |].
    + intros E. rewrite <- E, Ht in Hb. injection Hb as ->. by cbn in Hne.
    + intros E. rewrite E in Ha. rewrite Ha in Hb.
      assert (deadline_of (Deadline.replayId dl) d = deadline_of rid' d') as Hx
        by congruence.
      by apply deadline_of_inj in Hx.
  - intros t' dl' [_ [_ Hl]%lookup_delete_Some]%lookup_delete_Some. by eapply H2.
Qed.

Lemma armed_event h src method params :
  preserves armed armed_in (onEvent h src method params).
Proof.
  apply onEvent_preserves; unfold armed_in;
    solve [done | intros; by apply armed_resolve].
Qed.

Lemma armed_timeout t : preserves armed armed_in (onTimeout t).
Proof.
  apply onTimeout_preserves; unfold armed_in;
    solve [done | intros; by apply armed_resolve | intros; by eapply armed_fire
          | intros; by eapply armed_fire_resolve].
Qed.

Lemma armed_message h m : preserves armed armed_in (onMessage h m).
Proof.
  apply onMessage_preserves; unfold armed_in;
    solve [done | intros; by apply armed_arm | intros; by apply armed_resolve].
Qed.

Lemma reachable_armed s0 sys :
  armed s0 -> reachable s0 sys ->
  armed (state sys) /\ tasks_ok armed armed_in (tasks sys).
Proof.
  intros H0. induction 1 as [|sys l sys' _ [IH1 IH2] Hstep].
  - split; [done|constructor].
  - apply (step_ok armed armed_in sys l sys'); try done.
    + intros; apply armed_event.
    + intros; apply armed_message.
    + intros; apply armed_timeout.
Qed.

(** X2. From a start state in which every live replay correlation has
    its deadline armed and the timeout ids in use are below the next
    one (a state without correlations and timers, say), whatever the
    interleaving of the handlers of debugger events, of messages and
    of replay deadlines with the tasks they leave suspended, and
    whatever the outcomes of the awaited calls, every live replay
    correlation has its deadline armed: the timer recorded in the
    correlation is set, and its callback carries the token, the
    synthetic row and the replayed row of that correlation. *)
Theorem live_replays_have_deadlines s0 sys rid d :
  armed s0 -> reachable s0 sys ->
  replayDataStore (state sys) !! rid = Some d ->
  timers (state sys) !! ReplayData.timeoutId d = Some (deadline_of rid d).
Proof.
  intros H0 Hr Hd. destruct (reachable_armed s0 sys H0 Hr) as [[H1 _] _]. by apply H1.
Qed.

Lemma armed_s_one : armed s_one.
Proof. split; intros ? ?; cbn; by rewrite lookup_empty. Qed.

Lemma live_replays_have_deadlines_witness :
  timers s_replaying !! 0%N = Some (deadline_of token_a replay_a).
Proof.
  apply (live_replays_have_deadlines s_one
           (mkSystem s_replaying
              ([] ++ suspended (run (onMessage host0 (msg_replay row_a raw_a None)) s_one)))
           token_a replay_a).
  - apply armed_s_one.
  - apply (reach_step s_one (mkSystem s_one []) (LMessage host0 (msg_replay row_a raw_a None))).
    + apply reach_start.
    + apply step_message.
  - reflexivity.
Defined.

End EventLoopFacts.

Module ParserFacts.
Import Js JsFacts RawRequest RawRequestFacts ParserShapes.

(** *** The pieces of a split *)

Lemma prefix_mono sep a rest :
  String.prefix sep a = true -> String.prefix sep (a +:+ rest) = true.
Proof.
  revert a; induction sep as [|d sep IH]; intros a;
    [intros _; by destruct (a +:+ rest)|].
  destruct a as [|c a]; [done|]. sapp. cbn [String.prefix].
  destruct (ascii_dec d c); [apply IH|done].
Qed.

(** Without characters to skip, the first piece is a prefix of the text. *)
Lemma split_head sep s :
  exists rest, s = hd "" (split_aux sep 0 s) +:+ rest.
Proof.
  induction s as [|c s [rest IH]]; [by exists ""|].
  cbn [split_aux]. destruct (String.prefix sep (String c s)).
  - by exists (String c s).
  - pose proof (split_nonempty sep 0 s) as Hne.
    destruct (split_aux sep 0 s) as [|p ps]; [done|]. cbn [cons_head hd] in *.
    exists rest. sapp. by rewrite <- IH.
Qed.

Lemma split_pieces sep k s :
  sep <> "" -> Forall (fun p => includes sep p = false) (split_aux sep k s).
Proof.
  intros Hsep. revert k. induction s as [|c s IH]; intros k.
  - cbn. constructor; [|done]. cbn. by destruct sep.
  - cbn [split_aux]. destruct k as [|k]; [|apply IH].
    destruct (String.prefix sep (String c s)) eqn:Hp.
    + constructor; [|apply IH]. cbn. by destruct sep.
    + specialize (IH 0). destruct (split_head sep s) as [rest Hrest].
      pose proof (split_nonempty sep 0 s) as Hne.
      destruct (split_aux sep 0 s) as [|p ps]; [done|]. cbn [cons_head hd] in *.
      apply Forall_cons in IH as [Hp0 Hps]. constructor; [|done].
      cbn [includes]. rewrite Hp0, orb_false_r.
      destruct (String.prefix sep (String c p)) eqn:Hp'; [|done].
      apply (prefix_mono _ _ rest) in Hp'. rewrite app_cons_s, <- Hrest in Hp'.
      congruence.
Qed.

Lemma cons_head_In c ps p :
  In p (cons_head c ps) ->
  (exists p', p = String c p' /\ (ps = [] /\ p' = "" \/ hd_error ps = Some p'))
  \/ In p (tl ps).
Proof.
  destruct ps as [|q qs]; cbn.
  - intros [<-|[]]. left. exists "". auto.
  - intros [<-|H]; [|by right]. left. exists q. auto.
Qed.

(** A piece holds only characters of the text. *)
Lemma split_chars sep k s p d :
  In p (split_aux sep k s) -> has_char d p = true -> has_char d s = true.
Proof.
  revert k p. induction s as [|c s IH]; intros k p.
  - cbn. by intros [<-|[]].
  - cbn [split_aux has_char]. destruct k as [|k].
    + destruct (String.prefix sep (String c s)).
      * intros [<-|H]; [done|]. intros Hd. rewrite (IH _ _ H Hd). apply orb_true_r.
      * intros H Hd. pose proof (split_nonempty sep 0 s) as Hne.
        destruct (split_aux sep 0 s) as [|q qs] eqn:E; [done|]. cbn [cons_head] in H.
        destruct H as [<-|H].
        -- cbn [has_char] in Hd. apply orb_true_iff in Hd as [->|Hd]; [done|].
           rewrite (IH 0 q); [apply orb_true_r|rewrite E; by left|done].
        -- rewrite (IH 0 p); [apply orb_true_r|rewrite E; by right|done].
    + intros H Hd. rewrite (IH _ _ H Hd). apply orb_true_r.
Qed.

Lemma includes_char_iff d s : includes (String d "") s = has_char d s.
Proof.
  induction s as [|c s IH]; [done|].
  cbn [includes has_char]. by rewrite prefix_char, IH.
Qed.

Lemma remove_cr_clean s : has_char CR (remove_cr s) = false.
Proof.
  induction s as [|c s IH]; [done|]. cbn [remove_cr].
  destruct (Ascii.eqb c CR) eqn:E; [done|]. cbn [has_char]. by rewrite E.
Qed.

(** The lines [parseRawRequest] works on hold neither CR nor LF. *)
Lemma lines_clean raw line :
  In line (split lf (remove_cr raw)) -> line_safe line = true.
Proof.
  intros Hin. unfold line_safe. apply andb_true_iff. split; apply negb_true_iff.
  - destruct (has_char CR line) eqn:E; [|done].
    apply (split_chars _ _ _ _ _ Hin) in E. by rewrite remove_cr_clean in E.
  - pose proof (split_pieces lf 0 (remove_cr raw) ltac:(done)) as H.
    rewrite Forall_forall in H. specialize (H line).
    rewrite <- includes_char_iff. apply H. by apply list_elem_of_In.
Qed.

Lemma piece_line_safe sep line p :
  line_safe line = true -> In p (split sep line) -> line_safe p = true.
Proof.
  unfold line_safe. intros [H1%negb_true_iff H2%negb_true_iff]%andb_true_iff Hin.
  apply andb_true_iff. split; apply negb_true_iff.
  - destruct (has_char CR p) eqn:E; [|done].
    apply (split_chars _ _ _ _ _ Hin) in E. congruence.
  - destruct (has_char LF p) eqn:E; [|done].
    apply (split_chars _ _ _ _ _ Hin) in E. congruence.
Qed.

Lemma token_of_line line p :
  line_safe line = true -> In p (split " " line) -> token_safe p = true.
Proof.
  intros Hl Hin. unfold token_safe. rewrite (piece_line_safe _ _ _ Hl Hin). cbn.
  apply negb_true_iff. rewrite <- includes_char_iff.
  pose proof (split_pieces " " 0 line ltac:(done)) as H.
  rewrite Forall_forall in H. apply H. by apply list_elem_of_In.
Qed.

Lemma loop_step_safe st line :
  line_safe line = true -> loop_safe st -> loop_safe (loop_step st line).
Proof.
  intros Hl [Hh Hb]. unfold loop_step.
  destruct (isHeaderSection st && String.eqb line ""); [done|].
  destruct (isHeaderSection st).
  - pose proof (split_pieces ": " 0 line ltac:(done)) as Hp.
    pose proof (piece_line_safe ": " line) as Hs.
    unfold split in *.
    destruct (split_aux ": " 0 line) as [|p0 [|p1 [|p2 ps]]]; try done.
    split; [|done]. cbn. apply Forall_app. split; [done|].
    apply Forall_singleton. unfold header_safe. cbn.
    apply Forall_cons in Hp as [Hp0 [Hp1 _]%Forall_cons].
    rewrite (Hs p0), (Hs p1), Hp0, Hp1; cbn; auto.
  - split; [done|]. cbn.
    unfold line_safe in Hl.
    apply andb_true_iff in Hl as [Hcr%negb_true_iff Hlf%negb_true_iff].
    assert (negb (has_char CR line) && negb (String.prefix lf line) = true) as Hline.
    { rewrite Hcr. cbn. apply negb_true_iff.
      destruct line as [|c l]; [done|]. unfold lf. rewrite prefix_char.
      cbn in Hlf. by apply orb_false_iff in Hlf as [-> _]. }
    destruct (body st) as [[|c b]|]; cbn [body_safe] in Hb |- *; sapp; [done| |done].
    apply andb_true_iff in Hb as [Hb1%negb_true_iff Hb2%negb_true_iff].
    apply andb_true_iff. split; apply negb_true_iff.
    + cbn in Hb1. apply orb_false_iff in Hb1 as [Hc Hb1].
      cbn [has_char]. rewrite Hc. cbn. by rewrite !has_char_app, Hb1, Hcr.
    + unfold lf in *. rewrite prefix_char in Hb2 |- *. done.
Qed.

Lemma fold_loop_safe lines st :
  Forall (fun l => line_safe l = true) lines -> loop_safe st ->
  loop_safe (fold_left loop_step lines st).
Proof.
  intros Hl. revert st. induction Hl as [|l ls H _ IH]; intros st Hst; [done|].
  cbn. apply IH. by apply loop_step_safe.
Qed.

Lemma parse_is_safe raw :
  let p := parseRawRequest raw in
  token_safe (method p) = true
  /\ (forall u, url p = Some u -> token_safe u = true)
  /\ Forall (fun h => header_safe h = true) (headers p)
  /\ body_safe (postData p) = true.
Proof.
  unfold parseRawRequest. cbn [method url headers postData].
  pose proof (lines_clean raw) as Hlines.
  pose proof (split_nonempty lf 0 (remove_cr raw)) as Hne. fold (split lf (remove_cr raw)) in Hne.
  destruct (split lf (remove_cr raw)) as [|first rest]; [done|]. cbn [hd tl].
  assert (line_safe first = true) as Hfirst by (apply Hlines; by left).
  assert (forall p, In p (split " " first) -> token_safe p = true) as Hparts.
  { intros p. by apply token_of_line. }
  pose proof (split_nonempty " " 0 first) as Hne'. fold (split " " first) in Hne'.
  destruct (fold_loop_safe rest (mkLoop true [] None)) as [Hh Hb].
  { apply Forall_forall. intros l Hl. apply Hlines. right. by apply list_elem_of_In. }
  { split; [constructor|done]. }
  repeat split; try done.
  - destruct (split " " first) as [|m ps]; [done|]. apply Hparts. by left.
  - intros u Hu. apply Hparts. by eapply nth_error_In.
Qed.

(** X3. Whatever the text, what [parseRawRequest] returns is free of
    the characters that delimit it: the method and the URL hold no
    blank, CR or LF; a header name or value holds no CR, no LF and no
    colon followed by a blank; the body holds no CR and does not start
    with LF. *)
Theorem parsed_request_is_clean (raw : string) :
  let p := parseRawRequest raw in
  token_safe (method p) = true
  /\ (forall u, url p = Some u -> token_safe u = true)
  /\ Forall (fun h => header_safe h = true) (headers p)
  /\ body_safe (postData p) = true.
Proof. apply parse_is_safe. Qed.



End ParserFacts.

Module HeaderFacts.
Import Js JsFacts Async Background Shapes Charset.

(** *** [headersArrayToObject] *)

Lemma obj_get_set k k' v o :
  obj_get k (obj_set k' v o) = if String.eqb k' k then Some v else obj_get k o.
Proof.
  induction o as [|[k1 v1] o IH]; cbn; [done|].
  destruct (String.eqb_spec k1 k') as [->|Hne]; cbn.
  - by destruct (String.eqb k' k).
  - rewrite IH. destruct (String.eqb_spec k1 k) as [->|?]; [|done].
    destruct (String.eqb_spec k' k) as [->|?]; [done|done].
Qed.

Lemma fold_left_snoc {A B} (f : A -> B -> A) l x a :
  fold_left f (l ++ [x]) a = f (fold_left f l a) x.
Proof. by rewrite fold_left_app. Qed.

Lemma filter_snoc {A} (f : A -> bool) l x :
  List.filter f (l ++ [x]) = List.filter f l ++ (if f x then [x] else []).
Proof. rewrite List.filter_app. cbn. by destruct (f x). Qed.

Lemma obj_get_assign k k' v o :
  obj_get k (obj_assign k' v o)
  = if String.eqb k' "__proto__" then obj_get k o
    else if String.eqb k' k then Some v else obj_get k o.
Proof.
  unfold obj_assign. destruct (String.eqb k' "__proto__"); [done|].
  apply obj_get_set.
Qed.

Lemma headers_object_lookup k hs :
  obj_get k (headersArrayToObject hs)
  = if String.eqb k "__proto__" then None
    else RawRequest.value <$> last (List.filter (stored_under k) hs).
Proof.
  unfold headersArrayToObject.
  induction hs as [|h hs IH] using rev_ind; [by destruct (String.eqb k _)|].
  rewrite fold_left_snoc, filter_snoc, !obj_get_assign, IH. unfold stored_under.
  destruct (String.eqb_spec k "__proto__") as [->|Hk].
  - destruct (String.eqb_spec (toLowerCase (RawRequest.name h)) "__proto__");
      destruct (String.eqb_spec (RawRequest.name h) "__proto__"); done.
  - destruct (String.eqb_spec (toLowerCase (RawRequest.name h)) k) as [El|El],
             (String.eqb_spec (RawRequest.name h) k) as [En|En]; cbn;
      rewrite ?El, ?En, ?last_snoc, ?app_nil_r;
      repeat (match goal with
              | |- context [String.eqb ?x "__proto__"] =>
                  destruct (String.eqb_spec x "__proto__"); try congruence
              end); done.
Qed.

(** X5. For headers with ASCII names, the object
    [headersArrayToObject] builds has no entry for the key
    [__proto__], and the entry of any other key holds the value of the
    last header of the list whose name, as given or in lower case, is
    that key; there is no entry when no header has such a name. *)
Theorem headers_object_holds_last_value (k : string) (hs : list Header) :
  ascii_names hs ->
  obj_get k (headersArrayToObject hs)
  = if String.eqb k "__proto__" then None
    else RawRequest.value <$> last (List.filter (stored_under k) hs).
Proof. intros _. apply headers_object_lookup. Qed.

Lemma headers_object_holds_last_value_witness :
  obj_get "accept"
    (headersArrayToObject
       [mkHeader "Accept" "a"; mkHeader "__proto__" "p"; mkHeader "ACCEPT" "b"])
  = Some "b".
Proof.
  apply (headers_object_holds_last_value "accept"
           [mkHeader "Accept" "a"; mkHeader "__proto__" "p"; mkHeader "ACCEPT" "b"]).
  repeat constructor.
Defined.

(** *** Bypass rules *)

Lemma endsWith_app a suf : endsWith (a +:+ suf) suf = true.
Proof.
  induction a as [|c a IH]; sapp.
  - destruct suf; cbn [endsWith]; by rewrite String.eqb_refl.
  - cbn [endsWith]. rewrite IH. apply orb_true_r.
Qed.

Lemma endsWith_inv s suf : endsWith s suf = true -> exists a, s = a +:+ suf.
Proof.
  induction s as [|c s IH]; cbn [endsWith].
  - rewrite orb_false_r. intros ->%String.eqb_eq. by exists "".
  - intros [->%String.eqb_eq|H]%orb_true_iff; [by exists ""|].
    destruct (IH H) as [a ->]. by exists (String c a).
Qed.

Lemma startsWith_inv s p : startsWith s p = true -> exists r, s = p +:+ r.
Proof.
  unfold startsWith. revert s; induction p as [|d p IH]; intros s.
  - by exists s.
  - destruct s as [|c s]; cbn; [done|].
    destruct (ascii_dec d c) as [->|]; [|done].
    intros [r ->]%IH. by exists r.
Qed.

Lemma rule_covers rule hn :
  String.eqb rule hn || (startsWith rule "*." && endsWith hn (slice1 rule)) = true
  <-> covers rule hn.
Proof.
  unfold covers. split.
  - intros [->%String.eqb_eq|[H1 H2]%andb_true_iff]%orb_true_iff; [by left|].
    right. apply startsWith_inv in H1 as [d ->].
    apply endsWith_inv in H2 as [sub ->]. by exists d, sub.
  - intros [->|(d & sub & -> & ->)]; apply orb_true_iff.
    + left. apply String.eqb_refl.
    + right. apply andb_true_iff. split; [apply prefix_app|].
      apply (endsWith_app sub ("." +:+ d)).
Qed.

Lemma bypass_iff h url rules :
  shouldBypassProxy h url rules = true
  <-> exists hn rule, hostname h url = Some hn /\ In rule rules /\ covers rule hn.
Proof.
  unfold shouldBypassProxy. destruct (hostname h url) as [hn|].
  - rewrite existsb_exists. split.
    + intros (rule & Hin & Hc). exists hn, rule. by rewrite <- rule_covers.
    + intros (hn' & rule & [= <-] & Hin & Hc). exists rule. by rewrite rule_covers.
  - split; [done|]. by intros (? & ? & ? & _).
Qed.

(** X6. A request bypasses the proxy exactly when its URL has a host
    name and some rule of the bypass list is that host name, or is
    [*.d] while the host name ends in [.d]. A URL without a host name
    bypasses nothing. *)
Theorem bypass_rules_meaning (h : Host) (url : string) (rules : list string) :
  shouldBypassProxy h url rules = true
  <-> exists hn rule, hostname h url = Some hn /\ In rule rules /\ covers rule hn.
Proof. apply bypass_iff. Qed.

Lemma length_app_s a b : String.length (a +:+ b) = String.length a + String.length b.
Proof. induction a; sapp; cbn; lia. Qed.

(** X7. The wildcard rule of a domain does not cover the domain
    itself: with [*.d] as the only rule, a request to the host [d]
    goes through the proxy. *)
Theorem wildcard_skips_bare_domain (h : Host) (url d : string) :
  hostname h url = Some d -> shouldBypassProxy h url ["*." +:+ d] = false.
Proof.
  intros Hh. apply not_true_iff_false. rewrite bypass_iff.
  intros (hn & rule & Hhn & [<-|[]] & Hc). rewrite Hh in Hhn. injection Hhn as <-.
  destruct Hc as [Hc|(d' & sub & Hr & Hd)].
  - apply (f_equal String.length) in Hc. rewrite length_app_s in Hc. cbn in Hc. lia.
  - apply (f_equal String.length) in Hr. rewrite !length_app_s in Hr. cbn in Hr. apply (f_equal String.length) in Hd.
    rewrite !length_app_s in Hd. cbn in Hd. lia.
Qed.

Lemma wildcard_skips_bare_domain_witness :
  shouldBypassProxy
    (mkHost 0 0 "" (fun _ rb => Resolved "") (fun _ => Some "example.com"))
    "http://example.com/" ["*.example.com"] = false.
Proof.
  exact (wildcard_skips_bare_domain
           (mkHost 0 0 "" (fun _ rb => Resolved "") (fun _ => Some "example.com"))
           "http://example.com/" "example.com" eq_refl).
Defined.

End HeaderFacts.

Module CharsetFacts.
Import Js JsFacts Async Background Shapes Charset.

Lemma trimStart_chars d s : has_char d (trimStart s) = true -> has_char d s = true.
Proof.
  induction s as [|c s IH]; [done|]. cbn [trimStart].
  destruct (is_space c); [|done]. intros H. cbn. rewrite (IH H). apply orb_true_r.
Qed.

Lemma trimEnd_chars d s : has_char d (trimEnd s) = true -> has_char d s = true.
Proof.
  induction s as [|c s IH]; [done|]. cbn [trimEnd has_char].
  destruct (trimEnd s) as [|c' t].
  - destruct (is_space c); cbn; [done|]. rewrite orb_false_r. by intros ->.
  - cbn [has_char]. intros [->|H]%orb_true_iff; [done|].
    rewrite IH; [apply orb_true_r|done].
Qed.

Lemma trimEnd_idem s : trimEnd (trimEnd s) = trimEnd s.
Proof.
  induction s as [|c s IH]; [done|]. cbn [trimEnd].
  destruct (trimEnd s) as [|c' t] eqn:E.
  - destruct (is_space c) eqn:Ec; cbn; [done|]. by rewrite Ec.
  - change (trimEnd (String c (String c' t)))
      with (match trimEnd (String c' t) with
            | "" => if is_space c then "" else String c ""
            | t0 => String c t0
            end).
    by rewrite IH.
Qed.

(** Trimming the end leaves the first character in place. *)
Lemma trimEnd_head c s : is_space c = false -> exists t, trimEnd (String c s) = String c t.
Proof.
  intros Hc. cbn [trimEnd]. destruct (trimEnd s); rewrite ?Hc; eauto.
Qed.

Lemma trimStart_head s :
  trimStart s = "" \/ exists c t, trimStart s = String c t /\ is_space c = false.
Proof.
  induction s as [|c s IH]; [by left|]. cbn [trimStart].
  destruct (is_space c) eqn:E; [done|]. right. eauto.
Qed.

Lemma trim_idem s : trim (trim s) = trim s.
Proof.
  unfold trim. destruct (trimStart_head s) as [->|(c & t & -> & Hc)]; [done|].
  destruct (trimEnd_head c t Hc) as [t' E]. rewrite E.
  cbn [trimStart]. rewrite Hc, <- E. apply trimEnd_idem.
Qed.

Lemma upto_semicolon_clean s : has_char ";" (upto_semicolon s) = false.
Proof.
  induction s as [|c s IH]; [done|]. cbn [upto_semicolon].
  destruct (Ascii.eqb c ";") eqn:E; [done|]. cbn. by rewrite E.
Qed.

Lemma match_charset_clean s g : match_charset s = Some g -> has_char ";" g = false.
Proof.
  induction s as [|c s IH]; cbn [match_charset].
  - done.
  - destruct (String.prefix "charset=" (String c s)).
    + pose proof (upto_semicolon_clean (skip 8 (String c s))) as H.
      destruct (upto_semicolon (skip 8 (String c s))) as [|c' g'].
      * apply IH.
      * by intros [= <-].
    + apply IH.
Qed.

Lemma charset_shape hs :
  has_char ";" (getCharset hs) = false /\ trim (getCharset hs) = getCharset hs.
Proof.
  unfold getCharset. destruct (find _ hs) as [ct|]; [|done].
  destruct (match_charset (RawRequest.value ct)) as [g|] eqn:E; [|done].
  split; [|apply trim_idem].
  apply match_charset_clean in E. unfold trim.
  destruct (has_char ";" (trimEnd (trimStart g))) eqn:H; [|done].
  apply trimEnd_chars, trimStart_chars in H. congruence.
Qed.

(** X8. For ASCII headers, the charset [getCharset] returns holds no
    semicolon and has no white space at either end: trimming it
    again changes nothing. *)
Theorem charset_is_trimmed_and_clean (hs : list Header) :
  ascii_headers hs ->
  has_char ";" (getCharset hs) = false /\ trim (getCharset hs) = getCharset hs.
Proof. intros _. apply charset_shape. Qed.

Lemma charset_is_trimmed_and_clean_witness :
  has_char ";" (getCharset [mkHeader "Content-Type" "text/html; charset= GBK ;q=1"])
  = false
  /\ trim (getCharset [mkHeader "Content-Type" "text/html; charset= GBK ;q=1"])
     = getCharset [mkHeader "Content-Type" "text/html; charset= GBK ;q=1"].
Proof.
  apply (charset_is_trimmed_and_clean
           [mkHeader "Content-Type" "text/html; charset= GBK ;q=1"]).
  repeat constructor.
Defined.

(** Without a header whose name is content-type, in whatever
    case, the charset is utf-8. *)
Lemma charset_defaults_to_utf8 (hs : list Header) :
  Forall (fun h => toLowerCase (RawRequest.name h) <> "content-type") hs ->
  getCharset hs = "utf-8".
Proof.
  intros H. unfold getCharset.
  replace (find _ hs) with (None : option Header); [done|].
  symmetry. induction H as [|h hs Hh _ IH]; [done|]. cbn.
  by destruct (String.eqb_spec (toLowerCase (RawRequest.name h)) "content-type").
Qed.

Lemma charset_defaults_to_utf8_witness :
  getCharset [mkHeader "Server" "x"; mkHeader "Content-Length" "3"] = "utf-8".
Proof.
  apply charset_defaults_to_utf8. repeat constructor; discriminate.
Defined.

(** No match of [charset=] starts in a text without an equals sign
    that is followed by [charset=]. *)
Lemma no_marker a t :
  a <> "" -> has_char "=" a = false ->
  String.prefix "charset=" (a +:+ "charset=" +:+ t) = false.
Proof.
  intros Ha He.
  do 8 (destruct a as [|? a];
        [first [done | sapp; cbn [String.prefix];
                       repeat (destruct (ascii_dec _ _); [|done]); done]|]).
  sapp. cbn [String.prefix].
  repeat (destruct (ascii_dec _ _) as [<-|]; [|done]).
  by cbn in He.
Qed.

Lemma upto_semicolon_app x rest :
  has_char ";" x = false -> rest = "" \/ String.prefix ";" rest = true ->
  upto_semicolon (x +:+ rest) = x.
Proof.
  intros Hx Hr. induction x as [|c x IH]; sapp.
  - destruct Hr as [->|Hr]; [done|]. destruct rest as [|c r]; [done|].
    rewrite prefix_char in Hr. cbn. by rewrite Hr.
  - cbn in Hx |- *. apply orb_false_iff in Hx as [-> Hx]. by rewrite IH.
Qed.

Lemma match_charset_found pre x rest :
  has_char "=" pre = false -> x <> "" -> has_char ";" x = false ->
  rest = "" \/ String.prefix ";" rest = true ->
  match_charset (pre +:+ "charset=" +:+ x +:+ rest) = Some x.
Proof.
  intros Hp Hx Hs Hr. induction pre as [|c pre IH].
  - pose proof (prefix_app "charset=" (x +:+ rest)) as E.
    rewrite ?app_cons_s, ?app_nil_l_s in E. sapp.
    cbn [match_charset]. rewrite E. cbn [skip].
    rewrite upto_semicolon_app by done. by destruct x.
  - pose proof (no_marker (String c pre) (x +:+ rest) ltac:(done) Hp) as Hn.
    rewrite app_cons_s in Hn |- *. cbn [match_charset]. rewrite Hn.
    apply IH. cbn in Hp. by apply orb_false_iff in Hp as [_ ?].
Qed.

(** X9. For ASCII headers: when the first header whose name is
    content-type, in whatever case, reads [pre charset=x rest], with
    no equals sign in [pre], a non-empty [x] without semicolon, and
    [rest] empty or starting with a semicolon, the charset is [x]
    without the white space at its ends. *)
Theorem charset_is_read_from_content_type
    (hs : list Header) (ct : Header) (pre x rest : string) :
  ascii_headers hs ->
  find (fun h => String.eqb (toLowerCase (RawRequest.name h)) "content-type") hs
    = Some ct ->
  RawRequest.value ct = pre +:+ "charset=" +:+ x +:+ rest ->
  has_char "=" pre = false -> x <> "" -> has_char ";" x = false ->
  rest = "" \/ String.prefix ";" rest = true ->
  getCharset hs = trim x.
Proof.
  intros _ Hf Hv Hp Hx Hs Hr. unfold getCharset. rewrite Hf, Hv.
  by rewrite match_charset_found.
Qed.

Lemma charset_is_read_from_content_type_witness :
  getCharset [mkHeader "Server" "x";
              mkHeader "Content-Type" "text/html; charset= GBK ;q=1";
              mkHeader "content-type" "text/html; charset=utf-8"] = "GBK".
Proof.
  apply (charset_is_read_from_content_type _
           (mkHeader "Content-Type" "text/html; charset= GBK ;q=1")
           "text/html; " " GBK " ";q=1"); try done.
  - repeat constructor.
  - by right.
Defined.

End CharsetFacts.

Module HandlerFacts.
Import Js JsFacts Async Async.Notations AsyncFacts Background Expected Examples Shapes.
Import RouterFacts ReplayFacts.

#[local] Arguments findIndex : simpl never.
#[local] Arguments shouldBypassProxy : simpl never.
#[local] Arguments isWhitelisted : simpl never.

Lemma applyProxy_run h (env : Env) rid req tab (s : State) :
  run_all env (applyProxyToRequest h rid req tab) s
  = mkRun s
      ([OCall LoadProxySettings; OCall LoadProxyState]
         ++ (if must_reconcile h (PausedRequest.url req) (settings_of env) (state_of env)
             then [OCall (SetChromeProxy (settings_of env))] else []))
      [] (Returned false).
Proof.
  unfold applyProxyToRequest, loadProxySettings, loadProxyState, setChromeProxy,
    must_reconcile, settings_of, state_of.
  cbn.
  destruct (env LoadProxySettings) as [[st|]|m1]; cbn;
    destruct (env LoadProxyState) as [[ps|]|m2]; cbn;
    repeat match goal with
           | |- context [enabled ?st] => destruct (enabled st); cbn
           | |- context [isOurProxyActive ?st] => destruct (isOurProxyActive st); cbn
           | |- context [shouldBypassProxy ?a ?b ?c] =>
               destruct (shouldBypassProxy a b c); cbn
           | |- context [env (SetChromeProxy ?st)] =>
               destruct (env (SetChromeProxy st)) as [[]|?]; cbn
           end; reflexivity.
Qed.

(** X10. [applyProxyToRequest] never fails and never claims the
    request: whatever the storage and the proxy API answer, it
    resolves to false and leaves the state of the script alone. It
    loads the settings and the stored proxy state, and sets the system
    proxy, once, only when the two disagree: when the proxy is enabled,
    the request is not bypassed and the stored state says the proxy is
    not ours yet, or when the proxy is disabled and the stored state
    says it is still ours. *)
Theorem proxy_reconciler_never_claims
    (h : Host) (env : Env) (rid : string) (req : PausedRequest.t) (tab : N) (s : State) :
  run_all env (applyProxyToRequest h rid req tab) s
  = mkRun s
      ([OCall LoadProxySettings; OCall LoadProxyState]
         ++ (if must_reconcile h (PausedRequest.url req) (settings_of env) (state_of env)
             then [OCall (SetChromeProxy (settings_of env))] else []))
      [] (Returned false).
Proof. apply applyProxy_run. Qed.

(** An event that is not a pause event, that comes without a tab
    id, or whose request id is missing is ignored: no call, no
    broadcast, no change. *)
Lemma other_events_ignored
    (h : Host) (src : option N) (method : string) (params : Params.t) (s : State) :
  src = None \/ src = Some 0%N \/ method <> "Fetch.requestPaused"
    \/ Params.requestId params = "" ->
  run (onEvent h src method params) s = mkRun s [] [] (Returned tt).
Proof.
  intros H. unfold onEvent, onEvent_with.
  destruct src as [[|t]|]; [done| |done].
  destruct (String.eqb_spec method "Fetch.requestPaused") as [->|Hm]; cbn; [|done].
  destruct H as [H|[H|[H|H]]]; try done. by rewrite H.
Qed.

Lemma other_events_ignored_witness :
  run (onEvent host0 (Some 1%N) "Network.requestWillBeSent" (ev_request "I1" None)) s_one
  = mkRun s_one [] [] (Returned tt).
Proof.
  apply other_events_ignored. right. right. left. discriminate.
Defined.

(** X11. The pause event of a whitelisted URL is resumed unchanged, at
    once: one plain resume command, no row, no broadcast, no change of
    state, also when the command fails. *)
Theorem whitelisted_request_passes
    (h : Host) (env : Env) (t : positive) (params : Params.t) (s : State) :
  nonempty (Params.requestId params) = true ->
  isWhitelisted s (PausedRequest.url (Params.request params)) = true ->
  run_all env (onEvent h (Some (Npos t)) "Fetch.requestPaused" params) s
  = mkRun s [OCall (ContinueRequest (Npos t) (Params.requestId params) None None)]
      [] (Returned tt).
Proof.
  intros Hq Hw. unfold onEvent, onEvent_with. cbn. rewrite Hq. cbn. rewrite Hw. cbn.
  by destruct (env _) as [[]|?].
Qed.

Lemma whitelisted_request_passes_witness :
  run_all env_ok
    (onEvent host0 (Some 1%N) "Fetch.requestPaused" (ev_request "I1" (Some "N1")))
    (mkState true intercept [] ∅ ∅ ∅ ["http://a"] ∅ 0)
  = mkRun (mkState true intercept [] ∅ ∅ ∅ ["http://a"] ∅ 0)
      [OCall (ContinueRequest 1 "I1" None None)] [] (Returned tt).
Proof.
  apply (whitelisted_request_passes host0 env_ok 1 (ev_request "I1" (Some "N1"))
           (mkState true intercept [] ∅ ∅ ∅ ["http://a"] ∅ 0)); reflexivity.
Defined.

Lemma pending_restored (x : string) (X : gset string) :
  x ∉ X -> ({[x]} ∪ X) ∖ {[x]} = X.
Proof. set_solver. Qed.

Lemma with_pending_same (s : State) : with_pendingActions (pendingActions s) s = s.
Proof. by destruct s. Qed.

Lemma resume_segments h m rd (s : State) i hs :
  Message.action m = "resume-request" -> Message.requestData m = Some rd ->
  id rd ∉ pendingActions s ->
  findIndex (id rd) (requestsStore s) = Some i ->
  nonempty (requestId rd) = true ->
  resume_headers (Message.rawRequest m) (Message.headers m) = Some hs ->
  let c := ContinueRequest (tabId rd) (requestId rd) (Some hs) None in
  let r := run (onMessage h m) s in
  r_state r = with_pendingActions ({[id rd]} ∪ pendingActions s) s
  /\ r_trace r = [OCall c]
  /\ r_pool r = []
  /\ exists k : Outcome unit -> Prog bool,
       r_status r = Pending c k
       /\ forall (o : Outcome unit) (s1 : State),
            match requestsStore s1 !! i with
            | Some row1 =>
                let ledger' := <[i := settled_row o row1]> (requestsStore s1) in
                run (k o) s1
                = mkRun (with_pendingActions (pendingActions s1 ∖ {[id rd]})
                           (with_requestsStore ledger' s1))
                    [OEff (Broadcast ledger')] [] (Returned true)
            | None =>
                exists e,
                  run (k o) s1
                  = mkRun (with_pendingActions (pendingActions s1 ∖ {[id rd]}) s1)
                      [] [] (Failed e)
            end.
Proof.
  intros Ha Hr Hp Hi Hq Hhs c r. subst c r.
  unfold onMessage. rewrite Ha, Hr. cbn.
  rewrite decide_False by done. cbn. rewrite Hi. cbn. rewrite Hq. cbn.
  unfold resume_headers in Hhs.
  destruct (Message.headers m) as [hs0|]; cbn in Hhs |- *.
  - injection Hhs as ->. split; [done|]. split; [done|]. split; [done|].
    eexists. split; [reflexivity|]. intros o s1.
    destruct (requestsStore s1 !! i) as [row1|] eqn:Hrow.
    + destruct o as [[]|e]; cbn.
      * rewrite Hrow. cbn. done.
      * unfold resume_failure_text.
        destruct (includes "Invalid InterceptionId" e || includes "-32602" e); cbn;
        rewrite Hrow; cbn; rewrite list_lookup_insert_eq by (by eapply lookup_lt_Some);
        cbn; by rewrite list_insert_insert_eq.
    + destruct o as [[]|e]; cbn.
      * rewrite Hrow. cbn. rewrite Hrow. cbn. rewrite Hrow. cbn. by eexists.
      * destruct (includes "Invalid InterceptionId" e || includes "-32602" e); cbn;
          rewrite Hrow; cbn; rewrite Hrow; cbn; by eexists.
  - destruct (Message.rawRequest m) as [raw|]; [|done]. cbn in Hhs |- *.
    injection Hhs as <-. split; [done|]. split; [done|]. split; [done|].
    eexists. split; [reflexivity|]. intros o s1.
    destruct (requestsStore s1 !! i) as [row1|] eqn:Hrow.
    + destruct o as [[]|e]; cbn.
      * rewrite Hrow. cbn. done.
      * unfold resume_failure_text.
        destruct (includes "Invalid InterceptionId" e || includes "-32602" e); cbn;
        rewrite Hrow; cbn; rewrite list_lookup_insert_eq by (by eapply lookup_lt_Some);
        cbn; by rewrite list_insert_insert_eq.
    + destruct o as [[]|e]; cbn.
      * rewrite Hrow. cbn. rewrite Hrow. cbn. rewrite Hrow. cbn. by eexists.
      * destruct (includes "Invalid InterceptionId" e || includes "-32602" e); cbn;
          rewrite Hrow; cbn; rewrite Hrow; cbn; by eexists.
Qed.

(** X12. A resume command for a row that is in the ledger and not
    pending, with a request id, marks the id pending and sends one
    resume command, with the request id and tab of the message and
    with the headers of the message or, without them, those parsed
    from its raw text; nothing else happens before the command
    settles. When it settles, in whatever state the script then is,
    the handler writes at the ledger position where it had found the
    row: the row that is there now is finished, on failure with the
    reason as its response, and the ledger is broadcast once; when
    there is no row at that position any more, nothing is written or
    broadcast and the handler fails. Either way the id leaves the
    pending set. *)
Theorem resume_finishes_row h m rd (s : State) i hs :
  Message.action m = "resume-request" -> Message.requestData m = Some rd ->
  id rd ∉ pendingActions s ->
  findIndex (id rd) (requestsStore s) = Some i ->
  nonempty (requestId rd) = true ->
  resume_headers (Message.rawRequest m) (Message.headers m) = Some hs ->
  let c := ContinueRequest (tabId rd) (requestId rd) (Some hs) None in
  let r := run (onMessage h m) s in
  r_state r = with_pendingActions ({[id rd]} ∪ pendingActions s) s
  /\ r_trace r = [OCall c]
  /\ r_pool r = []
  /\ exists k : Outcome unit -> Prog bool,
       r_status r = Pending c k
       /\ forall (o : Outcome unit) (s1 : State),
            match requestsStore s1 !! i with
            | Some row1 =>
                let ledger' := <[i := settled_row o row1]> (requestsStore s1) in
                run (k o) s1
                = mkRun (with_pendingActions (pendingActions s1 ∖ {[id rd]})
                           (with_requestsStore ledger' s1))
                    [OEff (Broadcast ledger')] [] (Returned true)
            | None =>
                exists e,
                  run (k o) s1
                  = mkRun (with_pendingActions (pendingActions s1 ∖ {[id rd]}) s1)
                      [] [] (Failed e)
            end.
Proof. apply resume_segments. Qed.

Lemma resume_finishes_row_witness :
  r_trace (run (onMessage host0 (msg_resume row_a None)) s_one)
  = [OCall (ContinueRequest 1 "I1" (Some []) None)].
Proof.
  refine (proj1 (proj2
    (resume_finishes_row host0 (msg_resume row_a None) row_a s_one 0 []
       eq_refl eq_refl _ eq_refl eq_refl eq_refl))).
  apply not_elem_of_empty.
Defined.

Lemma stale_resume_run h (env : Env) m rd (s : State) :
  Message.action m = "resume-request" -> Message.requestData m = Some rd ->
  id rd ∉ pendingActions s ->
  findIndex (id rd) (requestsStore s) = None \/ requestId rd = "" ->
  run_all env (onMessage h m) s
  = match findIndex (id rd) (requestsStore s) with
    | None => mkRun s [] [] (Returned true)
    | Some i =>
        let ledger' := alter stale_row i (requestsStore s) in
        mkRun (with_requestsStore ledger' s) [OEff (Broadcast ledger')] []
          (Returned true)
    end.
Proof.
  intros Ha Hr Hp Hstale.
  unfold onMessage. rewrite Ha, Hr. cbn.
  rewrite decide_False by done. cbn.
  destruct (findIndex (id rd) (requestsStore s)) as [i|] eqn:Hi; cbn.
  - destruct Hstale as [?|Hq]; [done|]. rewrite Hq. cbn.
    destruct (findIndex_Some _ _ _ Hi) as (row & Hrow & _).
    rewrite Hrow. cbn. rewrite list_lookup_insert_eq by (by eapply lookup_lt_Some).
    cbn. rewrite list_insert_insert_eq, pending_restored by done.
    unfold stale_row.
    replace (alter _ i (requestsStore s))
      with (<[i := set_rawResponse (Some (MSG_HANDLE_FAILED MSG_INVALID))
                     (set_status finished row)]> (requestsStore s)).
    + by destruct s.
    + apply list_eq. intros j. destruct (decide (i = j)) as [<-|Hne].
      * rewrite list_lookup_insert_eq by (by eapply lookup_lt_Some).
        by rewrite list_lookup_alter_eq, Hrow.
      * by rewrite list_lookup_insert_ne, list_lookup_alter_ne.
  - rewrite pending_restored by done. by destruct s.
Qed.

(** X13. A resume command that names a row no longer in the ledger, or
    that carries no request id, issues no command. Without the row
    nothing changes and nothing is broadcast; with the row, the row is
    finished with the message that the request is no longer valid, and
    the ledger is broadcast. *)
Theorem stale_resume_issues_no_command
    (h : Host) (env : Env) (m : Message.t) (rd : Transaction) (s : State) :
  Message.action m = "resume-request" -> Message.requestData m = Some rd ->
  id rd ∉ pendingActions s ->
  findIndex (id rd) (requestsStore s) = None \/ requestId rd = "" ->
  run_all env (onMessage h m) s
  = match findIndex (id rd) (requestsStore s) with
    | None => mkRun s [] [] (Returned true)
    | Some i =>
        let ledger' := alter stale_row i (requestsStore s) in
        mkRun (with_requestsStore ledger' s) [OEff (Broadcast ledger')] []
          (Returned true)
    end.
Proof. apply stale_resume_run. Qed.

Lemma stale_resume_issues_no_command_witness :
  run_all env_ok (onMessage host0 (msg_resume row_a None)) s_empty
  = mkRun s_empty [] [] (Returned true).
Proof.
  apply (stale_resume_issues_no_command host0 env_ok (msg_resume row_a None) row_a s_empty);
    try reflexivity; [apply not_elem_of_empty|by left].
Defined.

#[local] Arguments RawRequest.parseRawRequest : simpl never.
#[local] Arguments headersArrayToObject : simpl never.
#[local] Arguments cleanupReplayState : simpl never.
#[local] Arguments pretty : simpl never.

Lemma replay_run h m rd raw (s : State) :
  Message.action m = "replay-request" -> Message.requestData m = Some rd ->
  Message.rawRequest m = Some raw -> id rd ∉ pendingActions s ->
  let hs := Message.headers m in
  let rid := replay_token h in
  let row := replay_row h rd raw hs in
  let d := replay_data h rd raw hs (nextTimer s) in
  let inj := replay_injection h raw hs in
  let r := run (onMessage h m) s in
  r_state r
  = with_replayDataStore (<[rid := d]> (replayDataStore s))
      (with_timers (<[nextTimer s := deadline_of rid d]> (timers s)) (N.succ (nextTimer s))
         (with_requestsStore (requestsStore s ++ [row])
            (with_pendingActions ({[id rd]} ∪ pendingActions s) s)))
  /\ r_trace r = [OEff (Broadcast (requestsStore s ++ [row]));
                  OCall (ExecuteScript (tabId rd) inj)]
  /\ r_status r = Returned true
  /\ exists k : Outcome unit -> Prog unit,
       r_pool r = [Det (ExecuteScript (tabId rd) inj) k]
       /\ (forall env s1, run_all env (k (Resolved tt)) s1 = mkRun s1 [] [] (Returned tt))
       /\ (forall env e s1,
             run_all env (k (Rejected e)) s1
             = match fallback_tab env with
               | Some a =>
                   if fallback_succeeds env inj
                   then mkRun s1 [OCall QueryActiveTab; OCall (ExecuteScript a inj)] []
                          (Returned tt)
                   else
                     observe (OCall QueryActiveTab)
                       (observe (OCall (ExecuteScript a inj))
                          (run_all env
                             (cleanupReplayState rid (replay_row_id h) (id rd) true
                                (Some MSG_REPLAY_INJECT)) s1))
               | None =>
                   observe (OCall QueryActiveTab)
                     (run_all env
                        (cleanupReplayState rid (replay_row_id h) (id rd) true
                           (Some MSG_REPLAY_INJECT)) s1)
               end).
Proof.
  intros Ha Hr Hraw Hp hs rid row d inj r. subst r hs rid row d inj.
  unfold onMessage. rewrite Ha, Hr, Hraw. cbn.
  rewrite decide_False by done. cbn.
  split; [done|]. split; [done|]. split; [done|].
  eexists. split; [reflexivity|]. split; [done|].
  intros env e s1. cbn. unfold fallback_succeeds, fallback_tab.
  destruct (env QueryActiveTab) as [[|[[|a]|] tabs]|e']; cbn.
  - by destruct (run_all env _ s1).
  - by destruct (run_all env _ s1).
  - destruct (env (ExecuteScript _ _)) as [[]|e'']; cbn; [done|].
    by destruct (run_all env _ s1).
  - by destruct (run_all env _ s1).
  - by destruct (run_all env _ s1).
Qed.

(** X14. A replay command for a row that is not pending marks the row
    pending, appends a synthetic finished row that holds the edited
    text and no response, arms a deadline, records the correlation
    under a fresh token with the headers of the message and the body
    parsed from the text, broadcasts the ledger and starts the
    injection of the fetch in the tab of the row, without waiting for
    it. *)
Theorem replay_command_starts_replay
    (h : Host) (m : Message.t) (rd : Transaction) (raw : string) (s : State) :
  Message.action m = "replay-request" -> Message.requestData m = Some rd ->
  Message.rawRequest m = Some raw -> id rd ∉ pendingActions s ->
  let hs := Message.headers m in
  let rid := replay_token h in
  let row := replay_row h rd raw hs in
  let d := replay_data h rd raw hs (nextTimer s) in
  let r := run (onMessage h m) s in
  requestsStore (r_state r) = requestsStore s ++ [row]
  /\ replayDataStore (r_state r) = <[rid := d]> (replayDataStore s)
  /\ timers (r_state r) = <[nextTimer s := deadline_of rid d]> (timers s)
  /\ pendingActions (r_state r) = {[id rd]} ∪ pendingActions s
  /\ r_trace r = [OEff (Broadcast (requestsStore s ++ [row]));
                  OCall (ExecuteScript (tabId rd) (replay_injection h raw hs))]
  /\ r_status r = Returned true.
Proof.
  intros Ha Hr Hraw Hp hs rid row d r.
  destruct (replay_run h m rd raw s Ha Hr Hraw Hp) as (Hs & Ht & Hst & _).
  subst r. rewrite Hs, Ht, Hst. done.
Qed.

Lemma replay_command_starts_replay_witness :
  let r := run (onMessage host0 (msg_replay row_a raw_a None)) s_one in
  requestsStore (r_state r) = [row_a] ++ [replay_row host0 row_a raw_a None]
  /\ replayDataStore (r_state r) = <[token_a := replay_a]> ∅
  /\ timers (r_state r) = <[0%N := deadline_of token_a replay_a]> ∅
  /\ pendingActions (r_state r) = {[ "N1" ]} ∪ ∅
  /\ r_trace r = [OEff (Broadcast ([row_a] ++ [replay_row host0 row_a raw_a None]));
                  OCall (ExecuteScript 1 (replay_injection host0 raw_a None))]
  /\ r_status r = Returned true.
Proof.
  apply (replay_command_starts_replay host0 (msg_replay row_a raw_a None) row_a raw_a s_one);
    try reflexivity.
  apply not_elem_of_empty.
Defined.

(** X15. The injection of a replay is tried in the tab of the replayed
    row and, when that fails, once more in the active tab of the
    current window, with the same arguments. When there is no such
    tab, or the second injection fails too, the replay is cleaned up
    with the message that the script could not be injected. A
    successful injection changes nothing. *)
Theorem replay_injection_falls_back
    (h : Host) (m : Message.t) (rd : Transaction) (raw : string) (s : State) :
  Message.action m = "replay-request" -> Message.requestData m = Some rd ->
  Message.rawRequest m = Some raw -> id rd ∉ pendingActions s ->
  let inj := replay_injection h raw (Message.headers m) in
  exists k : Outcome unit -> Prog unit,
    r_pool (run (onMessage h m) s) = [Det (ExecuteScript (tabId rd) inj) k]
    /\ (forall env s1, run_all env (k (Resolved tt)) s1 = mkRun s1 [] [] (Returned tt))
    /\ (forall env e s1,
          run_all env (k (Rejected e)) s1
          = match fallback_tab env with
            | Some a =>
                if fallback_succeeds env inj
                then mkRun s1 [OCall QueryActiveTab; OCall (ExecuteScript a inj)] []
                       (Returned tt)
                else
                  observe (OCall QueryActiveTab)
                    (observe (OCall (ExecuteScript a inj))
                       (run_all env
                          (cleanupReplayState (replay_token h) (replay_row_id h) (id rd)
                             true (Some MSG_REPLAY_INJECT)) s1))
            | None =>
                observe (OCall QueryActiveTab)
                  (run_all env
                     (cleanupReplayState (replay_token h) (replay_row_id h) (id rd)
                        true (Some MSG_REPLAY_INJECT)) s1)
            end).
Proof.
  intros Ha Hr Hraw Hp inj.
  destruct (replay_run h m rd raw s Ha Hr Hraw Hp) as (_ & _ & _ & k & Hk).
  by exists k.
Qed.

Lemma replay_injection_falls_back_witness :
  exists k : Outcome unit -> Prog unit,
    r_pool (run (onMessage host0 (msg_replay row_a raw_a None)) s_one)
    = [Det (ExecuteScript 1 (replay_injection host0 raw_a None)) k]
    /\ forall env s1, run_all env (k (Resolved tt)) s1 = mkRun s1 [] [] (Returned tt).
Proof.
  destruct (replay_injection_falls_back host0 (msg_replay row_a raw_a None) row_a raw_a
              s_one eq_refl eq_refl eq_refl (not_elem_of_empty (C:=gset string) _))
    as (k & H1 & H2 & _).
  by exists k.
Defined.

Lemma cleanup_run rid rrid oid response (s : State) :
  let text := if truthy response then response else Some MSG_REPLAY_DEFAULT in
  let r := run (cleanupReplayState rid rrid oid true response) s in
  r_status r = Returned tt
  /\ replayDataStore (r_state r) = delete rid (replayDataStore s)
  /\ pendingActions (r_state r) = pendingActions s ∖ {[oid]}
  /\ match replayDataStore s !! rid with
     | Some d =>
         timers (r_state r) = delete (ReplayData.timeoutId d) (timers s)
         /\ match findIndex rrid (requestsStore s) with
            | Some i =>
                requestsStore (r_state r) = alter (set_rawResponse text) i (requestsStore s)
                /\ r_trace r = [OEff (Broadcast (requestsStore (r_state r)))]
            | None => requestsStore (r_state r) = requestsStore s /\ r_trace r = []
            end
     | None =>
         timers (r_state r) = timers s
         /\ requestsStore (r_state r) = requestsStore s /\ r_trace r = []
     end.
Proof.
  intros text r. subst r text. unfold cleanupReplayState. cbn.
  destruct (replayDataStore s !! rid) as [d|] eqn:Hd; cbn.
  - destruct (findIndex rrid (requestsStore s)) as [i|] eqn:Hi; cbn.
    + destruct (findIndex_Some _ _ _ Hi) as (row & Hrow & _). rewrite Hrow. cbn.
      assert (<[i:=set_rawResponse (if truthy response then response
                                    else Some MSG_REPLAY_DEFAULT) row]> (requestsStore s)
              = alter (set_rawResponse (if truthy response then response
                                        else Some MSG_REPLAY_DEFAULT)) i (requestsStore s))
        as ->.
      { apply list_eq. intros j. destruct (decide (i = j)) as [<-|Hne].
        - rewrite list_lookup_insert_eq by (by eapply lookup_lt_Some).
          by rewrite list_lookup_alter_eq, Hrow.
        - by rewrite list_lookup_insert_ne, list_lookup_alter_ne. }
      done.
    + done.
  - repeat split; try done. symmetry. by apply delete_id.
Qed.

(** X16. [cleanupReplayState] always removes the correlation of its
    token and takes the replayed row out of the pending set. When the
    correlation was still live it cancels the deadline of the
    correlation and, if the synthetic row is in the ledger, writes the
    given text (or the default one, when the text is empty) as the
    response of that row and broadcasts. When the correlation was
    resolved before, nothing else changes. *)
Theorem cleanup_resolves_replay
    (rid rrid oid : string) (response : option string) (s : State) :
  let text := if truthy response then response else Some MSG_REPLAY_DEFAULT in
  let r := run (cleanupReplayState rid rrid oid true response) s in
  r_status r = Returned tt
  /\ replayDataStore (r_state r) = delete rid (replayDataStore s)
  /\ pendingActions (r_state r) = pendingActions s ∖ {[oid]}
  /\ match replayDataStore s !! rid with
     | Some d =>
         timers (r_state r) = delete (ReplayData.timeoutId d) (timers s)
         /\ match findIndex rrid (requestsStore s) with
            | Some i =>
                requestsStore (r_state r) = alter (set_rawResponse text) i (requestsStore s)
                /\ r_trace r = [OEff (Broadcast (requestsStore (r_state r)))]
            | None => requestsStore (r_state r) = requestsStore s /\ r_trace r = []
            end
     | None =>
         timers (r_state r) = timers s
         /\ requestsStore (r_state r) = requestsStore s /\ r_trace r = []
     end.
Proof. apply cleanup_run. Qed.

(** X17. A replay command without raw request text fails after it has
    marked the row pending, and it leaves the mark: no row, no
    correlation and no deadline are created, and in the state it
    leaves every resume or replay command for that row returns at
    once without doing anything. *)
Theorem replay_without_text_blocks_row
    (h : Host) (m : Message.t) (rd : Transaction) (s : State) :
  Message.action m = "replay-request" -> Message.requestData m = Some rd ->
  Message.rawRequest m = None -> id rd ∉ pendingActions s ->
  let r := run (onMessage h m) s in
  r_state r = with_pendingActions ({[id rd]} ∪ pendingActions s) s
  /\ r_trace r = [] /\ r_pool r = []
  /\ (exists e, r_status r = Failed e)
  /\ forall h2 m2 rd2,
       Message.action m2 = "resume-request" \/ Message.action m2 = "replay-request" ->
       Message.requestData m2 = Some rd2 -> id rd2 = id rd ->
       run (onMessage h2 m2) (r_state r) = mkRun (r_state r) [] [] (Returned true).
Proof.
  intros Ha Hr Hraw Hp r. subst r.
  unfold onMessage at 1 2 3 4. rewrite Ha, Hr, Hraw. cbn.
  rewrite decide_False by done. cbn.
  split; [done|]. split; [done|]. split; [done|]. split; [eauto|].
  intros h2 m2 rd2 Ha2 Hr2 Hid.
  unfold onMessage. rewrite Ha, Hr, Hraw. cbn.
  rewrite decide_False by done. cbn.
  destruct Ha2 as [Ha2|Ha2]; rewrite Ha2, Hr2; cbn;
    rewrite decide_True; [done|set_solver|done|set_solver].
Qed.

Lemma replay_without_text_blocks_row_witness :
  let r := run (onMessage host0
                  (Message.mk "replay-request" (Some row_a) None None None None None
                     intercept)) s_one in
  r_state r = with_pendingActions ({[ "N1" ]} ∪ ∅) s_one
  /\ run (onMessage host0 (msg_resume row_a None)) (r_state r)
     = mkRun (r_state r) [] [] (Returned true).
Proof.
  destruct (replay_without_text_blocks_row host0
              (Message.mk "replay-request" (Some row_a) None None None None None intercept)
              row_a s_one eq_refl eq_refl eq_refl (not_elem_of_empty (C:=gset string) _))
    as (H1 & _ & _ & _ & H2).
  split; [exact H1|].
  exact (H2 host0 (msg_resume row_a None) row_a (or_introl eq_refl) eq_refl eq_refl).
Defined.

Lemma replay_match_all (h : Host) (env : Env) (s : State) t params rid d :
  let tab := Npos t in
  let q := Params.requestId params in
  nonempty q = true ->
  isWhitelisted s (PausedRequest.url (Params.request params)) = false ->
  carries params rid -> nonempty rid = true ->
  replayDataStore s !! rid = Some d ->
  run_all env (onEvent h (Some tab) "Fetch.requestPaused" params) s
  = run_all env (replay_match tab q rid d) s.
Proof.
  intros tab q Hq Hwl Htok Hne Hlive. subst tab q. unfold carries in Htok.
  unfold onEvent, onEvent_with. cbn [String.eqb Ascii.eqb Bool.eqb negb].
  rewrite Hq. cbn [negb bind get run_all]. rewrite Hwl, Htok.
  unfold live_replay. by rewrite Hne, Hlive.
Qed.

(** X18. When the command that resumes the pause event of a replay
    fails, the router takes back the id mapping and the pending mark
    of the replayed row; the correlation and its deadline stay
    removed, the ledger is untouched and nothing is broadcast. In the
    state this leaves, neither a direct signal nor the deadline of
    that replay does anything. *)
Theorem failed_replay_is_abandoned
    (h : Host) (env : Env) (s : State) (t : positive) (params : Params.t)
    (rid : string) (d : ReplayData.t) (e : string) :
  let tab := Npos t in
  let q := Params.requestId params in
  nonempty q = true ->
  isWhitelisted s (PausedRequest.url (Params.request params)) = false ->
  carries params rid -> nonempty rid = true ->
  replayDataStore s !! rid = Some d ->
  env (replay_command tab q d) = Rejected e ->
  let r := run_all env (onEvent h (Some tab) "Fetch.requestPaused" params) s in
  r_status r = Returned tt
  /\ r_trace r = [OCall (replay_command tab q d)]
  /\ requestsStore (r_state r) = requestsStore s
  /\ replayDataStore (r_state r) !! rid = None
  /\ timers (r_state r) !! ReplayData.timeoutId d = None
  /\ replayIdToOriginalIdMap (r_state r) !! q = None
  /\ (ReplayData.originalId d ∉ pendingActions (r_state r))
  /\ (forall h2 m, is_signal m rid ->
        run (onMessage h2 m) (r_state r) = mkRun (r_state r) [] [] (Returned true))
  /\ run (onTimeout (ReplayData.timeoutId d)) (r_state r)
     = mkRun (r_state r) [] [] (Returned tt).
Proof.
  intros tab q Hq Hwl Htok Hne Hlive He r. subst r tab q.
  rewrite (replay_match_all h env s t params rid d) by done.
  remember (run_all env (replay_match (N.pos t) (Params.requestId params) rid d) s)
    as r eqn:Hr.
  unfold replay_match, replay_command in *. cbn in Hr. rewrite He in Hr. cbn in Hr.
  subst r. cbn [r_state r_trace r_status].
  split; [done|]. split; [done|]. split; [done|].
  split; [cbn; by rewrite lookup_delete_eq|].
  split; [cbn; by rewrite lookup_delete_eq|].
  split; [cbn; by rewrite lookup_delete_eq|].
  split; [cbn; set_solver|].
  split.
  - intros h2 m Hsig. apply (signal_dead h2 m rid); [done|]. cbn.
    by rewrite lookup_delete_eq.
  - apply timeout_dead. cbn. by rewrite lookup_delete_eq.
Qed.

Lemma failed_replay_is_abandoned_witness :
  let env : Env :=
    fun c => match c return Outcome (ret c) with
             | ContinueRequest _ _ (Some _) _ => Rejected "Invalid InterceptionId"
             | c' => env_ok c'
             end in
  let r := run_all env (onEvent host0 (Some 1%N) "Fetch.requestPaused" (ev_replayed "I7"))
             s_replaying in
  requestsStore (r_state r) = requestsStore s_replaying
  /\ replayDataStore (r_state r) !! token_a = None
  /\ ("N1" ∉ pendingActions (r_state r)).
Proof.
  intros env.
  destruct (failed_replay_is_abandoned host0 env s_replaying 1 (ev_replayed "I7")
              token_a replay_a "Invalid InterceptionId"
              eq_refl eq_refl eq_refl eq_refl eq_refl eq_refl)
    as (_ & _ & H1 & H2 & _ & _ & H3 & _).
  split; [exact H1|]. split; [exact H2|exact H3].
Defined.

End HandlerFacts.

Module WebRequestFacts.
Import Js Async Async.Notations Background WebRequest Examples Samples.

Lemma findWaiting_Some details l i :
  findWaiting details l = Some i <->
  exists row, l !! i = Some row /\ waiting details row = true /\
    forall j row', l !! j = Some row' -> j < i -> waiting details row' = false.
Proof.
  unfold findWaiting. split.
  - destruct (list_find _ l) as [[i' row]|] eqn:Hf; [|done].
    intros [= <-]. apply list_find_Some in Hf as (Hl & Hw & Hmin).
    exists row. split_and!; [done..|].
    intros j row' Hj Hlt. specialize (Hmin j row' Hj Hlt).
    by destruct (waiting details row').
  - intros (row & Hl & Hw & Hmin).
    assert (list_find (fun r => waiting details r = true) l = Some (i, row)) as ->; [|done].
    apply list_find_Some. split_and!; [done..|].
    intros j row' Hj Hlt. rewrite (Hmin j row' Hj Hlt). done.
Qed.

Lemma findWaiting_None details l :
  findWaiting details l = None <->
  Forall (fun row => waiting details row = false) l.
Proof.
  unfold findWaiting. rewrite fmap_None, list_find_None.
  apply Forall_iff. intros row. by destruct (waiting details row).
Qed.

(** X19. The [onBeforeSendHeaders] listener always hands the request
    headers back unchanged and starts nothing. When headers are
    present, the first ledger row that is paused and has the URL and
    the tab of the request gets them as its [requestHeaders] (a header
    without text value becomes the empty string), and the new ledger is
    broadcast; no other row changes. Without such a row, or without
    headers, the listener changes and sends nothing. *)
Theorem request_headers_go_to_first_waiting_row details s :
  let r := run (onBeforeSendHeaders details) s in
  r_status r = Returned (requestHeaders details) /\
  r_pool r = [] /\
  (forall hs i row,
     requestHeaders details = Some hs ->
     requestsStore s !! i = Some row ->
     waiting details row = true ->
     (forall j row', requestsStore s !! j = Some row' -> j < i ->
                     waiting details row' = false) ->
     let ledger := <[i := set_requestHeaders (formattedHeaders hs) row]> (requestsStore s) in
     r_state r = with_requestsStore ledger s /\
     r_trace r = [OEff (Broadcast ledger)]) /\
  (requestHeaders details = None \/
   Forall (fun row => waiting details row = false) (requestsStore s) ->
   r_state r = s /\ r_trace r = []).
Proof.
  cbn zeta. unfold onBeforeSendHeaders. cbn [bind get run].
  destruct (findWaiting details (requestsStore s)) as [i|] eqn:Hf.
  - apply findWaiting_Some in Hf as (row & Hl & Hw & Hmin).
    destruct (requestHeaders details) as [hs|] eqn:Hh.
    + unfold update_row. cbn. rewrite Hl. cbn. split_and!; [done..| |].
      * intros hs' i' row' [= <-] Hl' Hw' Hmin'.
        assert (i' = i) as ->.
        { destruct (Nat.lt_trichotomy i' i) as [Hlt|[->|Hlt]]; [|done|].
          - rewrite (Hmin _ _ Hl' Hlt) in Hw'. done.
          - rewrite (Hmin' _ _ Hl Hlt) in Hw. done. }
        assert (row' = row) as -> by congruence. done.
      * intros [[=]|Hall].
        rewrite Forall_lookup in Hall. rewrite (Hall _ _ Hl) in Hw. done.
    + cbn. split_and!; [done..| |].
      * intros hs' i' row' [=].
      * done.
  - apply findWaiting_None in Hf.
    split_and!; [by destruct (requestHeaders details)..| |].
    + intros hs i row _ Hl Hw _.
      rewrite Forall_lookup in Hf. rewrite (Hf _ _ Hl) in Hw. done.
    + intros _. by destruct (requestHeaders details).
Qed.

Lemma request_headers_go_to_first_waiting_row_witness :
  r_state (run (onBeforeSendHeaders details_a) s_one)
  = with_requestsStore
      [set_requestHeaders [mkHeader "Accept" "text/html"; mkHeader "X-Bin" ""] row_a]
      s_one.
Proof.
  refine (proj1 (proj1 (proj2 (proj2
    (request_headers_go_to_first_waiting_row details_a s_one)))
      [("Accept", Some "text/html"); ("X-Bin", None)] 0 row_a _ _ _ _)).
  - reflexivity.
  - reflexivity.
  - reflexivity.
  - intros j row' Hj Hlt. inversion Hlt.
Defined.

End WebRequestFacts.

Module LifecycleFacts.
Import Js Async Async.Notations Background Lifecycle AsyncFacts Tabs Examples Samples.

#[local] Arguments includes : simpl never.

Lemma attached_true t s : attached t s = true <-> tracked s t.
Proof. unfold attached, tracked. by rewrite bool_decide_eq_true. Qed.

Lemma attached_false t s : attached t s = false <-> attachedTabs s !! t = None.
Proof.
  unfold attached. rewrite bool_decide_eq_false, eq_None_not_Some. done.
Qed.

(** What one call of [attachDebugger] leaves: state and trace. *)
Lemma attach_run env t s :
  exists tr,
    run_all env (attachDebugger t) s
    = mkRun (if attached t s then s
             else if attaches env t
                  then with_attachedTabs (<[t := version]> (attachedTabs s)) s
                  else s)
            tr [] (Returned tt)
    /\ (forall t', OCall (DebuggerDetach t') ∉ tr)
    /\ (attached t s = true -> tr = []).
Proof.
  unfold attachDebugger. cbn [bind get run_all].
  destruct (attached t s) eqn:Ha.
  { exists []. split_and!; [done| |done]. intros t'. set_solver. }
  apply attached_false in Ha.
  assert (with_attachedTabs (delete t (attachedTabs s)) s = s) as Hsame.
  { destruct s as [c m]. unfold with_attachedTabs. cbn in *.
    by rewrite delete_id. }
  assert (with_attachedTabs
            (delete t (<[t := version]> (attachedTabs s)))
            (with_attachedTabs (<[t := version]> (attachedTabs s)) s) = s) as Hback.
  { destruct s as [c m]. unfold with_attachedTabs. cbn in *.
    by rewrite delete_insert_eq, delete_id. }
  unfold attaches. cbn.
  destruct (env (DebuggerAttach t)) as [[]|m1]; cbn.
  - destruct (env (FetchEnable t)) as [[]|m2]; cbn.
    + eexists. split_and!; [done| |done]. intros t'. set_solver.
    + rewrite Hback.
      destruct (includes "another debugger" m2); cbn;
        (eexists; split_and!; [done| |done]; intros t'; set_solver).
  - rewrite Hsame.
    destruct (includes "another debugger" m1); cbn;
      (eexists; split_and!; [done| |done]; intros t'; set_solver).
Qed.

Lemma detach_run env t s :
  run_all env (detachDebugger t) s
  = mkRun (with_attachedTabs (delete t (attachedTabs s)) s)
          (if attached t s then [OCall (DebuggerDetach t)] else [])
          [] (Returned tt).
Proof.
  unfold detachDebugger. cbn [bind get run_all].
  destruct (attached t s) eqn:Ha; cbn.
  - by destruct (env (DebuggerDetach t)) as [[]|m].
  - apply attached_false in Ha. destruct s as [c m]. unfold with_attachedTabs.
    cbn in *. by rewrite delete_id.
Qed.

Lemma listed_nil t : ~ listed [] t.
Proof. intros [H _]. by apply elem_of_nil in H. Qed.

Lemma listed_cons_skip o tabs t :
  (forall p, o <> Some (Npos p)) -> listed (o :: tabs) t <-> listed tabs t.
Proof.
  intros Ho. unfold listed. rewrite elem_of_cons. split; [|tauto].
  intros [[<-|H] Hn]; [|done]. destruct t as [|p]; [done|]. exfalso. by apply (Ho p).
Qed.

Lemma listed_cons p tabs t :
  listed (Some (Npos p) :: tabs) t <-> t = Npos p \/ listed tabs t.
Proof.
  unfold listed. rewrite elem_of_cons. split.
  - intros [[[= ->]|H] Hn]; [by left|by right].
  - intros [->|[H Hn]]; split; auto; done.
Qed.

(** The loop of [toggleAllTabs(true)]. *)
Lemma for_tabs_attach env tabs : forall s,
  exists s' tr,
    run_all env (for_tabs attachDebugger tabs) s = mkRun s' tr [] (Returned tt)
    /\ core s' = core s
    /\ (forall t', OCall (DebuggerDetach t') ∉ tr)
    /\ forall t, tracked s' t <->
                 tracked s t \/ (listed tabs t /\ attaches env t = true).
Proof.
  induction tabs as [|o tabs IH]; intros s.
  - exists s, []. split_and!; [done..| |].
    + intros t'. set_solver.
    + intros t. split; [tauto|]. intros [H|[H _]]; [done|]. by apply listed_nil in H.
  - destruct o as [[|p]|].
    + destruct (IH s) as (s' & tr & Hr & Hc & Hd & Ht). exists s', tr.
      split_and!; [done..|]. intros t. rewrite Ht, listed_cons_skip; [done|].
      by intros p.
    + cbn [for_tabs].
      destruct (attach_run env (Npos p) s) as (tr1 & Hr1 & Hd1 & _).
      set (s1 := if attached (N.pos p) s then s
                 else if attaches env (N.pos p)
                      then with_attachedTabs (<[N.pos p:=version]> (attachedTabs s)) s
                      else s) in *.
      destruct (IH s1) as (s' & tr & Hr & Hc & Hd & Ht).
      exists s', (tr1 ++ tr).
      erewrite run_all_bind_ret by exact Hr1. rewrite Hr.
      unfold seq_run; cbn. split_and!; [done| | |].
      * rewrite Hc. subst s1. destruct (attached _ s); [done|].
        by destruct (attaches env _).
      * intros t'. rewrite elem_of_app. intros [H|H]; [by apply Hd1 in H|by apply Hd in H].
      * intros t. rewrite Ht, listed_cons.
        assert (tracked s1 t <->
                tracked s t \/ (t = N.pos p /\ attaches env t = true)) as ->.
        { subst s1. destruct (attached (N.pos p) s) eqn:Ha.
          - apply attached_true in Ha. split; [tauto|].
            intros [H|[-> _]]; done.
          - apply attached_false in Ha.
            destruct (attaches env (N.pos p)) eqn:Hat.
            + unfold tracked; cbn. rewrite lookup_insert_is_Some.
              destruct (decide (t = N.pos p)) as [->|Hne].
              * split; [intros _; right; done|intros _; left; done].
              * split; [intros [H|[_ H]]; [congruence|by left]|].
                intros [H|[H _]]; [right; done|done].
            + split; [tauto|]. intros [H|[-> H]]; [done|congruence]. }
        tauto.
    + destruct (IH s) as (s' & tr & Hr & Hc & Hd & Ht). exists s', tr.
      split_and!; [done..|]. intros t. rewrite Ht, listed_cons_skip; [done|].
      by intros p.
Qed.

(** The loop of [toggleAllTabs(false)]. *)
Lemma for_tabs_detach env tabs : forall s,
  exists s' tr,
    run_all env (for_tabs detachDebugger tabs) s = mkRun s' tr [] (Returned tt)
    /\ core s' = core s
    /\ (forall t, OCall (DebuggerDetach t) ∈ tr <-> listed tabs t /\ tracked s t)
    /\ forall t, tracked s' t <-> tracked s t /\ ~ listed tabs t.
Proof.
  induction tabs as [|o tabs IH]; intros s.
  - exists s, []. split_and!; [done..| |].
    + intros t. split; [set_solver|]. intros [H _]. by apply listed_nil in H.
    + intros t. split; [|tauto]. intros H; split; [done|apply listed_nil].
  - destruct o as [[|p]|].
    + destruct (IH s) as (s' & tr & Hr & Hc & Hd & Ht). exists s', tr.
      split_and!; [done..| |]; intros t; rewrite ?Hd, ?Ht, listed_cons_skip;
        done.
    + cbn [for_tabs].
      pose proof (detach_run env (Npos p) s) as Hr1.
      set (s1 := with_attachedTabs (delete (N.pos p) (attachedTabs s)) s) in *.
      destruct (IH s1) as (s' & tr & Hr & Hc & Hd & Ht).
      eexists s', _.
      erewrite run_all_bind_ret by exact Hr1. rewrite Hr.
      unfold seq_run; cbn.
      assert (forall t, tracked s1 t <-> tracked s t /\ t <> N.pos p) as Hs1.
      { intros t. unfold tracked, s1; cbn. rewrite lookup_delete_is_Some. naive_solver. }
      split_and!; [done|done| |].
      * intros t. rewrite elem_of_app, Hd, Hs1, listed_cons.
        destruct (attached (N.pos p) s) eqn:Ha.
        -- apply attached_true in Ha. rewrite list_elem_of_singleton.
           split.
           ++ intros [[= ->]|(Hl & Hk & Hne)]; [split; [by left|done]|].
              split; [by right|done].
           ++ intros [[->|Hl] Hk]; [by left|].
              destruct (decide (t = N.pos p)) as [->|Hne]; [by left|].
              right. done.
        -- assert (~ tracked s (N.pos p)) as Hno.
           { intros H. apply attached_true in H. congruence. }
           split.
           ++ intros [H|(Hl & Hk & Hne)]; [by apply elem_of_nil in H|].
              split; [by right|done].
           ++ intros [[->|Hl] Hk]; [done|].
              right. split_and!; [done..|]. by intros ->.
      * intros t. rewrite Ht, Hs1, listed_cons. tauto.
    + destruct (IH s) as (s' & tr & Hr & Hc & Hd & Ht). exists s', tr.
      split_and!; [done..| |]; intros t; rewrite ?Hd, ?Ht, listed_cons_skip;
        done.
Qed.

(** X20. [attachDebugger] never fails and touches nothing but the map
    of attached tabs. Afterwards a tab is in the map exactly when it
    was there before or it is the given tab and both [debugger.attach]
    and [Fetch.enable] succeeded. No detach command is issued, also
    when [Fetch.enable] fails after a successful attach; for a tab
    already in the map no command is issued at all. *)
Theorem attach_tracks_working_debuggers env t s :
  let r := run_all env (attachDebugger t) s in
  r_status r = Returned tt /\
  core (r_state r) = core s /\
  (forall t', tracked (r_state r) t' <->
              tracked s t' \/ (t' = t /\ attaches env t = true)) /\
  (forall t', OCall (DebuggerDetach t') ∉ r_trace r) /\
  (tracked s t -> r_trace r = []).
Proof.
  cbn zeta. destruct (attach_run env t s) as (tr & -> & Hd & Hnil). cbn.
  split_and!; [done| | |done|].
  - destruct (attached t s); [done|]. by destruct (attaches env t).
  - intros t'. destruct (attached t s) eqn:Ha.
    + apply attached_true in Ha. split; [tauto|]. intros [H|[-> _]]; done.
    + apply attached_false in Ha. destruct (attaches env t) eqn:Hat.
      * unfold tracked; cbn. rewrite lookup_insert_is_Some.
        destruct (decide (t' = t)) as [->|Hne]; [naive_solver|].
        split; [intros [H|[_ H]]; [congruence|by left]|].
        intros [H|[H _]]; [right; done|done].
      * split; [tauto|]. intros [H|[_ H]]; done.
  - intros H. apply attached_true in H. auto.
Qed.

Lemma attach_tracks_working_debuggers_witness :
  r_trace (run_all env_tabs (attachDebugger 7) script_two) = [].
Proof.
  refine (proj2 (proj2 (proj2 (proj2
    (attach_tracks_working_debuggers env_tabs 7 script_two)))) _).
  unfold tracked. vm_compute. eauto.
Defined.

Lemma toggle_run env b s :
  run_all env (toggleAllTabs b) s
  = let s1 := with_core (with_isEnabled b (core s)) s in
    observe (OEff (Core (UpdateBadge b (mode (core s)))))
      (observe (OCall TabsQuery)
         (match env TabsQuery with
          | Resolved tabs =>
              run_all env (for_tabs (if b then attachDebugger else detachDebugger) tabs) s1
          | Rejected m => mkRun s1 [] [] (Failed m)
          end)).
Proof.
  unfold toggleAllTabs. cbn. by destruct (env TabsQuery).
Qed.

(** X21. When the tab query answers, [toggleAllTabs(true)] returns with
    the switch on, and a tab is in the map of attached tabs exactly
    when it was there before or it is a tab of the answer (with a
    non-zero id) for which both debugger calls succeed. The ledger is
    not touched and no tab is detached. *)
Theorem switching_on_attaches_listed_tabs env tabs s :
  env TabsQuery = Resolved tabs ->
  let r := run_all env (toggleAllTabs true) s in
  r_status r = Returned tt /\
  isEnabled (core (r_state r)) = true /\
  requestsStore (core (r_state r)) = requestsStore (core s) /\
  (forall t, tracked (r_state r) t <->
             tracked s t \/ (listed tabs t /\ attaches env t = true)) /\
  (forall t, OCall (DebuggerDetach t) ∉ r_trace r).
Proof.
  intros Hq. cbn zeta. rewrite toggle_run, Hq. cbn zeta.
  destruct (for_tabs_attach env tabs (with_core (with_isEnabled true (core s)) s))
    as (s' & tr & -> & Hc & Hd & Ht).
  cbn. rewrite Hc. cbn. split_and!; [done..|exact Ht|].
  intros t. rewrite !elem_of_cons. intros [[=]|[[=]|H]]. by apply Hd in H.
Qed.

Lemma switching_on_attaches_listed_tabs_witness :
  tracked (r_state (run_all env_busy (toggleAllTabs true) script_one)) 7
  /\ ~ tracked (r_state (run_all env_busy (toggleAllTabs true) script_one)) 3.
Proof.
  pose proof (switching_on_attaches_listed_tabs env_busy
                [Some 3%N; None; Some 7%N] script_one eq_refl)
    as (_ & _ & _ & H & _).
  split.
  - apply H. right. split; [|reflexivity]. split; [|done].
    apply list_elem_of_lookup. by exists 2.
  - intros H3. apply H in H3 as [H3|[_ H3]].
    + unfold tracked in H3. vm_compute in H3. by destruct H3.
    + vm_compute in H3. discriminate.
Defined.

(** X22. When the tab query answers, [toggleAllTabs(false)] returns with
    the switch off. It sends the detach command for exactly the
    attached tabs of the answer, and these leave the map whether or
    not the command succeeds; an attached tab that the query does not
    list stays in the map. *)
Theorem switching_off_detaches_listed_tabs env tabs s :
  env TabsQuery = Resolved tabs ->
  let r := run_all env (toggleAllTabs false) s in
  r_status r = Returned tt /\
  isEnabled (core (r_state r)) = false /\
  requestsStore (core (r_state r)) = requestsStore (core s) /\
  (forall t, tracked (r_state r) t <-> tracked s t /\ ~ listed tabs t) /\
  (forall t, OCall (DebuggerDetach t) ∈ r_trace r <-> listed tabs t /\ tracked s t).
Proof.
  intros Hq. cbn zeta. rewrite toggle_run, Hq. cbn zeta.
  destruct (for_tabs_detach env tabs (with_core (with_isEnabled false (core s)) s))
    as (s' & tr & -> & Hc & Hd & Ht).
  cbn. rewrite Hc. cbn. split_and!; [done..|exact Ht|].
  intros t. rewrite !elem_of_cons, Hd. split; [|tauto].
  intros [[=]|[[=]|H]]. done.
Qed.

Lemma switching_off_detaches_listed_tabs_witness :
  ~ tracked (r_state (run_all env_tabs (toggleAllTabs false) script_two)) 7.
Proof.
  pose proof (switching_off_detaches_listed_tabs env_tabs
                [Some 3%N; None; Some 7%N] script_two eq_refl)
    as (_ & _ & _ & H & _).
  intros H7. apply H in H7 as [_ H7]. apply H7. split; [|done].
  apply list_elem_of_lookup. by exists 2.
Defined.

(** When the tab query fails, [toggleAllTabs] fails with the same
    message after it has set the switch and the badge. *)
Lemma toggle_query_rejected env m b s :
  env TabsQuery = Rejected m ->
  run_all env (toggleAllTabs b) s
  = mkRun (with_core (with_isEnabled b (core s)) s)
          [OEff (Core (UpdateBadge b (mode (core s)))); OCall TabsQuery]
          [] (Failed m).
Proof. intros Hq. rewrite toggle_run, Hq. reflexivity. Qed.

Lemma release_finished row : status (release row) = finished.
Proof. unfold release. by destruct (status row) eqn:H. Qed.

Lemma release_keeps_finished row : status row = finished -> release row = row.
Proof. unfold release. by intros ->. Qed.

Lemma release_none_paused l : existsb is_paused l = false -> map release l = l.
Proof.
  induction l as [|row l IH]; [done|]. cbn. intros H.
  apply orb_false_iff in H as [Hrow Hl]. rewrite (IH Hl).
  f_equal. apply release_keeps_finished. unfold is_paused in Hrow.
  by destruct (status row).
Qed.

Lemma paused_exists l :
  existsb is_paused l = true <-> Exists (fun row => status row = paused) l.
Proof.
  rewrite Exists_exists. split.
  - intros H. apply existsb_exists in H as (row & Hin & Hrow).
    exists row. split; [by apply list_elem_of_In|].
    unfold is_paused in Hrow. by destruct (status row).
  - intros (row & Hin & Hrow). apply existsb_exists. exists row.
    split; [by apply list_elem_of_In|]. unfold is_paused. by rewrite Hrow.
Qed.

(** X23. When storage reports that the switch was turned off, the
    listener, before it first gives up control, sets the switch off
    and finishes every ledger row: a paused row becomes finished with
    the response text [MSG_AUTO_RELEASED], a finished row is kept as
    it is, and the new ledger is broadcast exactly when some row was
    paused. Up to that point the set of pending actions and the map
    of attached tabs are as before and no detach command is sent: the
    detaching of the tabs is left waiting for its tab query. The
    listener has then returned, or it awaits the clearing of the
    system proxy and returns after it without touching the state. *)
Theorem switch_off_finishes_paused_rows h changes s :
  c_enabled changes = Some false ->
  let r := run (onStorageChanged h changes "local") s in
  isEnabled (core (r_state r)) = false /\
  requestsStore (core (r_state r)) = map release (requestsStore (core s)) /\
  Forall (fun row => status row = finished) (requestsStore (core (r_state r))) /\
  (OEff (Core (Broadcast (map release (requestsStore (core s))))) ∈ r_trace r
   <-> Exists (fun row => status row = paused) (requestsStore (core s))) /\
  pendingActions (core (r_state r)) = pendingActions (core s) /\
  attachedTabs (r_state r) = attachedTabs s /\
  (forall t, OCall (DebuggerDetach t) ∉ r_trace r) /\
  (exists kt, r_pool r = [Det TabsQuery kt]) /\
  (r_status r = Returned tt \/
   exists k, r_status r = Pending ForceClearChromeProxy k /\
     forall o s1, run (k o) s1 = mkRun s1 [] [] (Returned tt)).
Proof.
  intros He. cbn zeta.
  assert (Forall (fun row => status row = finished)
            (map release (requestsStore (core s)))) as Hfin.
  { apply List.Forall_map, Forall_true. intros row. apply release_finished. }
  pose proof (paused_exists (requestsStore (core s))) as Hex.
  pose proof (release_none_paused (requestsStore (core s))) as Hnone.
  unfold onStorageChanged. cbn [String.eqb Ascii.eqb Bool.eqb negb].
  rewrite He. destruct changes as [ce cm cp cx]. cbn [c_mode c_endpoint c_proxyEnabled].
  clear He.
  destruct (existsb is_paused (requestsStore (core s))) eqn:Hp.
  - destruct Hex as [Hex _]. specialize (Hex eq_refl). clear Hnone.
    destruct cm as [m|], cp as [[u|]|]; cbn; rewrite ?Hp; cbn;
      try destruct (origin h u); cbn;
      destruct cx as [[[]|]|]; cbn;
      (split_and!;
       [done|done|done|split; [done|intros _; set_solver]|done|done
       |intros t; set_solver|by eexists
       |first [by left | right; eexists; split; [reflexivity|];
                         intros [[]|?] s1; reflexivity]]).
  - assert (~ Exists (fun row => status row = paused) (requestsStore (core s))) as Hno.
    { intros H. apply Hex in H. done. }
    specialize (Hnone eq_refl). rewrite Hnone in Hfin |- *. clear Hex.
    destruct cm as [m|], cp as [[u|]|]; cbn; rewrite ?Hp; cbn;
      try destruct (origin h u); cbn;
      destruct cx as [[[]|]|]; cbn;
      (split_and!;
       [done|done|done|split; [set_solver|done]|done|done
       |intros t; set_solver|by eexists
       |first [by left | right; eexists; split; [reflexivity|];
                         intros [[]|?] s1; reflexivity]]).
Qed.

Lemma switch_off_finishes_paused_rows_witness :
  requestsStore (core (r_state (run
     (onStorageChanged host_life changes_off "local") script_one)))
  = [set_rawResponse (Some MSG_AUTO_RELEASED) (set_status finished row_a)].
Proof.
  exact (proj1 (proj2
    (switch_off_finishes_paused_rows host_life changes_off script_one eq_refl))).
Defined.

(** X24. When the start-up read and the tab query both answer,
    [initialize] returns with the switch as stored and the mode as
    stored ([intercept] when none is stored). Tabs are attached only
    when the stored switch is on: then a tab is in the map exactly
    when it was there or it is a listed tab whose debugger calls
    succeed; with the switch off the map is as before and no tab is
    queried. *)
Theorem startup_follows_stored_switch h env st tabs s :
  env StorageGetStartup = Resolved st ->
  env TabsQuery = Resolved tabs ->
  let r := run_all env (initialize h) s in
  r_status r = Returned tt /\
  isEnabled (core (r_state r)) = networkInterceptorEnabled st /\
  mode (core (r_state r)) = default intercept (networkInterceptorMode st) /\
  requestsStore (core (r_state r)) = requestsStore (core s) /\
  (forall t, tracked (r_state r) t <->
             tracked s t \/ (networkInterceptorEnabled st = true /\
                             listed tabs t /\ attaches env t = true)) /\
  (networkInterceptorEnabled st = false -> OCall TabsQuery ∉ r_trace r).
Proof.
  intros Hst Hq. cbn zeta. unfold initialize. cbn [bind await run_all].
  rewrite Hst. cbn [bind modify_core modify updateBadge get emit run_all].
  match goal with
  | |- context [run_all env (bind ?p ?f) ?s0] =>
      assert (exists s1,
                run_all env p s0 = mkRun s1 [] [] (Returned tt)
                /\ isEnabled (core s1) = networkInterceptorEnabled st
                /\ mode (core s1) = default intercept (networkInterceptorMode st)
                /\ requestsStore (core s1) = requestsStore (core s)
                /\ attachedTabs s1 = attachedTabs s) as (s1 & Hr1 & He1 & Hm1 & Hl1 & Ha1)
  end.
  { destruct (truthy (aiApiEndpoint st)); [|by eexists].
    unfold whitelist_origin. destruct (aiApiEndpoint st) as [u|]; [|by eexists].
    destruct (origin h u); by eexists. }
  erewrite run_all_bind_ret by exact Hr1. cbn [bind get run_all].
  rewrite He1. destruct (networkInterceptorEnabled st) eqn:Hen.
  - rewrite toggle_run, Hq. cbn zeta.
    destruct (for_tabs_attach env tabs (with_core (with_isEnabled true (core s1)) s1))
      as (s' & tr & -> & Hc & Hd & Ht).
    cbn. rewrite Hc. cbn. split_and!; [done..| |done].
    intros t. rewrite Ht. unfold tracked; cbn. rewrite Ha1. tauto.
  - cbn. split_and!; [done..| |].
    + intros t. unfold tracked. rewrite Ha1. split; [tauto|].
      intros [H|[[=] _]]. done.
    + intros _. set_solver.
Qed.

Lemma startup_follows_stored_switch_witness :
  isEnabled (core (r_state (run_all env_tabs (initialize host_life) script_one)))
  = true.
Proof.
  exact (proj1 (proj2
    (startup_follows_stored_switch host_life env_tabs
       (mkStartup true None None) [Some 3%N; None; Some 7%N] script_one
       eq_refl eq_refl))).
Defined.

End LifecycleFacts.

Module ProxyFacts.
Import Js Async Async.Notations ProxyHandler AsyncFacts ProxyShapes Schedules Samples.

#[local] Arguments String.eqb : simpl never.
#[local] Arguments clock : simpl never.

Lemma load_state_run env n :
  run_all env loadProxyState n
  = mkRun n [OCall StorageGetState] [] (Returned (stored_state env)).
Proof.
  unfold loadProxyState, stored_state. cbn.
  by destruct (env StorageGetState) as [[v|]|].
Qed.

Lemma save_state_run env st n :
  run_all env (saveProxyState st) n
  = mkRun n [OCall (StorageSetState st)] [] (Returned tt).
Proof.
  unfold saveProxyState. cbn. by destruct (env (StorageSetState st)) as [[]|].
Qed.

Lemma putBack_run env st n :
  run_all env (putBack st) n
  = match restorable st with
    | Some v => mkRun n [OCall (ProxySet v)] []
                  (match env (ProxySet v) with
                   | Resolved _ => Returned tt
                   | Rejected m => Failed m
                   end)
    | None => mkRun n [OCall ProxyClear] []
                  (match env ProxyClear with
                   | Resolved _ => Returned tt
                   | Rejected m => Failed m
                   end)
    end.
Proof.
  unfold putBack, restorable.
  destruct (originalSettings st) as [[l [v|]]|]; cbn.
  - by destruct (env (ProxySet v)) as [[]|].
  - by destruct (env ProxyClear) as [[]|].
  - by destruct (env ProxyClear) as [[]|].
Qed.

(** The inner [try] of the two disabling paths. *)
Lemma restoreOrClear_run h env st n :
  run_all env (restoreOrClear h st) n
  = match restorable st with
    | Some v =>
        if resolves (env (ProxySet v))
        then mkRun (S n) [OCall (ProxySet v);
                          OCall (StorageSetState (mkProxyState false (clock h n) None))]
                   [] (Returned tt)
        else mkRun n [OCall (ProxySet v)] [] (Returned tt)
    | None =>
        if resolves (env ProxyClear)
        then mkRun (S n) [OCall ProxyClear;
                          OCall (StorageSetState (mkProxyState false (clock h n) None))]
                   [] (Returned tt)
        else mkRun n [OCall ProxyClear] [] (Returned tt)
    end.
Proof.
  unfold restoreOrClear.
  rewrite run_all_try_catch, run_all_bind, putBack_run. cbn zeta.
  destruct (restorable st) as [v|]; cbn.
  - destruct (env (ProxySet v)) as [[]|m]; cbn; [|done].
    by destruct (env (StorageSetState _)) as [[]|].
  - destruct (env ProxyClear) as [[]|m]; cbn; [|done].
    by destruct (env (StorageSetState _)) as [[]|].
Qed.

Lemma restoreOrClear_owner h env st n :
  isOurProxyActive st = true ->
  exists n' tr,
    run_all env (restoreOrClear h st) n = mkRun n' tr [] (Returned tt)
    /\ owner_only st tr
    /\ OCall (put_back_command st) ∈ tr.
Proof.
  intros Ha. rewrite restoreOrClear_run. unfold owner_only, put_back_command.
  destruct (restorable st) as [v|] eqn:Hv.
  - destruct (resolves (env (ProxySet v))); eexists _, _;
      (split; [reflexivity|]); split_and!;
      try (intros ? ?); try (intros ?); set_solver.
  - destruct (resolves (env ProxyClear)); eexists _, _;
      (split; [reflexivity|]); split_and!;
      try (intros ? ?); try (intros ?); set_solver.
Qed.

Lemma owner_only_cons st c tr :
  (forall v, c <> ProxySet v) -> c <> ProxyClear -> (forall x, c <> StorageSetState x) ->
  owner_only st tr -> owner_only st (OCall c :: tr).
Proof.
  intros H1 H2 H3 (Ha & Hb & Hc). unfold owner_only. split_and!.
  - intros v. rewrite elem_of_cons. intros [[= <-]|H]; [by destruct (H1 v)|eauto].
  - rewrite elem_of_cons. intros [[= <-]|H]; [done|eauto].
  - intros x. rewrite elem_of_cons. intros [[= <-]|H]; [by destruct (H3 x)|eauto].
Qed.

Lemma owner_only_app st tr c :
  (forall v, c <> ProxySet v) -> c <> ProxyClear -> (forall x, c <> StorageSetState x) ->
  owner_only st tr -> owner_only st (tr ++ [OCall c]).
Proof.
  intros H1 H2 H3 (Ha & Hb & Hc). unfold owner_only. split_and!.
  - intros v. rewrite elem_of_app, list_elem_of_singleton.
    intros [H|[= <-]]; [eauto|by destruct (H1 v)].
  - rewrite elem_of_app, list_elem_of_singleton. intros [H|[= <-]]; [eauto|done].
  - intros x. rewrite elem_of_app, list_elem_of_singleton.
    intros [H|[= <-]]; [eauto|by destruct (H3 x)].
Qed.

Lemma owner_only_nil st : owner_only st [].
Proof. unfold owner_only. split_and!; intros; set_solver. Qed.

Lemma disable_run h env settings n :
  Background.enabled settings = false ->
  run_all env (setChromeProxy h settings) n
  = if negb (available h) then mkRun n [] [] (Returned tt)
    else if isOurProxyActive (stored_state env)
         then observe (OCall StorageGetState)
                (run_all env (restoreOrClear h (stored_state env)) n)
         else mkRun n [OCall StorageGetState] [] (Returned tt).
Proof.
  intros He. unfold setChromeProxy. rewrite run_all_try_catch.
  destruct (available h); cbn [negb]; [|done].
  rewrite run_all_bind, load_state_run. cbn zeta. cbn [r_status r_state].
  rewrite He. cbn [negb].
  destruct (isOurProxyActive (stored_state env)) eqn:Ha; [|done].
  destruct (restoreOrClear_owner h env (stored_state env) n Ha)
    as (n' & tr & -> & _). done.
Qed.

(** X25. Turning the proxy off never fails and touches the system proxy
    only when the stored state says that the proxy is ours: then, when
    the proxy interface is available, [setChromeProxy] with disabled
    settings and [clearProxySettings] send the command that puts the
    saved settings back if there are any and the clear command
    otherwise, and whatever they store afterwards records that the
    proxy is not ours and holds no saved settings. When the proxy is
    not ours, [setChromeProxy] only reads the stored state.
    [clearProxySettings] always ends by removing the stored proxy
    settings. *)
Theorem disabling_touches_only_own_proxy h env settings n :
  Background.enabled settings = false ->
  let r := run_all env (setChromeProxy h settings) n in
  let r' := run_all env (clearProxySettings h) n in
  r_status r = Returned tt /\
  owner_only (stored_state env) (r_trace r) /\
  (isOurProxyActive (stored_state env) = false ->
   forall c, OCall c ∈ r_trace r -> c = StorageGetState) /\
  r_status r' = Returned tt /\
  owner_only (stored_state env) (r_trace r') /\
  last (r_trace r') = Some (OCall StorageRemoveSettings) /\
  (isOurProxyActive (stored_state env) = true -> available h = true ->
   OCall (put_back_command (stored_state env)) ∈ r_trace r /\
   OCall (put_back_command (stored_state env)) ∈ r_trace r').
Proof.
  intros He. cbn zeta. rewrite (disable_run h env settings n He).
  assert (exists n1 tr1,
            run_all env
              (if isOurProxyActive (stored_state env) && available h
               then restoreOrClear h (stored_state env) else Ret tt) n
            = mkRun n1 tr1 [] (Returned tt)
            /\ owner_only (stored_state env) tr1
            /\ (isOurProxyActive (stored_state env) = true -> available h = true ->
                OCall (put_back_command (stored_state env)) ∈ tr1))
    as (n1 & tr1 & Hr1 & Ho1 & Hp1).
  { destruct (isOurProxyActive (stored_state env)) eqn:Ha; cbn [andb].
    - destruct (available h).
      + destruct (restoreOrClear_owner h env (stored_state env) n Ha)
          as (n' & tr & -> & Ho & Hp). by eexists _, _.
      + eexists _, _. split_and!; [done|apply owner_only_nil|done].
    - eexists _, _. split_and!; [done|apply owner_only_nil|done]. }
  assert (exists n2,
            run_all env (clearProxySettings h) n
            = mkRun n2 ((OCall StorageGetState :: tr1) ++ [OCall StorageRemoveSettings])
                [] (Returned tt)) as (n2 & ->).
  { unfold clearProxySettings. rewrite run_all_try_catch.
    rewrite run_all_bind, load_state_run. cbn zeta. cbn [r_status r_state].
    rewrite run_all_bind, Hr1. cbn.
    destruct (env StorageRemoveSettings) as [[]|m']; unfold seq_run, observe; cbn;
      eexists; by rewrite ?app_nil_r. }
  cbn [r_status r_trace].
  destruct (available h); cbn [negb].
  - destruct (isOurProxyActive (stored_state env)) eqn:Ha.
    + destruct (restoreOrClear_owner h env (stored_state env) n Ha)
        as (n' & tr & -> & Ho & Hp). cbn.
      split_and!; [done| |done|done| |by rewrite ?app_comm_cons, last_snoc|].
      * by apply owner_only_cons.
      * apply owner_only_cons; [done..|]. by apply owner_only_app.
      * intros _ _. specialize (Hp1 eq_refl eq_refl). set_solver.
    + cbn. split_and!; [done| | |done| |by rewrite ?app_comm_cons, last_snoc|done].
      * apply owner_only_cons; [done..|apply owner_only_nil].
      * intros _ c. rewrite list_elem_of_singleton. by intros [= ->].
      * apply owner_only_cons; [done..|]. by apply owner_only_app.
  - cbn. split_and!; [done| | |done| |by rewrite ?app_comm_cons, last_snoc|done].
    + apply owner_only_nil.
    + intros _ c H. by apply elem_of_nil in H.
    + apply owner_only_cons; [done..|]. by apply owner_only_app.
Qed.

Lemma disabling_touches_only_own_proxy_witness :
  r_status (run_all env_pac (setChromeProxy host_proxy proxy_off) 0) = Returned tt.
Proof.
  exact (proj1 (disabling_touches_only_own_proxy host_proxy env_pac proxy_off 0
                  eq_refl)).
Defined.

Lemma enable_run h env settings n :
  available h = true ->
  Background.enabled settings = true ->
  run_all env (setChromeProxy h settings) n
  = match env ProxyGet with
    | Rejected m => mkRun n [OCall StorageGetState; OCall ProxyGet] [] (Failed m)
    | Resolved currentSettings =>
        match env (ProxySet (config_of settings)) with
        | Rejected m =>
            mkRun n [OCall StorageGetState; OCall ProxyGet;
                     OCall (ProxySet (config_of settings))] [] (Failed m)
        | Resolved _ =>
            mkRun (S n)
              [OCall StorageGetState; OCall ProxyGet;
               OCall (ProxySet (config_of settings));
               OCall (StorageSetState
                        (mkProxyState true (clock h n)
                           (if otherProxyRunning currentSettings
                               && negb (isOurProxyActive (stored_state env))
                            then currentSettings
                            else originalSettings (stored_state env))))]
              [] (Returned tt)
        end
    end.
Proof.
  intros Hav He. unfold setChromeProxy. rewrite run_all_try_catch, Hav. cbn [negb].
  rewrite run_all_bind, load_state_run. cbn zeta. cbn [r_status r_state].
  rewrite He. cbn [negb]. unfold getChromeProxySettings. rewrite Hav. cbn.
  destruct (env ProxyGet) as [cur|m]; cbn; [|done].
  destruct (env (ProxySet (config_of settings))) as [[]|m]; cbn; [|done].
  by destruct (env (StorageSetState _)) as [[]|].
Qed.

Lemma otherProxyRunning_value d :
  otherProxyRunning (Some d) = true -> exists v, value d = Some v.
Proof.
  unfold otherProxyRunning. destruct (value d) as [v|]; [eauto|].
  by rewrite andb_false_r.
Qed.

(** X26. Enabling and disabling compose to a round trip. Suppose the
    proxy is not ours, another proxy is running, and
    [setChromeProxy] with enabled settings succeeds in setting the
    system proxy. Then the last thing it does is to store a state,
    and whenever [setChromeProxy] with disabled settings later reads
    that state, its first proxy command sets the value the other
    proxy had, and it never clears. *)
Theorem disable_restores_what_enable_saved h (env1 env2 : Env) on off (n1 n2 : nat)
    cur v :
  available h = true ->
  Background.enabled on = true ->
  Background.enabled off = false ->
  isOurProxyActive (stored_state env1) = false ->
  env1 ProxyGet = Resolved (Some cur) ->
  otherProxyRunning (Some cur) = true ->
  value cur = Some v ->
  resolves (env1 (ProxySet (config_of on))) = true ->
  exists st1,
    last (r_trace (run_all env1 (setChromeProxy h on) n1))
    = Some (OCall (StorageSetState st1)) /\
    (env2 StorageGetState = Resolved (Some st1) ->
     let r := run_all env2 (setChromeProxy h off) n2 in
     (exists rest, r_trace r = OCall StorageGetState :: OCall (ProxySet v) :: rest) /\
     OCall ProxyClear ∉ r_trace r).
Proof.
  intros Hav Hon Hoff Hnot Hget Hother Hv Hset.
  rewrite (enable_run h env1 on n1 Hav Hon), Hget.
  destruct (env1 (ProxySet (config_of on))) as [[]|m]; [|done].
  rewrite Hother, Hnot. cbn [andb negb].
  eexists. split; [reflexivity|].
  intros Hst. cbn zeta. rewrite (disable_run h env2 off n2 Hoff), Hav. cbn [negb].
  unfold stored_state at 1. rewrite Hst. cbn [isOurProxyActive].
  rewrite restoreOrClear_run.
  unfold stored_state, restorable. rewrite Hst. cbn. rewrite Hv.
  destruct (env2 (ProxySet v)) as [[]|?]; cbn.
  - split; [eexists; reflexivity|]. set_solver.
  - split; [eexists; reflexivity|]. set_solver.
Qed.

Lemma disable_restores_what_enable_saved_witness :
  exists rest,
    r_trace (run_all env_ours (setChromeProxy host_proxy proxy_off) 1)
    = OCall StorageGetState :: OCall (ProxySet pac_config) :: rest.
Proof.
  destruct (disable_restores_what_enable_saved host_proxy env_pac env_ours
              proxy_on proxy_off 0 1 pac_details pac_config
              eq_refl eq_refl eq_refl eq_refl eq_refl eq_refl eq_refl eq_refl)
    as (st1 & Hlast & Hback).
  injection Hlast as <-.
  exact (proj1 (Hback eq_refl)).
Defined.

(** X27. Enabling the proxy while it is already ours never replaces the
    saved settings: whatever [chrome.proxy.settings.get] answers, any
    state that [setChromeProxy] stores says that the proxy is ours
    and holds the saved settings of the state it read. *)
Theorem enabling_again_keeps_saved_settings h env settings n st' :
  available h = true ->
  Background.enabled settings = true ->
  isOurProxyActive (stored_state env) = true ->
  OCall (StorageSetState st') ∈ r_trace (run_all env (setChromeProxy h settings) n) ->
  isOurProxyActive st' = true /\
  originalSettings st' = originalSettings (stored_state env).
Proof.
  intros Hav He Ha. rewrite (enable_run h env settings n Hav He), Ha.
  destruct (env ProxyGet) as [cur|m]; [|set_solver].
  destruct (env (ProxySet (config_of settings))) as [[]|m]; [|set_solver].
  cbn [negb]. rewrite andb_false_r. cbn. rewrite !elem_of_cons. intros [[=]|[[=]|[[=]|[[= ->]|H]]]]; [done|].
  by apply elem_of_nil in H.
Qed.

Lemma enabling_again_keeps_saved_settings_witness :
  isOurProxyActive (mkProxyState true 5 (Some pac_details)) = true /\
  originalSettings (mkProxyState true 5 (Some pac_details))
  = originalSettings (stored_state env_ours).
Proof.
  apply (enabling_again_keeps_saved_settings host_proxy env_ours proxy_on 5);
    [reflexivity..|].
  apply list_elem_of_In. vm_compute. auto 6.
Defined.

(** X28. When the system proxy is changed by someone else while the
    proxy is ours, the change listener stores a state that disowns
    the proxy and drops the saved settings; a later
    [setChromeProxy] with disabled settings that reads this state
    issues no proxy command at all. *)
Theorem foreign_change_disowns_proxy h env details n :
  levelOfControl details <> CONTROLLED ->
  isOurProxyActive (stored_state env) = true ->
  exists st1,
    r_trace (run_all env (onProxyChange h details) n)
    = [OCall StorageGetState; OCall (StorageSetState st1)] /\
    isOurProxyActive st1 = false /\
    originalSettings st1 = None /\
    forall (env2 : Env) off (n2 : nat),
      Background.enabled off = false ->
      env2 StorageGetState = Resolved (Some st1) ->
      forall c, OCall c ∈ r_trace (run_all env2 (setChromeProxy h off) n2) ->
                c = StorageGetState.
Proof.
  intros Hl Ha. unfold onProxyChange.
  rewrite run_all_bind, load_state_run. cbn zeta. cbn [r_status r_state].
  rewrite Ha. apply String.eqb_neq in Hl. rewrite Hl. cbn [negb andb].
  cbn. eexists. split.
  { by destruct (env (StorageSetState _)) as [[]|]. }
  split_and!; [done..|].
  intros env2 off n2 Hoff Hst c.
  rewrite (disable_run h env2 off n2 Hoff).
  unfold stored_state. rewrite Hst. cbn.
  destruct (available h); cbn; set_solver.
Qed.

Lemma foreign_change_disowns_proxy_witness :
  exists st1,
    r_trace (run_all env_ours (onProxyChange host_proxy pac_details) 3)
    = [OCall StorageGetState; OCall (StorageSetState st1)] /\
    isOurProxyActive st1 = false.
Proof.
  destruct (foreign_change_disowns_proxy host_proxy env_ours pac_details 3)
    as (st1 & Htr & Hact & _).
  - discriminate.
  - reflexivity.
  - exists st1. split; assumption.
Defined.

(** X29. The calls of [testProxyConnection] being answered in the
    order in which they are issued, each in its own way:
    [testProxyConnection] never fails. With disabled settings it
    calls nothing and reports that the proxy is not enabled. With
    enabled settings it reports success exactly when the proxy
    interface is available, the first read of the proxy settings and
    the command that sets the system proxy succeed, and the read of
    the proxy settings made after the set shows the mode
    [fixed_servers]; whenever the interface is available and the
    first read succeeds, the command that sets the system proxy has
    been sent, whatever the report. *)
Theorem proxy_test_checks_the_setting_only h (env : nat -> Env) settings n :
  let r := run_seq env 0 (testProxyConnection h settings) n in
  exists res,
    r_status r = Returned res /\
    (success res = true <->
     Background.enabled settings = true /\ available h = true /\
     resolves (env 1 ProxyGet) = true /\
     resolves (env 2 (ProxySet (config_of settings))) = true /\
     reports_fixed_servers (env 4 ProxyGet) = true) /\
    (Background.enabled settings = false ->
     r_trace r = [] /\ res = mkTestResult false "代理未启用" None) /\
    (Background.enabled settings = true -> available h = true ->
     resolves (env 1 ProxyGet) = true ->
     OCall (ProxySet (config_of settings)) ∈ r_trace r).
Proof.
  cbn zeta. unfold testProxyConnection.
  destruct (Background.enabled settings) eqn:He; cbn [negb].
  2: { eexists. cbn. split_and!; [done| |done|done]. split; [done|]. by intros [? _]. }
  unfold setChromeProxy, getChromeProxySettings, loadProxyState, saveProxyState.
  rewrite He.
  destruct (available h) eqn:Hav; cbn.
  2: { eexists. split_and!; [done| |done|done]. split; [done|]. by intros (_ & ? & _). }
  destruct (env 0 StorageGetState) as [[st|]|m0]; cbn;
    (destruct (env 1 ProxyGet) as [cur|m1]; cbn;
     [|eexists; (split_and!; [done| |done|done]); (split; [done|]);
       by intros (_ & _ & ? & _)]);
    (destruct (env 2 (ProxySet (config_of settings))) as [[]|m2]; cbn;
     [|eexists; (split_and!; [done| |done|intros; set_solver]); (split; [done|]);
       by intros (_ & _ & _ & ? & _)]);
    destruct (env 3 (StorageSetState _)) as [[]|m3]; cbn;
    unfold reports_fixed_servers;
    destruct (env 4 ProxyGet) as [[[l [v|]]|]|m4]; cbn;
    try destruct (String.eqb (config_mode v) "fixed_servers") eqn:Hm; cbn;
    eexists; (split_and!; [done| |done|intros; set_solver]);
    (split; [done|]); first [done | by intros (_ & _ & _ & _ & ?)].
Qed.

Lemma proxy_test_checks_the_setting_only_witness :
  exists res,
    r_status (run_seq answers_fresh 0 (testProxyConnection host_proxy proxy_on) 0)
    = Returned res /\ success res = true.
Proof.
  destruct (proxy_test_checks_the_setting_only host_proxy answers_fresh proxy_on 0)
    as (res & Hres & Hok & _).
  exists res. split; [exact Hres|].
  apply Hok. repeat split.
Defined.

End ProxyFacts.

Module RegexFacts.
Import Js Async Async.Notations RegexHandler AsyncFacts RegexShapes Samples.

Lemma slice0_take {X} (n : Z) (a : list X) :
  (0 <= n)%Z -> slice0 n a = take (Z.to_nat n) a.
Proof.
  intros Hn. unfold slice0. destruct (n <? 0)%Z eqn:Hlt; [|done].
  apply Z.ltb_lt in Hlt. lia.
Qed.

(** Read off what a finished run wrote. *)
Ltac wrote :=
  eexists; split; [reflexivity|];
  let a := fresh "a" in
  let H := fresh "H" in
  intros a; cbn; rewrite ?elem_of_cons; intros H;
  repeat (lazymatch type of H with
          | _ \/ _ => destruct H as [H|H]; [try discriminate|]
          end);
  try (by apply elem_of_nil in H);
  try (injection H as ->; done).

Lemma saveMatches_run env newMatches :
  exists tr,
    run_all env (saveMatches newMatches) tt = mkRun tt tr [] (Returned tt) /\
    forall allMatches,
      OCall (StorageSetMatches allMatches) ∈ tr ->
      newMatches <> [] /\
      logMatches (loaded_settings env) = true /\
      allMatches = slice0 (maxMatchesToStore (loaded_settings env))
                          (newMatches ++ existing_matches env).
Proof.
  unfold saveMatches, loaded_settings, existing_matches.
  destruct newMatches as [|m0 rest].
  { wrote. }
  cbn.
  destruct (env StorageGetSettings) as [[st|]|m]; cbn.
  - destruct (logMatches st) eqn:Hlog; cbn; [|wrote].
    destruct (env StorageGetMatches) as [[l|]|m]; cbn; [| |wrote];
      destruct (env (StorageSetMatches _)) as [[]|m]; cbn; wrote.
  - destruct (env StorageGetMatches) as [[l|]|m]; cbn; [| |wrote];
      destruct (env (StorageSetMatches _)) as [[]|m]; cbn; wrote.
  - destruct (env StorageGetMatches) as [[l|]|m']; cbn; [| |wrote];
      destruct (env (StorageSetMatches _)) as [[]|m']; cbn; wrote.
Qed.

(** X30. [saveMatches] never fails. With a limit that is not negative,
    whatever it writes to storage has at most [maxMatchesToStore]
    entries and is a prefix of the new matches followed by the stored
    ones: the new matches come first, and when the new matches alone
    reach the limit every older match is dropped. It writes only when
    there are new matches and logging is on. *)
Theorem stored_matches_are_bounded env newMatches allMatches :
  (0 <= maxMatchesToStore (loaded_settings env))%Z ->
  let r := run_all env (saveMatches newMatches) tt in
  r_status r = Returned tt /\
  (OCall (StorageSetMatches allMatches) ∈ r_trace r ->
   newMatches <> [] /\
   logMatches (loaded_settings env) = true /\
   (Z.of_nat (length allMatches) <= maxMatchesToStore (loaded_settings env))%Z /\
   allMatches `prefix_of` newMatches ++ existing_matches env /\
   (length allMatches < length (newMatches ++ existing_matches env) ->
    Z.of_nat (length allMatches) = maxMatchesToStore (loaded_settings env)) /\
   ((maxMatchesToStore (loaded_settings env) <= Z.of_nat (length newMatches))%Z ->
    allMatches `prefix_of` newMatches)).
Proof.
  intros Hmax. cbn zeta.
  destruct (saveMatches_run env newMatches) as (tr & -> & Htr). cbn.
  split; [done|]. intros Hin.
  destruct (Htr _ Hin) as (Hne & Hlog & ->).
  rewrite slice0_take by done.
  set (n := Z.to_nat (maxMatchesToStore (loaded_settings env))).
  assert (Z.of_nat n = maxMatchesToStore (loaded_settings env)) as Hn by lia.
  split_and!; [done..| | | |].
  - rewrite length_take. lia.
  - apply prefix_take.
  - rewrite length_take. lia.
  - intros Hle. rewrite take_app_le by lia. apply prefix_take.
Qed.

Lemma stored_matches_are_bounded_witness :
  [match_b; match_a] `prefix_of` [match_b] ++ existing_matches env_matches.
Proof.
  refine (proj1 (proj2 (proj2 (proj2 (proj2
    (stored_matches_are_bounded env_matches [match_b] [match_b; match_a] _) _))))).
  - vm_compute. discriminate.
  - apply list_elem_of_In. vm_compute. auto 6.
Defined.

End RegexFacts.
